(** * Inductance matrix of a three-phase overhead line

    A shallow embedding of [src/lib/inductanceCalculator.ts] (Maxwell's
    coefficient method with image conductors), of the place in the
    [InductanceCalculator] component that calls it, of the form around it
    and of the positions in the [LineDiagram].

    The TypeScript source computes on JavaScript [number]s.  The embedding is
    written once, over an interface [Number] that lists the arithmetic the
    source uses, and is then read in two arithmetics:

    - [Binary64]: IEEE 754 binary64, the arithmetic the code runs on.
      [+], [-], [*], [/], the comparisons and [Math.sqrt] are the kernel's
      primitive floats; [Math.log] and [Math.pow], which ECMA-262 leaves
      "implementation-approximated", come from an [Engine];
    - [Exact]: the real numbers, the arithmetic the formulas are meant in.

    What is proved for every [Number] holds in both.  The strings of the
    derivation steps are kept as the parts of their template literals. *)

From Stdlib Require Import List String ZArith Bool.
From Stdlib Require Import Reals Lra Lia.
From Stdlib Require Import Floats.
Import ListNotations.

Set Warnings "-inexact-float".

(* ================================================================== *)
(** * JavaScript numbers *)

(** The operations of [number] that the source uses, and the two order
    comparisons the claims are stated with.  The fields named [lit_...] are
    the numeric literals that occur in the source text: those of the
    calculator first, then those of the component's [defaultParams]. *)
Class Number : Type := {
  num : Type;
  add : num -> num -> num;
  sub : num -> num -> num;
  mul : num -> num -> num;
  div : num -> num -> num;
  strict_eq : num -> num -> bool;      (* x === y *)
  less : num -> num -> bool;           (* x < y   *)
  less_eq : num -> num -> bool;        (* x <= y  *)
  Math_sqrt : num -> num;
  Math_log : num -> num;
  Math_pow : num -> num -> num;
  lit_0 : num;
  lit_1 : num;
  lit_2 : num;
  lit_3 : num;
  lit_4 : num;
  lit_100 : num;
  lit_0_2 : num;
  lit_0_7788 : num;
  lit_15 : num;
  lit_11 : num;
  lit_3_18 : num;
  lit_45_72 : num
}.

Declare Scope js_scope.
Delimit Scope js_scope with js.
Notation "x + y" := (add x y) : js_scope.
Notation "x - y" := (sub x y) : js_scope.
Notation "x * y" := (mul x y) : js_scope.
Notation "x / y" := (div x y) : js_scope.
Notation "x === y" := (strict_eq x y) (at level 70, no associativity) : js_scope.

(** What the claims use of the arithmetic beyond its operations: all of it
    holds of binary64 and of the reals. *)
Class NumberLaws (J : Number) : Prop := {
  mul_comm : forall x y : num, mul x y = mul y x;
  one_is_one : strict_eq lit_1 lit_1 = true;
  two_le_not_one : forall n : num, less_eq lit_2 n = true -> strict_eq n lit_1 = false;
  positive_not_zero : forall b : num, less lit_0 b = true -> strict_eq b lit_0 = false
}.

(* ================================================================== *)
(** * Template literals

    The [value] and [explanation] of a step are template literals such as
    [`${Ls.toFixed(4)} mH/km`].  A template is kept as the sequence of its
    parts; [render] is the string it denotes once the engine's
    [Number.prototype.toFixed] and number-to-string conversion are given. *)

Inductive part {J : Number} : Type :=
| Text (s : string)                 (* literal text *)
| Fixed (x : num) (digits : nat)    (* ${x.toFixed(digits)} *)
| Str (x : num).                    (* ${x} *)

Definition template {J : Number} : Type := list part.

Definition render {J : Number}
    (toFixed : num -> nat -> string) (toString : num -> string)
    (t : template) : string :=
  fold_right
    (fun p acc =>
       match p with
       | Text s => s ++ acc
       | Fixed x d => toFixed x d ++ acc
       | Str x => toString x ++ acc
       end)%string
    EmptyString t.

(** How an evaluation ends: with a value, or with an exception thrown. *)
Inductive completion (A : Type) : Type :=
| Normal (a : A)
| Throw (error : string).
Arguments Normal {A} a.
Arguments Throw {A} error.

(** Sequencing: an exception ends the evaluation. *)
Definition bind {A B : Type} (c : completion A) (k : A -> completion B) :
    completion B :=
  match c with
  | Normal a => k a
  | Throw error => Throw error
  end.

(** [array.map(f)] for a callback that may throw: the elements are visited
    in order and the first exception ends the call. *)
Fixpoint map_completion {A B : Type} (f : A -> completion B) (l : list A) :
    completion (list B) :=
  match l with
  | [] => Normal []
  | x :: l' =>
      bind (f x) (fun y =>
      bind (map_completion f l') (fun ys =>
      Normal (y :: ys)))
  end.

(** [m[i][j]] of any matrix of rows; [None] stands for [undefined]. *)
Definition cell {A : Type} (m : list (list A)) (i j : nat) : option A :=
  match nth_error m i with
  | Some row => nth_error row j
  | None => None
  end.

(* ================================================================== *)
(** * The calculator, [src/lib/inductanceCalculator.ts] *)

Section Calculator.

Context {J : Number}.
Local Open Scope js_scope.

Record LineParameters : Type := {
  height : num;             (* H - height above ground in meters *)
  phaseSeparation : num;    (* S - spacing between phases in meters *)
  conductorDiameter : num;  (* d - conductor diameter in cm *)
  bundleSpacing : num;      (* B - bundle spacing in cm (0 for single conductor) *)
  numberOfBundles : num     (* N - number of sub-conductors in bundle *)
}.

Record CalculationStep : Type := {
  label : string;
  formula : string;
  value : template;
  explanation : template
}.

Definition matrix : Type := list (list num).

Record CalculationResults : Type := {
  req : num;                          (* Equivalent radius in meters *)
  maxwellMatrix : matrix;             (* Maxwell's coefficient matrix [P] *)
  inductanceUntransposed : matrix;    (* [L] untransposed in mH/km *)
  inductanceTransposed : matrix;      (* [L] transposed in mH/km *)
  selfInductance : num;               (* Ls in mH/km *)
  mutualInductanceAvg : num;          (* Lm average in mH/km *)
  steps : list CalculationStep
}.

(** [m[i][j]]; [None] stands for JavaScript's [undefined]. *)
Definition entry (m : matrix) (i j : nat) : option num :=
  match nth_error m i with
  | Some row => nth_error row j
  | None => None
  end.

(** [steps.push(s)] *)
Definition push (steps : list CalculationStep) (s : CalculationStep) :
    list CalculationStep :=
  steps ++ [s].

(** [COEFFICIENT = 0.2]; the constants [MU_0] and [MU_R] of the source are
    declared there and used nowhere. *)
Definition COEFFICIENT : num := lit_0_2.

Definition calculateInductanceMatrix (params : LineParameters) : CalculationResults :=
  let steps : list CalculationStep := [] in
  let H := height params in
  let S := phaseSeparation params in
  let r := (conductorDiameter params / lit_100) / lit_2 in
  let B := bundleSpacing params / lit_100 in
  let N := numberOfBundles params in

  (* Step 1: Calculate equivalent radius (req) *)
  let '(req, steps) :=
    if (N === lit_1) || (B === lit_0) then
      (* Single conductor - use GMR approximation *)
      let req := r * lit_0_7788 in
      (req,
       push steps
         {| label := "Equivalent Radius (Single Conductor)";
            formula := "r_eq = r × 0.7788";
            value := [Fixed (req * lit_100) 4; Text " cm = "; Fixed req 6; Text " m"];
            explanation := [Text "For single conductor, GMR = r × e^(-1/4)"] |})
    else
      (* Bundle conductor: req = (N × r × R^(N-1))^(1/N) *)
      let product := N * r * Math_pow B (N - lit_1) in
      let req := Math_pow product (lit_1 / N) in
      (req,
       push steps
         {| label := "Equivalent Radius (Bundle)";
            formula := "r_eq = (N × r × R^(N-1))^(1/N)";
            value := [Fixed (req * lit_100) 4; Text " cm = "; Fixed req 6; Text " m"];
            explanation := [Text "Bundle of "; Str N;
                            Text " sub-conductors with spacing R = ";
                            Str (B * lit_100); Text " cm"] |}) in

  (* Step 2: Calculate Maxwell's coefficients *)
  let P11 := Math_log ((lit_2 * H) / req) in
  let P22 := P11 in
  let P33 := P11 in
  let steps := push steps
    {| label := "Self Maxwell Coefficient (P₁₁ = P₂₂ = P₃₃)";
       formula := "P_ii = ln(2H / r_eq)";
       value := [Fixed P11 4];
       explanation := [Text "ln(2 × "; Str H; Text " / "; Fixed req 4;
                       Text ") = ln("; Fixed ((lit_2 * H) / req) 4; Text ")"] |} in

  let I12 := Math_sqrt (lit_4 * H * H + S * S) in
  let P12 := Math_log (I12 / S) in
  let steps := push steps
    {| label := "Mutual Maxwell Coefficient (P₁₂ = P₂₃)";
       formula := "P_12 = ln(√(4H² + S²) / S)";
       value := [Fixed P12 4];
       explanation := [Text "ln(√(4×"; Str H; Text "² + "; Str S; Text "²) / ";
                       Str S; Text ") = ln("; Fixed I12 4; Text " / "; Str S;
                       Text ") = ln("; Fixed (I12 / S) 4; Text ")"] |} in

  let I13 := Math_sqrt (lit_4 * H * H + lit_4 * S * S) in
  let P13 := Math_log (I13 / (lit_2 * S)) in
  let steps := push steps
    {| label := "Mutual Maxwell Coefficient (P₁₃)";
       formula := "P_13 = ln(√(4H² + 4S²) / 2S)";
       value := [Fixed P13 4];
       explanation := [Text "ln(√(4×"; Str H; Text "² + 4×"; Str S;
                       Text "²) / 2×"; Str S; Text ") = ln("; Fixed I13 4;
                       Text " / "; Str (lit_2 * S); Text ") = ln(";
                       Fixed (I13 / (lit_2 * S)) 4; Text ")"] |} in

  (* Maxwell's coefficient matrix [P] *)
  let maxwellMatrix := [ [P11; P12; P13];
                         [P12; P22; P12];
                         [P13; P12; P33] ] in

  (* Step 3: Calculate inductance matrix [L] = 0.2 × [P] mH/km *)
  let inductanceUntransposed :=
    map (fun row => map (fun val => val * COEFFICIENT) row) maxwellMatrix in

  let Ls := P11 * COEFFICIENT in
  let Lm12 := P12 * COEFFICIENT in
  let Lm13 := P13 * COEFFICIENT in

  let steps := push steps
    {| label := "Self Inductance (L_s)";
       formula := "L_s = 0.2 × P_ii";
       value := [Fixed Ls 4; Text " mH/km"];
       explanation := [Text "0.2 × "; Fixed P11 4; Text " = "; Fixed Ls 4;
                       Text " mH/km"] |} in
  let steps := push steps
    {| label := "Mutual Inductance (L₁₂ = L₂₃)";
       formula := "L_12 = 0.2 × P_12";
       value := [Fixed Lm12 4; Text " mH/km"];
       explanation := [Text "0.2 × "; Fixed P12 4; Text " = "; Fixed Lm12 4;
                       Text " mH/km"] |} in
  let steps := push steps
    {| label := "Mutual Inductance (L₁₃)";
       formula := "L_13 = 0.2 × P_13";
       value := [Fixed Lm13 4; Text " mH/km"];
       explanation := [Text "0.2 × "; Fixed P13 4; Text " = "; Fixed Lm13 4;
                       Text " mH/km"] |} in

  (* Step 4: Calculate transposed inductance matrix *)
  let PmAvg := (lit_2 * P12 + P13) / lit_3 in
  let LmAvg := PmAvg * COEFFICIENT in
  let steps := push steps
    {| label := "Average Mutual Inductance (Transposed)";
       formula := "L_m = 0.2 × (P₁₂ + P₂₃ + P₁₃) / 3";
       value := [Fixed LmAvg 4; Text " mH/km"];
       explanation := [Text "0.2 × ("; Fixed P12 4; Text " + "; Fixed P12 4;
                       Text " + "; Fixed P13 4; Text ") / 3"] |} in

  let inductanceTransposed := [ [Ls; LmAvg; LmAvg];
                                [LmAvg; Ls; LmAvg];
                                [LmAvg; LmAvg; Ls] ] in

  {| req := req;
     maxwellMatrix := maxwellMatrix;
     inductanceUntransposed := inductanceUntransposed;
     inductanceTransposed := inductanceTransposed;
     selfInductance := Ls;
     mutualInductanceAvg := LmAvg;
     steps := steps |}.

(** [val.toFixed(fractionDigits)], with [fractionDigits] the whole number
    the argument stands for: a [RangeError] is thrown unless it lies in
    0..100 (ECMA-262, Number.prototype.toFixed). *)
Definition call_toFixed (val : num) (fractionDigits : Z) : completion template :=
  if ((0 <=? fractionDigits) && (fractionDigits <=? 100))%Z
  then Normal [Fixed val (Z.to_nat fractionDigits)]
  else Throw "RangeError".

(** [formatMatrix(matrix, precision = 4)]:
    [matrix.map(row => row.map(val => val.toFixed(precision)))]. *)
Definition formatMatrix (m : matrix) (precision : option Z) :
    completion (list (list template)) :=
  let precision := match precision with Some d => d | None => 4%Z end in
  map_completion
    (fun row => map_completion (fun val => call_toFixed val precision) row) m.

(** ** The call in the [InductanceCalculator] component *)

(** Evaluating [calculateInductanceMatrix(params)].  The body has no [throw]
    statement, and what it calls ([Math.log], [Math.pow], [Math.sqrt],
    [toFixed] with 4 and 6 digits, [push], [map]) does not throw on numbers:
    the evaluation always completes normally. *)
Definition invoke (params : LineParameters) : completion CalculationResults :=
  Normal (calculateInductanceMatrix params).

(** [results] of the component:
    [if (!calculated) return null;
     try { return calculateInductanceMatrix(params); } catch { return null; }] *)
Definition results (params : LineParameters) (calculated : bool) :
    option CalculationResults :=
  if negb calculated then None
  else match invoke params with
       | Normal r => Some r
       | Throw _ => None
       end.

(** [defaultParams] of the component. *)
Definition defaultParams : LineParameters := {|
  height := lit_15;
  phaseSeparation := lit_11;
  conductorDiameter := lit_3_18;
  bundleSpacing := lit_45_72;
  numberOfBundles := lit_2
|}.

(** [{ ...params, [key]: value }] of [updateParam], for the three fields the
    claims vary. *)
Definition with_height (params : LineParameters) (v : num) : LineParameters := {|
  height := v;
  phaseSeparation := phaseSeparation params;
  conductorDiameter := conductorDiameter params;
  bundleSpacing := bundleSpacing params;
  numberOfBundles := numberOfBundles params
|}.

Definition with_phaseSeparation (params : LineParameters) (v : num) : LineParameters := {|
  height := height params;
  phaseSeparation := v;
  conductorDiameter := conductorDiameter params;
  bundleSpacing := bundleSpacing params;
  numberOfBundles := numberOfBundles params
|}.

Definition with_bundleSpacing (params : LineParameters) (v : num) : LineParameters := {|
  height := height params;
  phaseSeparation := phaseSeparation params;
  conductorDiameter := conductorDiameter params;
  bundleSpacing := v;
  numberOfBundles := numberOfBundles params
|}.

Definition with_numberOfBundles (params : LineParameters) (v : num) : LineParameters := {|
  height := height params;
  phaseSeparation := phaseSeparation params;
  conductorDiameter := conductorDiameter params;
  bundleSpacing := bundleSpacing params;
  numberOfBundles := v
|}.

End Calculator.

Arguments LineParameters J : clear implicits.
Arguments CalculationResults J : clear implicits.
Arguments CalculationStep J : clear implicits.

(* ================================================================== *)
(** * The state of the [InductanceCalculator] component *)

Section Component.

Context {J : Number}.

(** [keyof LineParameters] *)
Inductive key : Type :=
| key_height
| key_phaseSeparation
| key_conductorDiameter
| key_bundleSpacing
| key_numberOfBundles.

Definition with_conductorDiameter (params : LineParameters J) (v : num) :
    LineParameters J := {|
  height := height params;
  phaseSeparation := phaseSeparation params;
  conductorDiameter := v;
  bundleSpacing := bundleSpacing params;
  numberOfBundles := numberOfBundles params
|}.

(** [params[key]] *)
Definition field (params : LineParameters J) (k : key) : num :=
  match k with
  | key_height => height params
  | key_phaseSeparation => phaseSeparation params
  | key_conductorDiameter => conductorDiameter params
  | key_bundleSpacing => bundleSpacing params
  | key_numberOfBundles => numberOfBundles params
  end.

(** [{ ...prev, [key]: value }] *)
Definition spread (prev : LineParameters J) (k : key) (v : num) : LineParameters J :=
  match k with
  | key_height => with_height prev v
  | key_phaseSeparation => with_phaseSeparation prev v
  | key_conductorDiameter => with_conductorDiameter prev v
  | key_bundleSpacing => with_bundleSpacing prev v
  | key_numberOfBundles => with_numberOfBundles prev v
  end.

(** The two [useState] cells. *)
Record State : Type := {
  params : LineParameters J;
  calculated : bool
}.

(** [useState(defaultParams)], [useState(false)] *)
Definition initialState : State :=
  {| params := defaultParams; calculated := false |}.

(** [updateParam(key, value)]:
    [setParams(prev => ({ ...prev, [key]: value })); setCalculated(false)] *)
Definition updateParam (s : State) (k : key) (v : num) : State :=
  {| params := spread (params s) k v; calculated := false |}.

(** [handleCalculate]: [setCalculated(true)] *)
Definition handleCalculate (s : State) : State :=
  {| params := params s; calculated := true |}.

(** [handleReset]: [setParams(defaultParams); setCalculated(false)] *)
Definition handleReset (s : State) : State :=
  {| params := defaultParams; calculated := false |}.

(** What the user can make the component do. *)
Inductive action : Type :=
| UpdateParam (k : key) (v : num)
| Calculate
| Reset.

Definition act (s : State) (a : action) : State :=
  match a with
  | UpdateParam k v => updateParam s k v
  | Calculate => handleCalculate s
  | Reset => handleReset s
  end.

Definition run (s : State) (actions : list action) : State :=
  fold_left act actions s.

(** The [results] the component renders in a state (its [useMemo]). *)
Definition shown (s : State) : option (CalculationResults J) :=
  results (params s) (calculated s).

End Component.

Arguments State J : clear implicits.
Arguments action J : clear implicits.

(* ================================================================== *)
(** * Exact arithmetic

    The reading of the formulas over the real numbers.  It is meant for
    valid parameters (positive lengths, at least one sub-conductor), where
    every logarithm, root, quotient and power is taken of a positive number:
    there [Math.pow x y] is [exp (y * ln x)], which is [Rpower]. *)

Definition Exact : Number := {|
  num := R;
  add := Rplus;
  sub := Rminus;
  mul := Rmult;
  div := Rdiv;
  strict_eq := fun x y => if Req_dec_T x y then true else false;
  less := fun x y => if Rlt_dec x y then true else false;
  less_eq := fun x y => if Rle_dec x y then true else false;
  Math_sqrt := R_sqrt.sqrt;
  Math_log := ln;
  Math_pow := Rpower;
  lit_0 := 0%R;
  lit_1 := 1%R;
  lit_2 := 2%R;
  lit_3 := 3%R;
  lit_4 := 4%R;
  lit_100 := 100%R;
  lit_0_2 := 0.2%R;
  lit_0_7788 := 0.7788%R;
  lit_15 := 15%R;
  lit_11 := 11%R;
  lit_3_18 := 3.18%R;
  lit_45_72 := 45.72%R
|}.

(** Valid parameters, as the data model of the specification lists them
    (the count of sub-conductors being a whole number is not needed below). *)
Definition valid (p : LineParameters Exact) : Prop :=
  (0 < height p)%R /\
  (0 < phaseSeparation p)%R /\
  (0 < conductorDiameter p)%R /\
  (0 <= bundleSpacing p)%R /\
  (1 <= numberOfBundles p)%R.

(** [x] agrees with [v] to three decimal places: it differs from [v] by no
    more than half a unit of the third decimal, so that it rounds to [v]. *)
Definition to_3_places (x v : R) : Prop := (Rabs (x - v) <= 0.0005)%R.

(* ================================================================== *)
(** * Binary64 arithmetic

    [number] is IEEE 754 binary64.  The four operations, the comparisons and
    [Math.sqrt] are correctly rounded and are the kernel's [PrimFloat]
    operations.  [Math.log] and [Math.pow] are implementation-approximated
    in ECMA-262, so they are taken from the engine. *)

Record Engine : Type := {
  engine_log : float -> float;            (* Math.log *)
  engine_pow : float -> float -> float    (* Math.pow *)
}.

Definition Binary64 (E : Engine) : Number := {|
  num := float;
  add := PrimFloat.add;
  sub := PrimFloat.sub;
  mul := PrimFloat.mul;
  div := PrimFloat.div;
  strict_eq := PrimFloat.eqb;
  less := PrimFloat.ltb;
  less_eq := PrimFloat.leb;
  Math_sqrt := PrimFloat.sqrt;
  Math_log := engine_log E;
  Math_pow := engine_pow E;
  lit_0 := 0%float;
  lit_1 := 1%float;
  lit_2 := 2%float;
  lit_3 := 3%float;
  lit_4 := 4%float;
  lit_100 := 100%float;
  lit_0_2 := 0.2%float;
  lit_0_7788 := 0.7788%float;
  lit_15 := 15%float;
  lit_11 := 11%float;
  lit_3_18 := 3.18%float;
  lit_45_72 := 45.72%float
|}.

(** The real number a finite double is. *)
Definition float_value (x : float) : R :=
  match Prim2SF x with
  | S754_finite s m e =>
      let v := match e with
               | Zneg k => (IZR (Zpos m) / IZR (2 ^ Zpos k))%R
               | _ => IZR (Zpos m * 2 ^ e)
               end in
      if s then (- v)%R else v
  | _ => 0%R
  end.

(** The values ECMA-262 fixes for [Math.log] (sec. Math.log): NaN for NaN
    and for a negative argument, +Infinity at +Infinity, -Infinity at either
    zero, +0 at 1. *)
Definition ecma_log (E : Engine) : Prop :=
  engine_log E nan = nan /\
  engine_log E infinity = infinity /\
  engine_log E 0%float = neg_infinity /\
  engine_log E (-0)%float = neg_infinity /\
  engine_log E 1%float = 0%float /\
  (forall x, PrimFloat.ltb x 0 = true -> engine_log E x = nan).

(** ** A reference engine

    One engine, so that the binary64 reading can be run.  Its [Math.log] and
    [Math.pow] return the values ECMA-262 fixes and otherwise approximate the
    function by argument reduction and a power series, as engines do. *)
Module Reference.

Definition float_of_Z (z : Z) : float :=
  match z with
  | Z0 => 0%float
  | Zpos _ => of_uint63 (Uint63.of_Z z)
  | Zneg _ => (- of_uint63 (Uint63.of_Z (- z)))%float
  end.

(** The integer a float is, for a float that is a whole number. *)
Definition Z_of_float (x : float) : Z :=
  match Prim2SF x with
  | S754_finite s m e =>
      let a := match e with
               | Zneg k => (Zpos m / 2 ^ Zpos k)%Z
               | _ => (Zpos m * 2 ^ e)%Z
               end in
      if s then (- a)%Z else a
  | _ => 0%Z
  end.

Definition is_integral (x : float) : bool :=
  match Prim2SF x with
  | S754_zero _ => true
  | S754_finite _ m e =>
      match e with
      | Zneg k => (Zpos m mod 2 ^ Zpos k =? 0)%Z
      | _ => true
      end
  | _ => false
  end.

Definition is_odd_integral (x : float) : bool :=
  is_integral x && Z.odd (Z_of_float x).

Definition ln2 : float := 0.6931471805599453%float.
Definition ln2_hi : float := 0.693147180369123816490%float.
Definition ln2_lo : float := 1.90821492927058770002e-10%float.
Definition sqrt_half : float := 0.7071067811865476%float.

(** [sum_k c_k z^k] by Horner's rule, the coefficients given in order. *)
Fixpoint horner (cs : list float) (z : float) : float :=
  match cs with
  | [] => 0%float
  | c :: cs => (c + z * horner cs z)%float
  end.

(** [2/(2k+1)] for [k = 0 .. 11]: the series of [ln ((1+s)/(1-s))]. *)
Definition atanh_series : list float :=
  map (fun k => (2 / float_of_Z (2 * Z.of_nat k + 1))%float) (seq 0 12).

Definition log (x : float) : float :=
  if is_nan x then nan
  else if PrimFloat.ltb x 0 then nan
  else if PrimFloat.eqb x 0 then neg_infinity
  else if PrimFloat.eqb x infinity then infinity
  else if PrimFloat.eqb x 1 then 0%float
  else
    let (m, e) := Z.frexp x in
    let (m, e) := if PrimFloat.ltb m sqrt_half
                  then ((2 * m)%float, (e - 1)%Z) else (m, e) in
    let f := (m - 1)%float in
    let s := (f / (2 + f))%float in
    (float_of_Z e * ln2 + s * horner atanh_series (s * s))%float.

Fixpoint factorial (k : nat) : Z :=
  match k with
  | O => 1%Z
  | S k' => (Z.of_nat k * factorial k')%Z
  end.

(** [1/k!] for [k = 0 .. 14]. *)
Definition exp_series : list float :=
  map (fun k => (1 / float_of_Z (factorial k))%float) (seq 0 15).

Definition exp (z : float) : float :=
  if is_nan z then nan
  else if PrimFloat.ltb 709.782712893384%float z then infinity
  else if PrimFloat.ltb z (-745.1332191019412)%float then 0%float
  else
    let big := 6755399441055744%float in
    let k := ((z / ln2 + big) - big)%float in
    let r := ((z - k * ln2_hi) - k * ln2_lo)%float in
    Z.ldexp (horner exp_series r) (Z_of_float k).

(** [base] to a positive whole power, by repeated squaring. *)
Fixpoint pow_pos (base : float) (n : positive) : float :=
  match n with
  | xH => base
  | xO n => let h := pow_pos base n in (h * h)%float
  | xI n => let h := pow_pos base n in (base * (h * h))%float
  end.

(** [Number::exponentiate (base, exponent)] of ECMA-262. *)
Definition pow (base exponent : float) : float :=
  if is_nan exponent then nan
  else if PrimFloat.eqb exponent 0 then 1%float
  else if is_nan base then nan
  else if PrimFloat.eqb base infinity then
    if PrimFloat.ltb 0 exponent then infinity else 0%float
  else if PrimFloat.eqb base neg_infinity then
    if PrimFloat.ltb 0 exponent
    then (if is_odd_integral exponent then neg_infinity else infinity)
    else (if is_odd_integral exponent then (-0)%float else 0%float)
  else if PrimFloat.eqb base 0 then
    if get_sign base then
      if PrimFloat.ltb 0 exponent
      then (if is_odd_integral exponent then (-0)%float else 0%float)
      else (if is_odd_integral exponent then neg_infinity else infinity)
    else
      if PrimFloat.ltb 0 exponent then 0%float else infinity
  else if PrimFloat.eqb exponent infinity then
    if PrimFloat.ltb 1 (abs base) then infinity
    else if PrimFloat.eqb (abs base) 1 then nan else 0%float
  else if PrimFloat.eqb exponent neg_infinity then
    if PrimFloat.ltb 1 (abs base) then 0%float
    else if PrimFloat.eqb (abs base) 1 then nan else infinity
  else if is_integral exponent && PrimFloat.leb (abs exponent) 1024 then
    match Z_of_float exponent with
    | Zpos n => pow_pos base n
    | Zneg n => (1 / pow_pos base n)%float
    | Z0 => 1%float
    end
  else if PrimFloat.ltb base 0 then
    if is_integral exponent then
      let v := exp (exponent * log (- base))%float in
      if is_odd_integral exponent then (- v)%float else v
    else nan
  else exp (exponent * log base)%float.

Definition engine : Engine := {| engine_log := log; engine_pow := pow |}.

End Reference.

(** Binary64 arithmetic on the reference engine. *)
Definition B64 : Number := Binary64 Reference.engine.

(* ================================================================== *)
(** * The form: [InputField] and the handlers of the component

    These read what the user typed, so they are stated on binary64, where
    [NaN] and the two zeros exist.  [parseFloat] is the engine's: a handler
    below takes the number [parseFloat(e.target.value)] gave. *)

Module Form.

(** [ToBoolean] of a number: [NaN], [+0] and [-0] are falsy. *)
Definition ToBoolean (v : float) : bool :=
  negb (is_nan v || PrimFloat.eqb v 0).

(** [InputField]: [onChange(parseFloat(e.target.value) || 0)] *)
Definition InputField_onChange (parsed : float) : float :=
  if ToBoolean parsed then parsed else 0%float.

(** [Math.round]: the nearest whole number, a tie going up; [-0] for
    [-0.5 <= x < 0].  A double [m * 2^e] with [e >= 0] is whole already. *)
Definition Math_round (x : float) : float :=
  match Prim2SF x with
  | S754_finite s m (Zneg k) =>
      let twice := if s then (- Zpos m~0)%Z else Zpos m~0 in
      let n := ((twice + 2 ^ Zpos k) / 2 ^ Zpos (Pos.succ k))%Z in
      match n with
      | Z0 => if s then (-0)%float else 0%float
      | _ => Reference.float_of_Z n
      end
  | _ => x
  end.

(** [Math.max(a, b)]: [NaN] if either is, else the larger, [+0] counting
    as larger than [-0]. *)
Definition Math_max (a b : float) : float :=
  if is_nan a || is_nan b then nan
  else
    let larger (number highest : float) : bool :=
      PrimFloat.ltb highest number
      || (PrimFloat.eqb number 0 && negb (get_sign number)
          && PrimFloat.eqb highest 0 && get_sign highest) in
    let highest := neg_infinity in
    let highest := if larger a highest then a else highest in
    if larger b highest then b else highest.

(** The value a field hands to [updateParam]: [v] for four of them,
    [Math.max(1, Math.round(v))] for the number of sub-conductors. *)
Definition handed_on (k : key) (v : float) : float :=
  match k with
  | key_numberOfBundles => Math_max 1 (Math_round v)
  | _ => v
  end.

(** The bundle-spacing field is rendered only when
    [params.numberOfBundles > 1]. *)
Definition rendered {E : Engine} (s : State (Binary64 E)) (k : key) : bool :=
  match k with
  | key_bundleSpacing => PrimFloat.ltb 1 (numberOfBundles (params s))
  | _ => true
  end.

(** What happens in the form: text typed into a field (given by the number
    [parseFloat] makes of it), or one of the two buttons. *)
Inductive event : Type :=
| Typed (k : key) (parsed : float)
| Click_Calculate
| Click_Reset.

Definition on_event {E : Engine} (s : State (Binary64 E)) (ev : event) :
    State (Binary64 E) :=
  match ev with
  | Typed k parsed =>
      if rendered s k
      then updateParam s k (handed_on k (InputField_onChange parsed))
      else s
  | Click_Calculate => handleCalculate s
  | Click_Reset => handleReset s
  end.

Definition session {E : Engine} (events : list event) : State (Binary64 E) :=
  fold_left on_event events initialState.

End Form.

(* ================================================================== *)
(** * The diagram: [LineDiagram]

    The positions are computed in binary64, like everything else. *)

Module LineDiagram.

(** [Math.min(a, b)]: [NaN] if either is, else the smaller, [-0] counting
    as smaller than [+0]. *)
Definition Math_min (a b : float) : float :=
  if is_nan a || is_nan b then nan
  else
    let smaller (number lowest : float) : bool :=
      PrimFloat.ltb number lowest
      || (PrimFloat.eqb number 0 && get_sign number
          && PrimFloat.eqb lowest 0 && negb (get_sign lowest)) in
    let lowest := infinity in
    let lowest := if smaller a lowest then a else lowest in
    if smaller b lowest then b else lowest.

(** [const scale = Math.min(1, 180 / (2 * separation + 40))] *)
Definition scale (separation : float) : float :=
  Math_min 1 (180 / (2 * separation + 40))%float.

(** [const scaledSep = separation * scale * 4] *)
Definition scaledSep (separation : float) : float :=
  (separation * scale separation * 4)%float.

Definition centerX : float := 140%float.

(** [const x = centerX + pos * scaledSep], for [pos] in [-1, 0, 1]. *)
Definition x (separation pos : float) : float :=
  (centerX + pos * scaledSep separation)%float.

End LineDiagram.

(* ================================================================== *)
(** * Rounding to binary64, in closed form

    The kernel's specification of binary64 rounds a mantissa by shifting a
    record of it bit by bit ([shr_1]).  To compare the results of two
    products or quotients, the rounding is described here by what it
    computes; that the two agree is proved below ([round_closed]). *)

Module Rounding.

Local Open Scope Z_scope.

(** Of the rational [a / b]: twice the integer part, plus one when there is
    a fractional part. *)
Definition sticky (a b : Z) : Z :=
  2 * (a / b) + (if a mod b =? 0 then 0 else 1).

(** A shift record as a number of quarters: mantissa, round bit, sticky
    bit. *)
Definition code (mrs : shr_record) : Z :=
  4 * shr_m mrs + (if shr_r mrs then 2 else 0) + (if shr_s mrs then 1 else 0).

(** The record holds the rational [a / b]. *)
Definition represents (mrs : shr_record) (a b : Z) : Prop :=
  0 <= shr_m mrs /\ code mrs = sticky (2 * a) b.

(** The integer nearest to [c / 4], for a [c] that is even only when it is
    exact; a tie goes to the even integer. *)
Definition nearest_even (c : Z) : Z :=
  let m := c / 4 in
  let k := c mod 4 in
  if k <=? 1 then m
  else if k =? 2 then (if Z.even m then m else m + 1)
  else m + 1.

(** The overflow check, and the renormalisation after rounding up to
    [2^53]. *)
Definition check (s : bool) (m e : Z) : spec_float :=
  if e <=? 971 then S754_finite s (Z.to_pos m) e else S754_infinity s.

Definition finish (s : bool) (q t : Z) : spec_float :=
  if q =? 0 then S754_zero s
  else if q =? 2 ^ 53 then check s (2 ^ 52) (t + 1)
  else check s q t.

(** The exponent at which [SFdiv] forms its quotient. *)
Definition div_exponent (m1 : positive) (e1 : Z) (m2 : positive) (e2 : Z) : Z :=
  Z.min (fexp prec emax (Zdigits2 (Zpos m1) + e1 - (Zdigits2 (Zpos m2) + e2)))
        (e1 - e2).

(** Binary64 numbers that are not [NaN], in their order, as integers. *)
Definition rank (x : spec_float) : Z :=
  match x with
  | S754_zero _ => 0
  | S754_nan => 0
  | S754_infinity s => if s then - (4000 * 2 ^ 53) else 4000 * 2 ^ 53
  | S754_finite s m e =>
      if s then - ((e + 1075) * 2 ^ 53 + Zpos m) else (e + 1075) * 2 ^ 53 + Zpos m
  end.

End Rounding.

Import Rounding.


(** The worked example of the specification: the default parameters, in
    exact arithmetic. *)
Definition workedExample : CalculationResults Exact :=
  calculateInductanceMatrix defaultParams.

(** The worked example reproduces the six numbers to three decimal places. *)
Definition reproduces (r_eq P_11 P_12 P_13 L_s L_m : R) : Prop :=
  exists P11 P12 P13 : R,
    entry (maxwellMatrix workedExample) 0 0 = Some P11 /\
    entry (maxwellMatrix workedExample) 0 1 = Some P12 /\
    entry (maxwellMatrix workedExample) 0 2 = Some P13 /\
    to_3_places (req workedExample) r_eq /\
    to_3_places P11 P_11 /\
    to_3_places P12 P_12 /\
    to_3_places P13 P_13 /\
    to_3_places (selfInductance workedExample) L_s /\
    to_3_places (mutualInductanceAvg workedExample) L_m.

(* ================================================================== *)
(** * Rational enclosures of the exponential

    Used to evaluate the logarithms of the worked example in exact
    arithmetic.  Numbers are fixed-point integers over [scale];
    [exp (p/q)] is enclosed between [(1 + t)^(2^k)] and [(1 - t)^-(2^k)]
    for [t = p / (q 2^k)], the powers taken by [k] squarings that round down
    and up. *)

Definition scale : Z := 2 ^ 100.

Fixpoint square_down (k : nat) (z : Z) : Z :=
  match k with
  | O => z
  | S k => square_down k (z * z / scale)
  end.

Fixpoint square_up (k : nat) (z : Z) : Z :=
  match k with
  | O => z
  | S k => square_up k (z * z / scale + 1)
  end.

Definition exp_below (p q : Z) (k : nat) : Z :=
  square_down k (scale + p * scale / (q * 2 ^ Z.of_nat k)).

Definition exp_above (p q : Z) (k : nat) : Z :=
  square_up k (scale * (q * 2 ^ Z.of_nat k) / (q * 2 ^ Z.of_nat k - p) + 1).

(* ================================================================== *)
(** * The laws hold in both arithmetics *)

Lemma Exact_laws : NumberLaws Exact.
Proof.
  split; cbn.
  - intros x y. apply Rmult_comm.
  - destruct (Req_dec_T 1 1) as [_ | n]; [reflexivity | exfalso; apply n; reflexivity].
  - intros n Hn. destruct (Rle_dec 2 n) as [Hle | _]; [| discriminate].
    destruct (Req_dec_T n 1) as [-> | _]; [lra | reflexivity].
  - intros b Hb. destruct (Rlt_dec 0 b) as [Hlt | _]; [| discriminate].
    destruct (Req_dec_T b 0) as [-> | _]; [lra | reflexivity].
Qed.

(** IEEE multiplication is commutative: the sign, the product of the
    significands and the sum of the exponents are. *)
Lemma SF64mul_comm (x y : spec_float) : SF64mul x y = SF64mul y x.
Proof.
  unfold SF64mul, SFmul.
  destruct x as [sx | sx | | sx mx ex], y as [sy | sy | | sy my ey];
    try reflexivity; try (rewrite (xorb_comm sx sy); reflexivity).
  rewrite (xorb_comm sx sy), (Pos.mul_comm mx my), (Z.add_comm ex ey).
  reflexivity.
Qed.

Lemma float_mul_comm (x y : float) : (x * y)%float = (y * x)%float.
Proof.
  apply Prim2SF_inj. rewrite !mul_spec. apply SF64mul_comm.
Qed.

Lemma float_two_le_not_one (n : float) :
  PrimFloat.leb 2 n = true -> PrimFloat.eqb n 1 = false.
Proof.
  rewrite leb_spec, eqb_spec.
  change (Prim2SF 2) with (S754_finite false 4503599627370496 (-51)).
  change (Prim2SF 1) with (S754_finite false 4503599627370496 (-52)).
  unfold SFleb, SFeqb.
  destruct (Prim2SF n) as [s | s | | s m e]; cbv beta iota delta [SFcompare].
  - reflexivity.
  - destruct s; reflexivity.
  - reflexivity.
  - destruct s; [discriminate |].
    destruct (Z.compare_spec (-51) e) as [He | He | He];
      destruct (Z.compare_spec e (-52)) as [He' | He' | He'];
      try reflexivity; try lia; try discriminate.
Qed.

Lemma float_positive_not_zero (b : float) :
  PrimFloat.ltb 0 b = true -> PrimFloat.eqb b 0 = false.
Proof.
  rewrite ltb_spec, eqb_spec.
  change (Prim2SF 0) with (S754_zero false).
  unfold SFltb, SFeqb.
  destruct (Prim2SF b) as [s | s | | s m e]; cbv beta iota delta [SFcompare];
    try discriminate; destruct s; try reflexivity; discriminate.
Qed.

Lemma Binary64_laws (E : Engine) : NumberLaws (Binary64 E).
Proof.
  split; cbn.
  - apply float_mul_comm.
  - reflexivity.
  - apply float_two_le_not_one.
  - apply float_positive_not_zero.
Qed.

(* ================================================================== *)
(** * Properties that hold in every arithmetic *)

Ltac unfold_calc := unfold calculateInductanceMatrix; cbv zeta.

Section Generic.

Context {J : Number}.
Local Open Scope js_scope.

(** The call always completes normally: nothing in the body throws. *)
Lemma invoke_normal (p : LineParameters J) :
  invoke p = Normal (calculateInductanceMatrix p) /\
  results p true = Some (calculateInductanceMatrix p).
Proof. split; reflexivity. Qed.

(** The Maxwell matrix is assembled from three coefficients. *)
Lemma maxwellMatrix_shape (p : LineParameters J) :
  exists P11 P12 P13,
    maxwellMatrix (calculateInductanceMatrix p) =
      [ [P11; P12; P13]; [P12; P11; P12]; [P13; P12; P11] ].
Proof. unfold_calc. destruct (_ || _); cbn; eauto. Qed.

(** The test [N === 1 || B === 0] of step 1, for one conductor and for a
    bundle. *)
Lemma single_conductor_of_one `{!NumberLaws J} (p : LineParameters J) :
  numberOfBundles p = lit_1 ->
  (numberOfBundles p === lit_1) || (bundleSpacing p / lit_100 === lit_0) = true.
Proof. intros HN. rewrite HN, one_is_one. reflexivity. Qed.

Lemma bundle_of_two `{!NumberLaws J} (p : LineParameters J) :
  less_eq lit_2 (numberOfBundles p) = true ->
  less lit_0 (bundleSpacing p / lit_100) = true ->
  (numberOfBundles p === lit_1) || (bundleSpacing p / lit_100 === lit_0) = false.
Proof.
  intros HN HB.
  rewrite (two_le_not_one _ HN), (positive_not_zero _ HB). reflexivity.
Qed.

(** C3.  With [numberOfBundles = 1] the returned equivalent radius is the
    conductor radius in meters times 0.7788, exactly: no rounding or
    tolerance is involved beyond the arithmetic's own.  The radius is
    [conductorDiameter / 200], which the code forms as
    [(conductorDiameter / 100) / 2]. *)
Theorem equivalent_radius_single `{!NumberLaws J} (p : LineParameters J) :
  numberOfBundles p = lit_1 ->
  req (calculateInductanceMatrix p)
  = ((conductorDiameter p / lit_100) / lit_2) * lit_0_7788.
Proof.
  intros HN. unfold_calc.
  rewrite (single_conductor_of_one p HN). reflexivity.
Qed.

(** C5.  With [N >= 2] sub-conductors and a positive spacing [B] (in meters)
    the returned equivalent radius is [(N * r * B^(N-1))^(1/N)] with
    [r = conductorDiameter / 200] meters, for every [N]: the general
    bundle formula is the one executed. *)
Theorem equivalent_radius_bundle `{!NumberLaws J} (p : LineParameters J) :
  let N := numberOfBundles p in
  let r := (conductorDiameter p / lit_100) / lit_2 in
  let B := bundleSpacing p / lit_100 in
  less_eq lit_2 N = true ->
  less lit_0 B = true ->
  req (calculateInductanceMatrix p)
  = Math_pow (N * r * Math_pow B (N - lit_1)) (lit_1 / N).
Proof.
  intros N r B HN HB. unfold_calc.
  rewrite (bundle_of_two p HN HB). reflexivity.
Qed.

(** C6.  The two matrices have an entry at each of the nine places, and the
    entry of [inductanceUntransposed] is 0.2 times the entry of
    [maxwellMatrix] at the same place, exactly. *)
Theorem untransposed_scale `{!NumberLaws J} (p : LineParameters J) (i j : nat) :
  (i < 3)%nat -> (j < 3)%nat ->
  let r := calculateInductanceMatrix p in
  exists P : num,
    entry (maxwellMatrix r) i j = Some P /\
    entry (inductanceUntransposed r) i j = Some (lit_0_2 * P).
Proof.
  intros Hi Hj. unfold_calc. unfold COEFFICIENT.
  destruct i as [| [| [| i]]]; [| | | lia];
    (destruct j as [| [| [| j]]]; [| | | lia]);
    destruct (_ || _); cbn; eexists; (split; [reflexivity |]);
    rewrite mul_comm; reflexivity.
Qed.

(** C7.  [inductanceTransposed] has [selfInductance] at every diagonal place
    and [mutualInductanceAvg] at every other place, and
    [mutualInductanceAvg = 0.2 * ((2 * P_12 + P_13) / 3)] for the
    coefficients [P_12], [P_13] of the Maxwell matrix. *)
Theorem transposed_entries `{!NumberLaws J} (p : LineParameters J) :
  let r := calculateInductanceMatrix p in
  (forall i j, (i < 3)%nat -> (j < 3)%nat ->
     entry (inductanceTransposed r) i j
     = Some (if Nat.eqb i j then selfInductance r else mutualInductanceAvg r)) /\
  (exists P12 P13,
     entry (maxwellMatrix r) 0 1 = Some P12 /\
     entry (maxwellMatrix r) 0 2 = Some P13 /\
     mutualInductanceAvg r = lit_0_2 * ((lit_2 * P12 + P13) / lit_3)).
Proof.
  unfold_calc. unfold COEFFICIENT. destruct (_ || _); cbn; split.
  1, 3: intros i j Hi Hj;
    destruct i as [| [| [| i]]]; [| | | lia];
      (destruct j as [| [| [| j]]]; [| | | lia]); reflexivity.
  all: eexists; eexists; (split; [reflexivity |]); (split; [reflexivity |]);
    apply mul_comm.
Qed.

(** C8.  The Maxwell matrix is symmetric: at each of the nine places [i],
    [j] it has an entry, and the entry at [j], [i] is the same. *)
Theorem maxwellMatrix_symmetric (p : LineParameters J) (i j : nat) :
  (i < 3)%nat -> (j < 3)%nat ->
  let P := maxwellMatrix (calculateInductanceMatrix p) in
  exists v : num, entry P i j = Some v /\ entry P j i = Some v.
Proof.
  intros Hi Hj. unfold_calc.
  destruct i as [| [| [| i]]]; [| | | lia];
    (destruct j as [| [| [| j]]]; [| | | lia]);
    destruct (_ || _); cbn; eexists; split; reflexivity.
Qed.

(** C10.  With one conductor per bundle the bundle spacing is not read: two
    parameter records that differ at most in [bundleSpacing] give the same
    results, the steps included. *)
Theorem bundleSpacing_ignored `{!NumberLaws J} (p1 p2 : LineParameters J) :
  numberOfBundles p1 = lit_1 ->
  numberOfBundles p2 = lit_1 ->
  height p1 = height p2 ->
  phaseSeparation p1 = phaseSeparation p2 ->
  conductorDiameter p1 = conductorDiameter p2 ->
  calculateInductanceMatrix p1 = calculateInductanceMatrix p2.
Proof.
  intros H1 H2 HH HS Hd. unfold_calc.
  rewrite (single_conductor_of_one p1 H1), (single_conductor_of_one p2 H2).
  rewrite HH, HS, Hd. reflexivity.
Qed.

End Generic.

(* ================================================================== *)
(** * Exact arithmetic: enclosures *)

Section Enclosures.

Local Open Scope R_scope.
Local Abbreviation sqrt := R_sqrt.sqrt.

Lemma scale_pos : 0 < IZR scale.
Proof. apply IZR_lt. reflexivity. Qed.

Lemma IZR_div_le (a s : Z) : (0 < s)%Z -> IZR (a / s) <= IZR a / IZR s.
Proof.
  intros Hs. assert (Hs' : 0 < IZR s) by (apply IZR_lt; exact Hs).
  apply Rmult_le_reg_l with (IZR s); [exact Hs' |].
  replace (IZR s * (IZR a / IZR s)) with (IZR a) by (field; lra).
  rewrite <- mult_IZR. apply IZR_le. apply Z.mul_div_le. exact Hs.
Qed.

Lemma IZR_div_gt (a s : Z) : (0 < s)%Z -> IZR a / IZR s < IZR (a / s + 1).
Proof.
  intros Hs. assert (Hs' : 0 < IZR s) by (apply IZR_lt; exact Hs).
  apply Rmult_lt_reg_l with (IZR s); [exact Hs' |].
  replace (IZR s * (IZR a / IZR s)) with (IZR a) by (field; lra).
  rewrite <- mult_IZR. apply IZR_lt.
  change (a / s + 1)%Z with (Z.succ (a / s)).
  apply Z.mul_succ_div_gt. exact Hs.
Qed.

Lemma exp_double (t : R) : exp (2 * t) = exp t * exp t.
Proof. replace (2 * t) with (t + t) by lra. apply exp_plus. Qed.

Lemma square_down_sound (k : nat) : forall (z : Z) (t : R),
  (0 <= z)%Z -> IZR z <= IZR scale * exp t ->
  IZR (square_down k z) <= IZR scale * exp (2 ^ k * t).
Proof.
  induction k as [| k IH]; intros z t Hz Hle; cbn [square_down].
  - replace (2 ^ 0 * t) with t by (simpl; lra). exact Hle.
  - replace (2 ^ S k * t) with (2 ^ k * (2 * t)) by (simpl; lra).
    apply IH.
    + apply Z.div_pos; [apply Z.mul_nonneg_nonneg; assumption | reflexivity].
    + eapply Rle_trans; [apply IZR_div_le; reflexivity |].
      rewrite mult_IZR, exp_double.
      pose proof scale_pos as Hs. pose proof (exp_pos t) as He.
      assert (H0 : 0 <= IZR z) by (apply IZR_le; exact Hz).
      apply Rmult_le_reg_l with (IZR scale); [exact Hs |].
      replace (IZR scale * (IZR z * IZR z / IZR scale)) with (IZR z * IZR z)
        by (field; lra).
      replace (IZR scale * (IZR scale * (exp t * exp t)))
        with ((IZR scale * exp t) * (IZR scale * exp t)) by ring.
      apply Rmult_le_compat; assumption.
Qed.

Lemma square_up_sound (k : nat) : forall (z : Z) (t : R),
  IZR scale * exp t <= IZR z ->
  IZR scale * exp (2 ^ k * t) <= IZR (square_up k z).
Proof.
  induction k as [| k IH]; intros z t Hle; cbn [square_up].
  - replace (2 ^ 0 * t) with t by (simpl; lra). exact Hle.
  - replace (2 ^ S k * t) with (2 ^ k * (2 * t)) by (simpl; lra).
    apply IH.
    eapply Rle_trans; [| apply Rlt_le, IZR_div_gt; reflexivity].
    rewrite mult_IZR, exp_double.
    pose proof scale_pos as Hs. pose proof (exp_pos t) as He.
    assert (H0 : 0 <= IZR scale * exp t) by (apply Rmult_le_pos; lra).
    apply Rmult_le_reg_l with (IZR scale); [exact Hs |].
    replace (IZR scale * (IZR z * IZR z / IZR scale)) with (IZR z * IZR z)
      by (field; lra).
    replace (IZR scale * (IZR scale * (exp t * exp t)))
      with ((IZR scale * exp t) * (IZR scale * exp t)) by ring.
    apply Rmult_le_compat; assumption.
Qed.

Lemma pow2_IZR (k : nat) : IZR (2 ^ Z.of_nat k) = 2 ^ k.
Proof. rewrite <- pow_IZR. reflexivity. Qed.

Lemma exp_below_sound (p q : Z) (k : nat) :
  (0 <= p)%Z -> (0 < q)%Z ->
  IZR (exp_below p q k) <= IZR scale * exp (IZR p / IZR q).
Proof.
  intros Hp Hq. unfold exp_below.
  assert (Hq' : 0 < IZR q) by (apply IZR_lt; exact Hq).
  assert (H2 : 0 < 2 ^ k) by (apply pow_lt; lra).
  assert (Hd : (0 < q * 2 ^ Z.of_nat k)%Z).
  { apply Z.mul_pos_pos; [exact Hq | apply Z.pow_pos_nonneg; lia]. }
  set (t := IZR p / IZR (q * 2 ^ Z.of_nat k)).
  replace (IZR p / IZR q) with (2 ^ k * t).
  2:{ unfold t. rewrite mult_IZR, pow2_IZR. field. lra. }
  apply square_down_sound.
  - apply Z.add_nonneg_nonneg; [discriminate |].
    apply Z.div_pos; [| exact Hd]. apply Z.mul_nonneg_nonneg; [exact Hp | discriminate].
  - rewrite plus_IZR.
    pose proof (IZR_div_le (p * scale) _ Hd) as Hdiv.
    rewrite mult_IZR in Hdiv.
    pose proof (exp_ineq1_le t) as He. pose proof scale_pos as Hs.
    fold t in Hdiv.
    assert (Ht : IZR p * IZR scale / IZR (q * 2 ^ Z.of_nat k) = IZR scale * t).
    { unfold t. field. apply Rgt_not_eq. apply IZR_lt. exact Hd. }
    rewrite Ht in Hdiv. nra.
Qed.

Lemma exp_above_sound (p q : Z) (k : nat) :
  (0 < q)%Z -> (p < q * 2 ^ Z.of_nat k)%Z ->
  IZR scale * exp (IZR p / IZR q) <= IZR (exp_above p q k).
Proof.
  intros Hq Hp. unfold exp_above.
  assert (Hq' : 0 < IZR q) by (apply IZR_lt; exact Hq).
  assert (H2 : 0 < 2 ^ k) by (apply pow_lt; lra).
  set (d := (q * 2 ^ Z.of_nat k)%Z) in *.
  assert (Hd : (0 < d - p)%Z) by lia.
  assert (Hd' : 0 < IZR d).
  { unfold d. rewrite mult_IZR, pow2_IZR. apply Rmult_lt_0_compat; assumption. }
  assert (Hdp : 0 < IZR d - IZR p) by (rewrite <- minus_IZR; apply IZR_lt; exact Hd).
  set (t := IZR p / IZR d).
  replace (IZR p / IZR q) with (2 ^ k * t).
  2:{ unfold t, d. rewrite mult_IZR, pow2_IZR. field. lra. }
  apply square_up_sound.
  pose proof (IZR_div_gt (scale * d) _ Hd) as Hdiv.
  rewrite mult_IZR, minus_IZR in Hdiv.
  eapply Rle_trans; [| apply Rlt_le; exact Hdiv].
  pose proof scale_pos as Hs.
  assert (Ht1 : 1 - t = (IZR d - IZR p) / IZR d) by (unfold t; field; lra).
  assert (Hpos : 0 < 1 - t) by (rewrite Ht1; apply Rdiv_lt_0_compat; assumption).
  (* exp t <= 1 / (1 - t) *)
  pose proof (exp_ineq1_le (- t)) as He. rewrite exp_Ropp in He.
  pose proof (exp_pos t) as Hexp.
  assert (Hb : exp t <= / (1 - t)).
  { apply Rmult_le_reg_l with (1 - t); [exact Hpos |].
    rewrite Rinv_r by lra.
    apply Rmult_le_reg_r with (/ exp t); [apply Rinv_0_lt_compat; exact Hexp |].
    rewrite Rmult_assoc, Rinv_r by lra. lra. }
  replace (IZR scale * IZR d / (IZR d - IZR p)) with (IZR scale * / (1 - t)).
  2:{ rewrite Ht1. field. split; lra. }
  apply Rmult_le_compat_l; lra.
Qed.

(** [ln y < p/q], from a rational upper bound [n/d] of [y] that is below exp(p/q). *)
Lemma ln_below (y : R) (n d p q : Z) (k : nat) :
  0 < y -> y < IZR n / IZR d ->
  (0 < d)%Z -> (0 <= p)%Z -> (0 < q)%Z ->
  (n * scale <=? d * exp_below p q k)%Z = true ->
  ln y < IZR p / IZR q.
Proof.
  intros Hy Hyn Hd Hp Hq Hc.
  apply Z.leb_le in Hc. apply IZR_le in Hc. rewrite !mult_IZR in Hc.
  pose proof (exp_below_sound p q k Hp Hq) as Hb.
  pose proof scale_pos as Hs.
  assert (Hd' : 0 < IZR d) by (apply IZR_lt; exact Hd).
  rewrite <- (ln_exp (IZR p / IZR q)).
  apply ln_increasing; [exact Hy |].
  eapply Rlt_le_trans; [exact Hyn |].
  apply Rmult_le_reg_l with (IZR d * IZR scale); [apply Rmult_lt_0_compat; assumption |].
  replace (IZR d * IZR scale * (IZR n / IZR d)) with (IZR n * IZR scale) by (field; lra).
  nra.
Qed.

Lemma ln_above (y : R) (n d p q : Z) (k : nat) :
  IZR n / IZR d < y ->
  (0 < d)%Z -> (0 < q)%Z -> (p < q * 2 ^ Z.of_nat k)%Z ->
  (d * exp_above p q k <=? n * scale)%Z = true ->
  IZR p / IZR q < ln y.
Proof.
  intros Hyn Hd Hq Hp Hc.
  apply Z.leb_le in Hc. apply IZR_le in Hc. rewrite !mult_IZR in Hc.
  pose proof (exp_above_sound p q k Hq Hp) as Hb.
  pose proof scale_pos as Hs.
  assert (Hd' : 0 < IZR d) by (apply IZR_lt; exact Hd).
  pose proof (exp_pos (IZR p / IZR q)) as He.
  rewrite <- (ln_exp (IZR p / IZR q)).
  apply ln_increasing; [exact He |].
  eapply Rle_lt_trans; [| exact Hyn].
  apply Rmult_le_reg_l with (IZR d * IZR scale); [apply Rmult_lt_0_compat; assumption |].
  replace (IZR d * IZR scale * (IZR n / IZR d)) with (IZR n * IZR scale) by (field; lra).
  nra.
Qed.


Lemma sqrt_between (c a b : R) :
  0 <= a -> 0 <= b -> a * a < c -> c < b * b -> a < sqrt c < b.
Proof.
  intros Ha Hb Hac Hcb. split.
  - rewrite <- (sqrt_square a) at 1 by exact Ha.
    apply sqrt_lt_1_alt. split; [nra | exact Hac].
  - rewrite <- (sqrt_square b) by exact Hb.
    apply sqrt_lt_1_alt. split; [nra | exact Hcb].
Qed.

End Enclosures.

(* ================================================================== *)
(** * Exact arithmetic: the worked example *)

Section WorkedExample.

Local Open Scope R_scope.
Local Abbreviation sqrt := R_sqrt.sqrt.

Lemma default_is_bundle :
  let p : LineParameters Exact := defaultParams in
  (strict_eq (numberOfBundles p) lit_1
   || strict_eq (div (bundleSpacing p) lit_100) lit_0) = false.
Proof.
  apply (@bundle_of_two Exact Exact_laws); cbn.
  - destruct (Rle_dec 2 2) as [_ | n]; [reflexivity | exfalso; lra].
  - destruct (Rlt_dec 0 (45.72 / 100)) as [_ | n]; [reflexivity | exfalso; lra].
Qed.

(** What the default parameters evaluate to, before any number is rounded. *)
Lemma workedExample_values :
  let P11 := ln (30 / sqrt 0.01453896) in
  let P12 := ln (sqrt 1021 / 11) in
  let P13 := ln (sqrt 1384 / 22) in
  req workedExample = sqrt 0.01453896 /\
  maxwellMatrix workedExample
    = [ [P11; P12; P13]; [P12; P11; P12]; [P13; P12; P11] ] /\
  selfInductance workedExample = P11 * 0.2 /\
  mutualInductanceAvg workedExample = (2 * P12 + P13) / 3 * 0.2.
Proof.
  assert (Hreq : Rpower (2 * (3.18 / 100 / 2) * Rpower (45.72 / 100) (2 - 1)) (1 / 2)
                 = sqrt 0.01453896).
  { replace (2 - 1) with 1 by lra.
    rewrite Rpower_1 by lra.
    replace (1 / 2) with (/ 2) by lra.
    rewrite Rpower_sqrt by lra.
    f_equal. lra. }
  unfold workedExample. unfold_calc. unfold COEFFICIENT.
  rewrite default_is_bundle. cbn. rewrite Hreq.
  replace (2 * 15) with 30 by lra.
  replace (4 * 15 * 15 + 11 * 11) with 1021 by lra.
  replace (4 * 15 * 15 + 4 * 11 * 11) with 1384 by lra.
  replace (2 * 11) with 22 by lra.
  repeat split; reflexivity.
Qed.

Lemma P11_enclosure : 5.5166 < ln (30 / sqrt 0.01453896) < 5.5167.
Proof.
  destruct (sqrt_between 0.01453896 0.120577 0.120578) as [Hlo Hhi]; try lra.
  set (s := sqrt 0.01453896) in *.
  assert (Hq : 30 / s * s = 30) by (field; lra).
  assert (Hy : 248.80 < 30 / s < 248.81) by (split; nra).
  split.
  - replace 5.5166 with (IZR 55166 / IZR 10000) by lra.
    apply (ln_above _ 24880 100 55166 10000 30);
      [lra | reflexivity | reflexivity | reflexivity | vm_compute; reflexivity].
  - replace 5.5167 with (IZR 55167 / IZR 10000) by lra.
    apply (ln_below _ 24881 100 55167 10000 30);
      [lra | lra | reflexivity | discriminate | reflexivity | vm_compute; reflexivity].
Qed.

Lemma P12_enclosure : 1.0663 < ln (sqrt 1021 / 11) < 1.0664.
Proof.
  destruct (sqrt_between 1021 31.95309 31.95310) as [Hlo Hhi]; try lra.
  set (s := sqrt 1021) in *.
  split.
  - replace 1.0663 with (IZR 10663 / IZR 10000) by lra.
    apply (ln_above _ 290482 100000 10663 10000 30);
      [lra | reflexivity | reflexivity | reflexivity | vm_compute; reflexivity].
  - replace 1.0664 with (IZR 10664 / IZR 10000) by lra.
    apply (ln_below _ 290483 100000 10664 10000 30);
      [lra | lra | reflexivity | discriminate | reflexivity | vm_compute; reflexivity].
Qed.

Lemma P13_enclosure : 0.5253 < ln (sqrt 1384 / 22) < 0.5254.
Proof.
  destruct (sqrt_between 1384 37.2021 37.2022) as [Hlo Hhi]; try lra.
  set (s := sqrt 1384) in *.
  split.
  - replace 0.5253 with (IZR 5253 / IZR 10000) by lra.
    apply (ln_above _ 169100 100000 5253 10000 30);
      [lra | reflexivity | reflexivity | reflexivity | vm_compute; reflexivity].
  - replace 0.5254 with (IZR 5254 / IZR 10000) by lra.
    apply (ln_below _ 169101 100000 5254 10000 30);
      [lra | lra | reflexivity | discriminate | reflexivity | vm_compute; reflexivity].
Qed.

Lemma req_enclosure : 0.120577 < sqrt 0.01453896 < 0.120578.
Proof. apply sqrt_between; lra. Qed.

Lemma to_3_places_intro (x v : R) : v - 0.0005 <= x <= v + 0.0005 -> to_3_places x v.
Proof. intros H. unfold to_3_places. apply Rabs_le. lra. Qed.

Lemma to_3_places_elim (x v : R) : to_3_places x v -> v - 0.0005 <= x <= v + 0.0005.
Proof.
  unfold to_3_places. intros H.
  pose proof (Rle_abs (x - v)) as H1.
  pose proof (Rle_abs (- (x - v))) as H2. rewrite Rabs_Ropp in H2. lra.
Qed.

(** C2, as the code has it.  In exact arithmetic the default parameters give
    [r_eq = 0.1206], [P_11 = 5.517], [P_12 = 1.066], [P_13 = 0.525],
    [selfInductance = 1.103] and [mutualInductanceAvg = 0.177] to three
    decimal places: three of the six numbers of the specification are one
    unit of the third decimal too high. *)
Theorem worked_example : reproduces 0.1206 5.517 1.066 0.525 1.103 0.177.
Proof.
  destruct workedExample_values as (Hreq & HP & HLs & HLm).
  pose proof P11_enclosure as H11. pose proof P12_enclosure as H12.
  pose proof P13_enclosure as H13. pose proof req_enclosure as Hr.
  unfold reproduces. rewrite HP, Hreq, HLs, HLm.
  do 3 eexists. split; [reflexivity |]. split; [reflexivity |]. split; [reflexivity |].
  repeat split; apply to_3_places_intro; lra.
Qed.

(** C2, as the claim has it, fails: [P_12] is 1.0663..., not 1.067 to three
    places (and likewise [P_13] and the average mutual inductance). *)
Lemma worked_example_counterexample :
  ~ reproduces 0.1206 5.517 1.067 0.526 1.103 0.178.
Proof.
  destruct workedExample_values as (Hreq & HP & HLs & HLm).
  pose proof P12_enclosure as H12.
  unfold reproduces. rewrite HP.
  intros (P11 & P12 & P13 & E11 & E12 & E13 & _ & _ & H & _).
  cbn in E12. injection E12 as <-.
  apply to_3_places_elim in H. lra.
Qed.

(** The numbers of the specification are within one unit of the third
    decimal of the values computed, which is as close as they get. *)
Lemma worked_example_within_0_001 :
  exists P11 P12 P13 : R,
    maxwellMatrix workedExample
      = [ [P11; P12; P13]; [P12; P11; P12]; [P13; P12; P11] ] /\
    Rabs (P12 - 1.067) < 0.001 /\ 0.0006 < Rabs (P12 - 1.067) /\
    Rabs (P13 - 0.526) < 0.001 /\ 0.0006 < Rabs (P13 - 0.526) /\
    Rabs (mutualInductanceAvg workedExample - 0.178) < 0.001 /\
    0.0007 < Rabs (mutualInductanceAvg workedExample - 0.178).
Proof.
  destruct workedExample_values as (Hreq & HP & HLs & HLm).
  pose proof P12_enclosure as H12. pose proof P13_enclosure as H13.
  rewrite HP, HLm. do 3 eexists. split; [reflexivity |].
  repeat split; rewrite Rabs_left by lra; lra.
Qed.

(** The formula shown in the component's formula reference,
    [r_eq = sqrt (r * B)], is not the one evaluated: for the default bundle
    of two it would give less than 0.09 m. *)
Lemma display_formula_differs :
  req workedExample <> sqrt ((3.18 / 100 / 2) * (45.72 / 100)).
Proof.
  destruct workedExample_values as (Hreq & _). rewrite Hreq.
  pose proof req_enclosure as Hr.
  destruct (sqrt_between ((3.18 / 100 / 2) * (45.72 / 100)) 0.08 0.09) as [_ Hhi];
    lra.
Qed.

End WorkedExample.

(** The same parameters in binary64, on the reference engine: the doubles
    computed lie in the enclosures above. *)
Example worked_example_binary64 :
  let r := calculateInductanceMatrix (J := B64) defaultParams in
  req r = 0.12057760986186448%float /\
  maxwellMatrix r
  = [ [5.5166590497908992; 1.0663736362839622; 0.52532411473049168];
      [1.0663736362839622; 5.5166590497908992; 1.0663736362839622];
      [0.52532411473049168; 1.0663736362839622; 5.5166590497908992] ]%float /\
  selfInductance r = 1.1033318099581799%float /\
  mutualInductanceAvg r = 0.17720475915322775%float.
Proof. vm_compute. repeat split; reflexivity. Qed.

(** In binary64 the two mutual coefficients of the worked example do not
    depend on [Math.pow]: on every engine they are [Math.log] of the doubles
    2.9048264197582649 and 1.6910068397943887, and the logarithms of these
    two doubles lie in the enclosures found in exact arithmetic. *)
Lemma worked_example_binary64_arguments :
  (PrimFloat.sqrt (4 * 15 * 15 + 11 * 11) / 11 = 2.9048264197582649)%float /\
  (PrimFloat.sqrt (4 * 15 * 15 + 4 * 11 * 11) / (2 * 11) = 1.6910068397943887)%float /\
  (1.0663 < ln (float_value 2.9048264197582649) < 1.0664)%R /\
  (0.5253 < ln (float_value 1.6910068397943887) < 0.5254)%R /\
  forall E : Engine,
    let P := maxwellMatrix (calculateInductanceMatrix (J := Binary64 E) defaultParams) in
    entry P 0 1 = Some (engine_log E 2.9048264197582649) /\
    entry P 0 2 = Some (engine_log E 1.6910068397943887).
Proof.
  split; [vm_compute; reflexivity |]. split; [vm_compute; reflexivity |].
  split; [| split].
  - unfold float_value.
    change (Prim2SF 2.9048264197582649)
      with (S754_finite false 6541087590799647 (-51)).
    cbv beta iota zeta.
    replace (2 ^ 51)%Z with 2251799813685248%Z by reflexivity.
    split.
    + replace 1.0663%R with (IZR 10663 / IZR 10000)%R by lra.
      apply (ln_above _ 290482 100000 10663 10000 30);
        [lra | reflexivity | reflexivity | reflexivity | vm_compute; reflexivity].
    + replace 1.0664%R with (IZR 10664 / IZR 10000)%R by lra.
      apply (ln_below _ 290483 100000 10664 10000 30);
        [lra | lra | reflexivity | discriminate | reflexivity | vm_compute; reflexivity].
  - unfold float_value.
    change (Prim2SF 1.6910068397943887)
      with (S754_finite false 7615617773578969 (-52)).
    cbv beta iota zeta.
    replace (2 ^ 52)%Z with 4503599627370496%Z by reflexivity.
    split.
    + replace 0.5253%R with (IZR 5253 / IZR 10000)%R by lra.
      apply (ln_above _ 169100 100000 5253 10000 30);
        [lra | reflexivity | reflexivity | reflexivity | vm_compute; reflexivity].
    + replace 0.5254%R with (IZR 5254 / IZR 10000)%R by lra.
      apply (ln_below _ 169101 100000 5254 10000 30);
        [lra | lra | reflexivity | discriminate | reflexivity | vm_compute; reflexivity].
  - intros E P. split; vm_compute; reflexivity.
Qed.

(* ================================================================== *)
(** * Exact arithmetic: radius and height *)

Section ExactProperties.

Local Open Scope R_scope.

Lemma Exact_one_is_single (p : LineParameters Exact) :
  numberOfBundles p = 1 ->
  (strict_eq (numberOfBundles p) lit_1
   || strict_eq (div (bundleSpacing p) lit_100) lit_0) = true.
Proof. apply (@single_conductor_of_one Exact Exact_laws). Qed.

(** Over the real numbers, with [numberOfBundles = 1] the equivalent radius
    is 0.7788 times the plain conductor radius [conductorDiameter / 200],
    hence smaller than the plain radius for every positive diameter.  (What
    is left of this in binary64 is [single_radius_is_scaled] below.) *)
Lemma single_radius_is_scaled_exact (p : LineParameters Exact) :
  numberOfBundles p = 1 ->
  0 < conductorDiameter p ->
  req (calculateInductanceMatrix p) = 0.7788 * (conductorDiameter p / 200) /\
  req (calculateInductanceMatrix p) < conductorDiameter p / 200.
Proof.
  intros HN Hd.
  assert (Hreq : req (calculateInductanceMatrix p)
                 = 0.7788 * (conductorDiameter p / 200)).
  { unfold_calc. rewrite (Exact_one_is_single p HN). cbn. lra. }
  split; [exact Hreq |]. rewrite Hreq. lra.
Qed.

(** The equivalent radius of valid parameters is positive. *)
Lemma req_positive (p : LineParameters Exact) :
  valid p -> 0 < req (calculateInductanceMatrix p).
Proof.
  intros (_ & _ & Hd & _ & _). unfold_calc.
  destruct (_ || _); cbn.
  - lra.
  - unfold Rpower. apply exp_pos.
Qed.

(** The height is read in step 2 only. *)
Lemma req_with_height (p : LineParameters Exact) (h : R) :
  req (calculateInductanceMatrix (with_height p h))
  = req (calculateInductanceMatrix p).
Proof.
  unfold_calc. cbn [with_height numberOfBundles bundleSpacing conductorDiameter].
  destruct (_ || _); reflexivity.
Qed.

Lemma selfInductance_formula (p : LineParameters Exact) :
  selfInductance (calculateInductanceMatrix p)
  = ln (2 * height p / req (calculateInductanceMatrix p)) * 0.2.
Proof. unfold_calc. destruct (_ || _); reflexivity. Qed.

(** Over the real numbers, for valid parameters, raising the height and
    leaving the other four fields as they are strictly raises
    [selfInductance].  (What is left of this in binary64 is
    [selfInductance_nondecreasing] below.) *)
Lemma selfInductance_increasing_exact (p : LineParameters Exact) (H2 : R) :
  valid p ->
  height p < H2 ->
  selfInductance (calculateInductanceMatrix p)
  < selfInductance (calculateInductanceMatrix (with_height p H2)).
Proof.
  intros Hv HH.
  pose proof (req_positive p Hv) as Hr.
  destruct Hv as (Hh & _).
  rewrite !selfInductance_formula, req_with_height.
  set (r := req (calculateInductanceMatrix p)) in *.
  cbn [height with_height].
  assert (Hln : ln (2 * height p / r) < ln (2 * H2 / r)).
  { apply ln_increasing.
    - apply Rdiv_lt_0_compat; lra.
    - apply Rmult_lt_compat_r; [apply Rinv_0_lt_compat; exact Hr | lra]. }
  lra.
Qed.

End ExactProperties.

(* ================================================================== *)
(** * Binary64 arithmetic *)

Section Binary64Facts.

(** Rounding keeps the sign it is given. *)
Lemma binary_round_aux_sign (s : bool) (m e : Z) (l : location) :
  match binary_round_aux prec emax s m e l with
  | S754_zero s' | S754_infinity s' | S754_finite s' _ _ => s' = s
  | S754_nan => True
  end.
Proof.
  unfold binary_round_aux.
  destruct (shr_fexp prec emax m e l) as [mrs e'].
  destruct (shr_fexp prec emax _ e' loc_Exact) as [mrs' e''].
  destruct (shr_m mrs') as [| m' | m']; [reflexivity | | exact I].
  destruct (Z.leb e'' (emax - prec)); reflexivity.
Qed.

(** A square root is never negative. *)
Lemma SF64sqrt_sign (x : spec_float) :
  match SF64sqrt x with
  | S754_infinity true | S754_finite true _ _ => False
  | _ => True
  end.
Proof.
  unfold SF64sqrt, SFsqrt.
  destruct x as [s | s | | s m e]; try exact I.
  - destruct s; exact I.
  - destruct s; [exact I |].
    destruct (SFsqrt_core_binary prec emax (Z.pos m) e) as [[mz ez] lz].
    pose proof (binary_round_aux_sign false mz ez lz) as Hs.
    destruct (binary_round_aux prec emax false mz ez lz) as [s | s | | s m' e'];
      try exact I; subst s; exact I.
Qed.

(** [Math.sqrt(z) / 0] is [Infinity], or [NaN] when the root is zero or NaN. *)
Lemma sqrt_over_zero (z : float) :
  (PrimFloat.sqrt z / 0)%float = infinity \/ (PrimFloat.sqrt z / 0)%float = nan.
Proof.
  assert (H : Prim2SF (PrimFloat.sqrt z / 0) = S754_infinity false \/
              Prim2SF (PrimFloat.sqrt z / 0) = S754_nan).
  { rewrite div_spec, sqrt_spec.
    change (Prim2SF 0) with (S754_zero false).
    pose proof (SF64sqrt_sign (Prim2SF z)) as Hs.
    unfold SF64div, SFdiv.
    destruct (SF64sqrt (Prim2SF z)) as [s | s | | s m e];
      try (right; reflexivity); destruct s; try contradiction; left; reflexivity. }
  destruct H as [H | H]; [left | right]; apply Prim2SF_inj; rewrite H; reflexivity.
Qed.

(** No float is below itself. *)
Lemma float_ltb_irrefl (x : float) : PrimFloat.ltb x x = false.
Proof.
  rewrite ltb_spec. unfold SFltb.
  destruct (Prim2SF x) as [s | s | | s m e]; cbv beta iota delta [SFcompare];
    try reflexivity.
  - destruct s; reflexivity.
  - destruct s; rewrite Z.compare_refl, Pos.compare_cont_refl; reflexivity.
Qed.

Lemma reference_ecma_log : ecma_log Reference.engine.
Proof.
  unfold ecma_log; cbn [engine_log Reference.engine].
  repeat split; try reflexivity.
  intros x Hx. unfold Reference.log. rewrite Hx.
  destruct (is_nan x); reflexivity.
Qed.

End Binary64Facts.

(* ================================================================== *)
(** * Binary64 arithmetic: products and quotients keep the order *)

Section Binary64Order.

Local Open Scope Z_scope.


Lemma fexp_eq (e : Z) : fexp prec emax e = Z.max (e - 53) (-1074).
Proof. reflexivity. Qed.

Lemma digits2_log2 (p : positive) :
  Zpos (digits2_pos p) = Z.log2 (Zpos p) + 1.
Proof.
  induction p as [p IH | p IH |]; cbn [digits2_pos].
  - rewrite Pos2Z.inj_succ, IH, Pos2Z.inj_xI, Z.log2_succ_double by lia. lia.
  - rewrite Pos2Z.inj_succ, IH, Pos2Z.inj_xO, Z.log2_double by lia. lia.
  - reflexivity.
Qed.

Lemma digits_bounds (M : Z) :
  0 < M -> 2 ^ (Zdigits2 M - 1) <= M < 2 ^ Zdigits2 M.
Proof.
  intros HM. destruct M as [| p | p]; try lia.
  cbn [Zdigits2]. rewrite digits2_log2.
  pose proof (Z.log2_spec (Zpos p) ltac:(lia)) as H.
  replace (Z.log2 (Zpos p) + 1 - 1) with (Z.log2 (Zpos p)) by lia.
  replace (Z.log2 (Zpos p) + 1) with (Z.succ (Z.log2 (Zpos p))) by lia.
  exact H.
Qed.

Lemma digits_pos (M : Z) : 0 < M -> 1 <= Zdigits2 M.
Proof.
  intros HM. destruct M as [| p | p]; try lia. cbn [Zdigits2]. lia.
Qed.

Lemma digits_nonneg (M : Z) : 0 <= Zdigits2 M.
Proof. destruct M; cbn [Zdigits2]; lia. Qed.

Lemma pow2_pos (n : Z) : 0 <= n -> 0 < 2 ^ n.
Proof. intros. apply Z.pow_pos_nonneg; lia. Qed.

Lemma pow2_lt_inv (a b : Z) : 0 <= a -> 2 ^ a < 2 ^ b -> a < b.
Proof.
  intros Ha H. destruct (Z_lt_le_dec a b) as [L | L]; [exact L |].
  destruct (Z_lt_le_dec b 0) as [N | N].
  - rewrite (Z.pow_neg_r 2 b N) in H. pose proof (pow2_pos a Ha). lia.
  - pose proof (Z.pow_le_mono_r 2 b a ltac:(lia) L). lia.
Qed.

Lemma pow2_le (a b : Z) : 0 <= a <= b -> 2 ^ a <= 2 ^ b.
Proof. intros. apply Z.pow_le_mono_r; lia. Qed.

Lemma pow2_lt (a b : Z) : 0 <= a < b -> 2 ^ a < 2 ^ b.
Proof. intros. apply Z.pow_lt_mono_r; lia. Qed.

Lemma pow2_add (a b : Z) : 0 <= a -> 0 <= b -> 2 ^ (a + b) = 2 ^ a * 2 ^ b.
Proof. intros. apply Z.pow_add_r; lia. Qed.

(** ** the sticky code *)

Lemma sticky_scale (k a b : Z) :
  0 < k -> 0 < b -> sticky (k * a) (k * b) = sticky a b.
Proof.
  intros Hk Hb. unfold sticky.
  rewrite Z.div_mul_cancel_l by lia.
  rewrite Z.mul_mod_distr_l by lia.
  destruct (Z.eqb_spec (a mod b) 0) as [-> | NZ].
  - rewrite Z.mul_0_r. reflexivity.
  - destruct (Z.eqb_spec (k * (a mod b)) 0) as [Z0 | _]; [nia | reflexivity].
Qed.

Lemma sticky_le (a b a' b' : Z) :
  0 <= a -> 0 < b -> 0 <= a' -> 0 < b' ->
  a * b' <= a' * b -> sticky a b <= sticky a' b'.
Proof.
  intros Ha Hb Ha' Hb' H. unfold sticky.
  pose proof (Z.div_mod a b ltac:(lia)) as E.
  pose proof (Z.mod_pos_bound a b Hb) as B.
  pose proof (Z.div_mod a' b' ltac:(lia)) as E'.
  pose proof (Z.mod_pos_bound a' b' Hb') as B'.
  assert (Hq : a / b <= a' / b').
  { destruct (Z_lt_le_dec (a' / b') (a / b)) as [L | L]; [| exact L].
    exfalso.
    set (q := a / b) in *. set (q' := a' / b') in *.
    assert (H1 : b * (q' + 1) <= a) by nia.
    assert (H2 : a' + 1 <= b' * (q' + 1)) by nia.
    assert (H3 : b * (q' + 1) * b' <= a * b') by (apply Z.mul_le_mono_nonneg_r; lia).
    assert (H4 : (a' + 1) * b <= b' * (q' + 1) * b) by (apply Z.mul_le_mono_nonneg_r; lia).
    lia. }
  destruct (Z.eqb_spec (a mod b) 0) as [Z0 | NZ];
    destruct (Z.eqb_spec (a' mod b') 0) as [Z0' | NZ']; try lia.
  destruct (Z.eq_dec (a / b) (a' / b')) as [Eq | Ne]; [| lia].
  exfalso. rewrite Z0' in E'. rewrite <- Eq in E'.
  set (q := a / b) in *.
  assert (H1 : a' * b = b * q * b') by (rewrite E'; ring).
  assert (H2 : b * q * b' < a * b').
  { apply Z.mul_lt_mono_pos_r; lia. }
  lia.
Qed.

Lemma code_split (m k : Z) :
  0 <= k < 4 -> (4 * m + k) / 4 = m /\ (4 * m + k) mod 4 = k.
Proof.
  intros Hk. replace (4 * m + k) with (k + m * 4) by lia.
  rewrite Z.div_add, Z.mod_add by lia.
  rewrite Z.div_small, Z.mod_small by lia. lia.
Qed.

Lemma sticky_step (a b : Z) :
  0 <= a -> 0 < b ->
  let c := sticky (2 * a) b in
  2 * (c / 4) + (if c mod 4 =? 0 then 0 else 1) = sticky a b.
Proof.
  intros Ha Hb c. subst c. unfold sticky.
  pose proof (Z.div_mod a b ltac:(lia)) as E.
  pose proof (Z.mod_pos_bound a b Hb) as B.
  pose proof (Z.div_mod (2 * a) b ltac:(lia)) as E2.
  pose proof (Z.mod_pos_bound (2 * a) b Hb) as B2.
  set (g := a / b) in *. set (r := a mod b) in *.
  set (f := (2 * a) / b) in *. set (r2 := (2 * a) mod b) in *.
  assert (Hf : (f = 2 * g /\ r2 = 2 * r) \/ (f = 2 * g + 1 /\ r2 = 2 * r - b)).
  { destruct (Z_lt_le_dec (2 * r) b) as [L | L]; [left | right].
    - assert (Hq : f = 2 * g)
        by (symmetry; apply Z.div_unique with (2 * r); lia).
      split; [exact Hq | rewrite Hq in E2; lia].
    - assert (Hq : f = 2 * g + 1)
        by (symmetry; apply Z.div_unique with (2 * r - b); lia).
      split; [exact Hq | rewrite Hq in E2; lia]. }
  clearbody g r f r2.
  destruct Hf as [[-> ->] | [-> ->]].
  - destruct (Z.eqb_spec (2 * r) 0) as [Z2 | NZ2];
      destruct (Z.eqb_spec r 0) as [Zr | NZr]; try lia.
    + replace (2 * (2 * g) + 0) with (4 * g + 0) by lia.
      destruct (code_split g 0 ltac:(lia)) as [-> ->]. reflexivity.
    + replace (2 * (2 * g) + 1) with (4 * g + 1) by lia.
      destruct (code_split g 1 ltac:(lia)) as [-> ->]. reflexivity.
  - destruct (Z.eqb_spec (2 * r - b) 0) as [Z2 | NZ2];
      destruct (Z.eqb_spec r 0) as [Zr | NZr]; try lia.
    + replace (2 * (2 * g + 1) + 0) with (4 * g + 2) by lia.
      destruct (code_split g 2 ltac:(lia)) as [-> ->]. reflexivity.
    + replace (2 * (2 * g + 1) + 1) with (4 * g + 3) by lia.
      destruct (code_split g 3 ltac:(lia)) as [-> ->]. reflexivity.
Qed.

(** ** shifting a record *)

Lemma shr_1_code (mrs : shr_record) :
  0 <= shr_m mrs ->
  0 <= shr_m (shr_1 mrs) /\
  code (shr_1 mrs)
  = 2 * (code mrs / 4) + (if code mrs mod 4 =? 0 then 0 else 1).
Proof.
  destruct mrs as [m r s]. cbn [shr_m]. intros Hm.
  assert (D : forall k, 0 <= k < 4 -> (4 * m + k) / 4 = m /\ (4 * m + k) mod 4 = k).
  { intros k Hk. replace (4 * m + k) with (k + m * 4) by lia.
    rewrite Z.div_add, Z.mod_add by lia.
    rewrite Z.div_small, Z.mod_small by lia. lia. }
  unfold code at 2 3. cbn [shr_m shr_r shr_s].
  replace (4 * m + (if r then 2 else 0) + (if s then 1 else 0))
    with (4 * m + ((if r then 2 else 0) + (if s then 1 else 0))) by lia.
  destruct (D ((if r then 2 else 0) + (if s then 1 else 0))
              ltac:(destruct r, s; lia)) as [-> ->].
  destruct m as [| p | p]; [| | lia].
  - destruct r, s; cbn; split; lia.
  - destruct p as [p | p |]; destruct r, s; unfold code; cbn [shr_1 shr_m shr_r shr_s orb];
      split; try lia; cbn [Z.eqb Z.add]; lia.
Qed.

Lemma shr_1_represents (mrs : shr_record) (a b : Z) :
  0 <= a -> 0 < b ->
  represents mrs a b -> represents (shr_1 mrs) a (2 * b).
Proof.
  intros Ha Hb [Hm Hc].
  destruct (shr_1_code mrs Hm) as [Hm' Hc'].
  split; [exact Hm' |].
  rewrite Hc', Hc, (sticky_step a b Ha Hb).
  symmetry. apply sticky_scale; lia.
Qed.

Lemma iter_shr_1_represents (p : positive) : forall (mrs : shr_record) (a b : Z),
  0 <= a -> 0 < b ->
  represents mrs a b ->
  represents (iter_pos shr_1 p mrs) a (b * 2 ^ Zpos p).
Proof.
  induction p as [p IH | p IH |]; intros mrs a b Ha Hb H; cbn [iter_pos].
  - apply shr_1_represents in H; [| lia | lia].
    apply IH in H; [| lia | pose proof (pow2_pos (Zpos p)); lia].
    apply IH in H; [| lia | pose proof (pow2_pos (Zpos p)); nia].
    replace (b * 2 ^ Zpos p~1) with (2 * b * 2 ^ Zpos p * 2 ^ Zpos p); [exact H |].
    replace (Zpos p~1) with (Zpos p + Zpos p + 1) by lia.
    rewrite !pow2_add by lia. change (2 ^ 1) with 2. ring.
  - apply IH in H; [| lia | lia].
    apply IH in H; [| lia | pose proof (pow2_pos (Zpos p)); nia].
    replace (b * 2 ^ Zpos p~0) with (b * 2 ^ Zpos p * 2 ^ Zpos p); [exact H |].
    replace (Zpos p~0) with (Zpos p + Zpos p) by lia.
    rewrite !pow2_add by lia. ring.
  - apply shr_1_represents in H; [| lia | lia].
    replace (b * 2 ^ 1) with (2 * b) by lia. exact H.
Qed.

Lemma shr_represents (mrs : shr_record) (e n a b : Z) :
  0 <= a -> 0 < b -> 0 <= n ->
  represents mrs a b ->
  represents (fst (shr mrs e n)) a (b * 2 ^ n) /\ snd (shr mrs e n) = e + n.
Proof.
  intros Ha Hb Hn H. destruct n as [| p | p]; [| | lia]; cbn [shr fst snd].
  - rewrite Z.mul_1_r. split; [exact H | lia].
  - split; [apply iter_shr_1_represents; assumption | reflexivity].
Qed.

(** ** rounding to nearest, ties to even *)

Lemma round_nearest_even_code (mrs : shr_record) :
  round_nearest_even (shr_m mrs) (loc_of_shr_record mrs) = nearest_even (code mrs).
Proof.
  destruct mrs as [m r s]. unfold nearest_even, code. cbn [shr_m shr_r shr_s].
  replace (4 * m + (if r then 2 else 0) + (if s then 1 else 0))
    with (4 * m + ((if r then 2 else 0) + (if s then 1 else 0))) by lia.
  destruct (code_split m ((if r then 2 else 0) + (if s then 1 else 0))
              ltac:(destruct r, s; lia)) as [-> ->].
  destruct r, s; reflexivity.
Qed.

Lemma nearest_even_le (c c' : Z) :
  c <= c' -> nearest_even c <= nearest_even c'.
Proof.
  intros H. unfold nearest_even.
  pose proof (Z.div_mod c 4 ltac:(lia)) as E.
  pose proof (Z.mod_pos_bound c 4 ltac:(lia)) as B.
  pose proof (Z.div_mod c' 4 ltac:(lia)) as E'.
  pose proof (Z.mod_pos_bound c' 4 ltac:(lia)) as B'.
  set (m := c / 4) in *. set (k := c mod 4) in *.
  set (m' := c' / 4) in *. set (k' := c' mod 4) in *.
  assert (Hm : m < m' \/ (m = m' /\ k <= k')) by lia.
  destruct (Z.leb_spec k 1), (Z.leb_spec k' 1),
    (Z.eqb_spec k 2), (Z.eqb_spec k' 2),
    (Z.even m) eqn:Em, (Z.even m') eqn:Em'; try lia.
  all: destruct Hm as [Hm | [Hm Hk]]; try lia.
  all: rewrite Hm in Em; congruence.
Qed.

Lemma nearest_even_exact (m : Z) : nearest_even (4 * m) = m.
Proof.
  unfold nearest_even.
  destruct (code_split m 0 ltac:(lia)) as [H1 H2].
  rewrite Z.add_0_r in H1, H2. rewrite H1, H2. reflexivity.
Qed.

Lemma nearest_even_bounds (a b : Z) :
  0 <= a -> 0 < b ->
  let q := nearest_even (sticky (2 * a) b) in
  a / b <= q <= a / b + 1 /\ 2 * b * q <= 2 * a + b /\ 2 * a <= 2 * b * q + b.
Proof.
  intros Ha Hb q. subst q. unfold nearest_even, sticky.
  pose proof (Z.div_mod a b ltac:(lia)) as E.
  pose proof (Z.mod_pos_bound a b Hb) as B.
  pose proof (Z.div_mod (2 * a) b ltac:(lia)) as E2.
  pose proof (Z.mod_pos_bound (2 * a) b Hb) as B2.
  set (g := a / b) in *. set (r := a mod b) in *.
  set (f := (2 * a) / b) in *. set (r2 := (2 * a) mod b) in *.
  assert (Hf : (f = 2 * g /\ r2 = 2 * r) \/ (f = 2 * g + 1 /\ r2 = 2 * r - b)).
  { destruct (Z_lt_le_dec (2 * r) b) as [L | L]; [left | right].
    - assert (Hq : f = 2 * g)
        by (symmetry; apply Z.div_unique with (2 * r); lia).
      split; [exact Hq | rewrite Hq in E2; lia].
    - assert (Hq : f = 2 * g + 1)
        by (symmetry; apply Z.div_unique with (2 * r - b); lia).
      split; [exact Hq | rewrite Hq in E2; lia]. }
  set (k := (if r2 =? 0 then 0 else 1)).
  assert (Hk : (r2 = 0 /\ k = 0) \/ (r2 <> 0 /\ k = 1)).
  { subst k. destruct (Z.eqb_spec r2 0); lia. }
  clearbody k.
  destruct Hf as [[Hf Hr] | [Hf Hr]]; rewrite Hf.
  - replace (2 * (2 * g) + k) with (4 * g + k) by lia.
    destruct (code_split g k ltac:(lia)) as [-> ->].
    destruct (Z.leb_spec k 1); [| lia]. nia.
  - replace (2 * (2 * g + 1) + k) with (4 * g + (2 + k)) by lia.
    destruct (code_split g (2 + k) ltac:(lia)) as [-> ->].
    destruct (Z.leb_spec (2 + k) 1); [lia |].
    destruct (Z.eqb_spec (2 + k) 2); [destruct (Z.even g) |]; nia.
Qed.

(** ** the closed form of [binary_round_aux] *)

Lemma shr_m_of_loc (M : Z) (L : location) : shr_m (shr_record_of_loc M L) = M.
Proof. destruct L as [| []]; reflexivity. Qed.

Lemma shr_nonpos (mrs : shr_record) (e n : Z) : n <= 0 -> shr mrs e n = (mrs, e).
Proof. intros H. destruct n; [reflexivity | lia | reflexivity]. Qed.

Lemma digits_le (q k : Z) : 0 <= q -> 0 <= k -> q < 2 ^ k -> Zdigits2 q <= k.
Proof.
  intros H0 Hk Hq. destruct (Z_lt_le_dec 0 q) as [P | N].
  - pose proof (digits_bounds q P) as [B _].
    pose proof (digits_pos q P).
    assert (Zdigits2 q - 1 < k) by (apply pow2_lt_inv; lia).
    lia.
  - replace q with 0 by lia. cbn [Zdigits2]. lia.
Qed.

Lemma digits_ge (q k : Z) : 0 <= k -> 2 ^ k <= q -> k + 1 <= Zdigits2 q.
Proof.
  intros Hk Hq. pose proof (pow2_pos k Hk).
  pose proof (digits_bounds q ltac:(lia)) as [_ B].
  assert (k < Zdigits2 q) by (apply pow2_lt_inv; lia).
  lia.
Qed.

Lemma round_closed (s : bool) (M E : Z) (L : location) (a b : Z) :
  0 <= a -> 0 < b -> M = a / b ->
  code (shr_record_of_loc M L) = sticky (2 * a) b ->
  let t := fexp prec emax (Zdigits2 M + E) in
  E <= t ->
  let q := nearest_even (sticky (2 * a) (b * 2 ^ (t - E))) in
  0 <= q <= 2 ^ 53 /\
  binary_round_aux prec emax s M E L = finish s q t.
Proof.
  intros Ha Hb HM Hc t Ht q.
  assert (HM0 : 0 <= M) by (subst M; apply Z.div_pos; lia).
  assert (Hrep : represents (shr_record_of_loc M L) a b).
  { split; [rewrite shr_m_of_loc; exact HM0 | exact Hc]. }
  pose proof (pow2_pos (t - E) ltac:(lia)) as Hpow.
  destruct (shr_represents _ E (t - E) a b Ha Hb ltac:(lia) Hrep) as [[Hm1 Hc1] He1].
  pose proof (nearest_even_bounds a (b * 2 ^ (t - E)) Ha ltac:(nia)) as [Hq _].
  fold q in Hq.
  assert (Hdiv : a / (b * 2 ^ (t - E)) = M / 2 ^ (t - E)).
  { subst M. rewrite Z.div_div by lia. reflexivity. }
  rewrite Hdiv in Hq.
  assert (Hlt : M / 2 ^ (t - E) < 2 ^ 53).
  { apply Z.div_lt_upper_bound; [lia |].
    rewrite <- pow2_add by lia.
    destruct (Z_lt_le_dec 0 M) as [P | N].
    - pose proof (digits_bounds M P) as [_ B].
      pose proof (digits_pos M P).
      apply Z.lt_le_trans with (1 := B). apply pow2_le.
      subst t. rewrite fexp_eq in *. lia.
    - apply Z.le_lt_trans with 0; [lia |]. apply pow2_pos.
      subst t. rewrite fexp_eq in *. lia. }
  assert (Hge : 0 <= M / 2 ^ (t - E)) by (apply Z.div_pos; lia).
  assert (Ht' : -1074 <= t) by (subst t; rewrite fexp_eq; lia).
  split; [lia |].
  unfold binary_round_aux, shr_fexp. fold t.
  destruct (shr (shr_record_of_loc M L) E (t - E)) as [mrs' e'] eqn:Es.
  cbn [fst snd] in Hm1, Hc1, He1.
  rewrite round_nearest_even_code, Hc1. fold q.
  replace e' with t by lia.
  unfold finish.
  destruct (Z.eqb_spec q 0) as [Q0 | Q0].
  - rewrite Q0. cbn [Zdigits2 Z.add].
    rewrite shr_nonpos by (rewrite fexp_eq; lia).
    reflexivity.
  - destruct (Z.eqb_spec q (2 ^ 53)) as [Q53 | Q53].
    + rewrite Q53.
      replace (fexp prec emax (Zdigits2 (2 ^ 53) + t) - t) with 1
        by (change (Zdigits2 (2 ^ 53)) with 54; rewrite fexp_eq; lia).
      reflexivity.
    + assert (Hd : Zdigits2 q <= 53) by (apply digits_le; lia).
      rewrite shr_nonpos by (rewrite fexp_eq; lia).
      cbn [shr_record_of_loc shr_m].
      destruct q as [| p | p]; [lia | | lia].
      unfold check. change (emax - prec) with 971.
      cbn [Z.to_pos]. reflexivity.
Qed.

(** ** the order of the results *)

Lemma check_le (m1 e1 m2 e2 : Z) :
  0 < m1 -> 0 < m2 ->
  e1 < e2 \/ (e1 = e2 /\ m1 <= m2) ->
  SFleb (check false m1 e1) (check false m2 e2) = true.
Proof.
  intros H1 H2 H. unfold check.
  destruct (Z.leb_spec e1 971), (Z.leb_spec e2 971); try reflexivity; [| lia].
  unfold SFleb, SFcompare.
  destruct (Z.compare_spec e1 e2) as [Ee | Ee | Ee]; [| reflexivity | lia].
  rewrite Pos.compare_cont_spec. cbn [Pos.switch_Eq].
  destruct (Pos.compare_spec (Z.to_pos m1) (Z.to_pos m2)) as [Em | Em | Em];
    try reflexivity.
  exfalso. apply Pos2Z.pos_lt_pos in Em. rewrite !Z2Pos.id in Em by lia. lia.
Qed.

Lemma zero_le_check (m e : Z) :
  SFleb (S754_zero false) (check false m e) = true.
Proof. unfold check. destruct (e <=? 971); reflexivity. Qed.

Lemma finish_le (q1 t1 q2 t2 : Z) :
  0 <= q1 <= 2 ^ 53 -> 0 <= q2 <= 2 ^ 53 ->
  (t1 = t2 /\ q1 <= q2) \/ (t1 < t2 /\ 2 ^ 52 <= q2) ->
  SFleb (finish false q1 t1) (finish false q2 t2) = true.
Proof.
  change (2 ^ 53) with 9007199254740992. change (2 ^ 52) with 4503599627370496.
  intros H1 H2 H. unfold finish.
  change (2 ^ 53) with 9007199254740992. change (2 ^ 52) with 4503599627370496.
  destruct (Z.eqb_spec q1 0) as [Z1 | N1].
  - destruct (Z.eqb_spec q2 0) as [Z2 | N2]; [reflexivity |].
    destruct (Z.eqb_spec q2 9007199254740992); apply zero_le_check.
  - destruct (Z.eqb_spec q2 0) as [Z2 | N2]; [lia |].
    destruct (Z.eqb_spec q1 9007199254740992), (Z.eqb_spec q2 9007199254740992);
      apply check_le; lia.
Qed.

Lemma pow2_cross (X Y u1 u2 w1 w2 : Z) :
  0 <= u1 -> 0 <= u2 -> 0 <= w1 -> 0 <= w2 ->
  u1 + w1 = u2 + w2 ->
  X * 2 ^ u1 <= Y * 2 ^ u2 ->
  X * 2 ^ w2 <= Y * 2 ^ w1.
Proof.
  intros Hu1 Hu2 Hw1 Hw2 Hs H.
  pose proof (pow2_pos u1 Hu1). pose proof (pow2_pos u2 Hu2).
  pose proof (pow2_pos w1 Hw1). pose proof (pow2_pos w2 Hw2).
  apply Z.mul_le_mono_pos_r with (p := 2 ^ u1 * 2 ^ u2); [nia |].
  assert (E : 2 ^ u1 * 2 ^ w1 = 2 ^ u2 * 2 ^ w2).
  { rewrite <- !pow2_add by lia. f_equal. exact Hs. }
  replace (X * 2 ^ w2 * (2 ^ u1 * 2 ^ u2)) with (X * 2 ^ u1 * (2 ^ u2 * 2 ^ w2)) by ring.
  replace (Y * 2 ^ w1 * (2 ^ u1 * 2 ^ u2)) with (Y * 2 ^ u2 * (2 ^ u1 * 2 ^ w1)) by ring.
  rewrite E. apply Z.mul_le_mono_nonneg_r; [nia | exact H].
Qed.

Lemma rounded_bounds (a b E : Z) :
  0 <= a -> 0 < b ->
  let t := fexp prec emax (Zdigits2 (a / b) + E) in
  E <= t ->
  let q := nearest_even (sticky (2 * a) (b * 2 ^ (t - E))) in
  0 <= q <= 2 ^ 53 /\ (-1074 < t -> 2 ^ 52 <= q).
Proof.
  intros Ha Hb t Ht q.
  set (M := a / b) in *.
  assert (HM0 : 0 <= M) by (apply Z.div_pos; lia).
  pose proof (pow2_pos (t - E) ltac:(lia)) as Hpow.
  pose proof (nearest_even_bounds a (b * 2 ^ (t - E)) Ha ltac:(nia)) as [Hq _].
  fold q in Hq.
  assert (Hdiv : a / (b * 2 ^ (t - E)) = M / 2 ^ (t - E)).
  { unfold M. rewrite Z.div_div by lia. reflexivity. }
  rewrite Hdiv in Hq. clear Hdiv. clearbody M.
  assert (Hge : 0 <= M / 2 ^ (t - E)) by (apply Z.div_pos; lia).
  split.
  - assert (Hlt : M / 2 ^ (t - E) < 2 ^ 53); [| lia].
    apply Z.div_lt_upper_bound; [lia |].
    rewrite <- pow2_add by lia.
    destruct (Z_lt_le_dec 0 M) as [P | N].
    + pose proof (digits_bounds M P) as [_ B].
      pose proof (digits_pos M P).
      apply Z.lt_le_trans with (1 := B). apply pow2_le.
      subst t. rewrite fexp_eq in *. lia.
    + apply Z.le_lt_trans with 0; [lia |]. apply pow2_pos.
      subst t. rewrite fexp_eq in *. lia.
  - intros Hn.
    assert (P : 0 < M).
    { destruct (Z_lt_le_dec 0 M) as [P | N]; [exact P | exfalso].
      assert (M0 : M = 0) by lia. subst t. rewrite M0, fexp_eq in *.
      cbn [Zdigits2] in *. lia. }
    pose proof (digits_bounds M P) as [B _].
    pose proof (digits_pos M P).
    assert (Hd : t - E = Zdigits2 M - 53) by (subst t; rewrite fexp_eq in *; lia).
    assert (2 ^ 52 <= M / 2 ^ (t - E)); [| lia].
    apply Z.div_le_lower_bound; [lia |].
    rewrite <- pow2_add by lia.
    replace (t - E + 52) with (Zdigits2 M - 1) by lia. exact B.
Qed.

Lemma magnitude_le (a1 b1 E1 a2 b2 E2 E0 : Z) :
  0 <= a1 -> 0 < b1 -> 0 <= a2 -> 0 < b2 ->
  E0 <= E1 -> E0 <= E2 ->
  a1 * b2 * 2 ^ (E1 - E0) <= a2 * b1 * 2 ^ (E2 - E0) ->
  0 < a1 / b1 ->
  Zdigits2 (a1 / b1) + E1 <= Zdigits2 (a2 / b2) + E2.
Proof.
  intros Ha1 Hb1 Ha2 Hb2 H01 H02 H P.
  pose proof (Z.div_mod a1 b1 ltac:(lia)) as D1.
  pose proof (Z.mod_pos_bound a1 b1 Hb1) as R1.
  pose proof (Z.div_mod a2 b2 ltac:(lia)) as D2.
  pose proof (Z.mod_pos_bound a2 b2 Hb2) as R2.
  set (M1 := a1 / b1) in *. set (M2 := a2 / b2) in *.
  assert (HM2 : 0 <= M2) by (apply Z.div_pos; lia).
  pose proof (digits_bounds M1 P) as [B1 _].
  pose proof (digits_pos M1 P) as P1.
  pose proof (digits_nonneg M2) as N2.
  assert (B2 : M2 + 1 <= 2 ^ Zdigits2 M2).
  { destruct (Z_lt_le_dec 0 M2) as [Q | Q].
    - pose proof (digits_bounds M2 Q). lia.
    - replace M2 with 0 by lia. cbn. lia. }
  set (d1 := Zdigits2 M1) in *. set (d2 := Zdigits2 M2) in *.
  assert (L : d1 - 1 + (E1 - E0) < d2 + (E2 - E0)); [| lia].
  apply pow2_lt_inv; [lia |].
  rewrite !pow2_add by lia.
  pose proof (pow2_pos (E1 - E0) ltac:(lia)) as Q1.
  pose proof (pow2_pos (E2 - E0) ltac:(lia)) as Q2.
  pose proof (pow2_pos (d1 - 1) ltac:(lia)) as Q3.
  pose proof (pow2_pos d2 ltac:(lia)) as Q4.
  set (P1' := 2 ^ (E1 - E0)) in *. set (P2' := 2 ^ (E2 - E0)) in *.
  set (D1' := 2 ^ (d1 - 1)) in *. set (D2' := 2 ^ d2) in *.
  clearbody P1' P2' D1' D2' M1 M2.
  destruct (Z_lt_le_dec (D1' * P1') (D2' * P2')) as [Y | N]; [exact Y | exfalso].
  assert (S1 : b1 * D1' <= a1) by nia.
  assert (S2 : a2 + 1 <= b2 * D2') by nia.
  assert (S3 : b1 * D1' * (b2 * P1') <= a1 * (b2 * P1'))
    by (apply Z.mul_le_mono_nonneg_r; nia).
  assert (S4 : (a2 + 1) * (b1 * P2') <= b2 * D2' * (b1 * P2'))
    by (apply Z.mul_le_mono_nonneg_r; nia).
  assert (S5 : D2' * P2' * (b1 * b2) <= D1' * P1' * (b1 * b2))
    by (apply Z.mul_le_mono_nonneg_r; nia).
  assert (S6 : 0 < b1 * P2') by nia.
  nia.
Qed.

(** Rounding is monotone: of two non-negative rationals [a1/b1 * 2^E1 <=
    a2/b2 * 2^E2], the first rounds to no more than the second. *)
Lemma round_le (a1 b1 E1 a2 b2 E2 E0 : Z) :
  0 <= a1 -> 0 < b1 -> 0 <= a2 -> 0 < b2 ->
  E0 <= E1 -> E0 <= E2 ->
  a1 * b2 * 2 ^ (E1 - E0) <= a2 * b1 * 2 ^ (E2 - E0) ->
  let t1 := fexp prec emax (Zdigits2 (a1 / b1) + E1) in
  let t2 := fexp prec emax (Zdigits2 (a2 / b2) + E2) in
  E1 <= t1 -> E2 <= t2 ->
  SFleb (finish false (nearest_even (sticky (2 * a1) (b1 * 2 ^ (t1 - E1)))) t1)
        (finish false (nearest_even (sticky (2 * a2) (b2 * 2 ^ (t2 - E2)))) t2)
  = true.
Proof.
  intros Ha1 Hb1 Ha2 Hb2 H01 H02 H t1 t2 Ht1 Ht2.
  destruct (rounded_bounds a1 b1 E1 Ha1 Hb1 Ht1) as [Bq1 _].
  destruct (rounded_bounds a2 b2 E2 Ha2 Hb2 Ht2) as [Bq2 Nq2].
  fold t1 in Bq1. fold t2 in Bq2, Nq2.
  assert (Hm1 : 0 <= a1 / b1) by (apply Z.div_pos; lia).
  assert (Ht : t1 <= t2).
  { destruct (Z_lt_le_dec 0 (a1 / b1)) as [P | N].
    - pose proof (magnitude_le a1 b1 E1 a2 b2 E2 E0 Ha1 Hb1 Ha2 Hb2 H01 H02 H P).
      subst t1 t2. rewrite !fexp_eq. lia.
    - subst t1 t2. replace (a1 / b1) with 0 in * by lia.
      rewrite !fexp_eq in *. cbn [Zdigits2] in *. lia. }
  assert (Hmin : -1074 <= t1) by (subst t1; rewrite fexp_eq; lia).
  clearbody t1 t2.
  apply finish_le; [exact Bq1 | exact Bq2 |].
  destruct (Z.eq_dec t1 t2) as [Eq | Ne]; [left | right].
  - split; [exact Eq |].
    apply nearest_even_le, sticky_le; try lia.
    rewrite <- Eq.
    replace (2 * a1 * (b2 * 2 ^ (t1 - E2))) with (2 * (a1 * b2 * 2 ^ (t1 - E2))) by ring.
    replace (2 * a2 * (b1 * 2 ^ (t1 - E1))) with (2 * (a2 * b1 * 2 ^ (t1 - E1))) by ring.
    apply Z.mul_le_mono_nonneg_l; [lia |].
    apply pow2_cross with (u1 := E1 - E0) (u2 := E2 - E0); try lia.
  - split; [lia |]. apply Nq2. lia.
Qed.

(** ** valid floats *)

Lemma valid_finite (s : bool) (m : positive) (e : Z) :
  valid_binary (S754_finite s m e) = true ->
  fexp prec emax (Zdigits2 (Zpos m) + e) = e /\ e <= 971.
Proof.
  cbn [SpecFloat.valid_binary]. unfold bounded, canonical_mantissa.
  intros H. apply andb_true_iff in H. destruct H as [H1 H2].
  apply Z.eqb_eq in H1. apply Z.leb_le in H2.
  change (emax - prec) with 971 in H2. cbn [Zdigits2]. split; assumption.
Qed.

Lemma valid_digits (s : bool) (m : positive) (e : Z) :
  valid_binary (S754_finite s m e) = true ->
  -1074 <= e <= 971 /\ Zpos m < 2 ^ 53 /\ (-1074 < e -> 2 ^ 52 <= Zpos m).
Proof.
  intros H. destruct (valid_finite s m e H) as [Hc He].
  rewrite fexp_eq in Hc.
  pose proof (digits_bounds (Zpos m) ltac:(lia)) as [B1 B2].
  pose proof (digits_pos (Zpos m) ltac:(lia)) as P.
  set (d := Zdigits2 (Zpos m)) in *. clearbody d.
  split; [lia |]. split.
  - apply Z.lt_le_trans with (1 := B2). apply pow2_le. lia.
  - intros Hn. apply Z.le_trans with (2 := B1). apply pow2_le. lia.
Qed.

(** The order of two positive floats, as an order of their values. *)
Lemma value_le (m1 : positive) (e1 : Z) (m2 : positive) (e2 e0 : Z) :
  valid_binary (S754_finite false m1 e1) = true ->
  valid_binary (S754_finite false m2 e2) = true ->
  SFleb (S754_finite false m1 e1) (S754_finite false m2 e2) = true ->
  e0 <= e1 -> e0 <= e2 ->
  Zpos m1 * 2 ^ (e1 - e0) <= Zpos m2 * 2 ^ (e2 - e0).
Proof.
  intros V1 V2 H H1 H2.
  destruct (valid_digits _ _ _ V1) as (R1 & U1 & _).
  destruct (valid_digits _ _ _ V2) as (R2 & _ & L2).
  unfold SFleb, SFcompare in H.
  destruct (Z.compare_spec e1 e2) as [Ee | Ee | Ee]; [| | discriminate H].
  - subst e2. apply Z.mul_le_mono_nonneg_r; [pose proof (pow2_pos (e1 - e0)); lia |].
    rewrite Pos.compare_cont_spec in H. cbn [Pos.switch_Eq] in H.
    destruct (Pos.compare_spec m1 m2) as [Em | Em | Em]; try discriminate H; lia.
  - specialize (L2 ltac:(lia)).
    pose proof (pow2_pos (e1 - e0) ltac:(lia)) as P1.
    replace (e2 - e0) with ((e2 - e1 - 1) + 1 + (e1 - e0)) by lia.
    rewrite !pow2_add by lia. change (2 ^ 1) with 2.
    pose proof (pow2_pos (e2 - e1 - 1) ltac:(lia)) as P2.
    change (2 ^ 53) with 9007199254740992 in U1.
    change (2 ^ 52) with 4503599627370496 in L2.
    set (A := 2 ^ (e1 - e0)) in *. set (B := 2 ^ (e2 - e1 - 1)) in *.
    clearbody A B.
    assert (Zpos m1 * A <= 2 * Zpos m2 * A) by nia.
    assert (2 * Zpos m2 * A <= Zpos m2 * (B * 2 * A)) by nia.
    lia.
Qed.

(** ** multiplication *)

Lemma digits_mul (m1 m2 : positive) :
  Zdigits2 (Zpos m1) + Zdigits2 (Zpos m2) - 1 <= Zdigits2 (Zpos m1 * Zpos m2)
  <= Zdigits2 (Zpos m1) + Zdigits2 (Zpos m2).
Proof.
  pose proof (digits_bounds (Zpos m1) ltac:(lia)) as [L1 U1].
  pose proof (digits_bounds (Zpos m2) ltac:(lia)) as [L2 U2].
  pose proof (digits_pos (Zpos m1) ltac:(lia)) as P1.
  pose proof (digits_pos (Zpos m2) ltac:(lia)) as P2.
  set (d1 := Zdigits2 (Zpos m1)) in *. set (d2 := Zdigits2 (Zpos m2)) in *.
  clearbody d1 d2.
  pose proof (pow2_pos (d1 - 1) ltac:(lia)). pose proof (pow2_pos (d2 - 1) ltac:(lia)).
  split.
  - assert (d1 - 1 + (d2 - 1) + 1 <= Zdigits2 (Zpos m1 * Zpos m2)); [| lia].
    apply digits_ge; [lia |]. rewrite pow2_add by lia. nia.
  - apply digits_le; [lia | lia |]. rewrite pow2_add by lia. nia.
Qed.

Lemma sticky_exact (a : Z) : sticky (2 * a) 1 = 4 * a.
Proof.
  unfold sticky. rewrite Z.div_1_r, Z.mod_1_r. cbn [Z.eqb]. lia.
Qed.

Lemma mul_exponent (s1 s2 : bool) (m1 : positive) (e1 : Z) (m2 : positive) (e2 : Z) :
  valid_binary (S754_finite s1 m1 e1) = true ->
  valid_binary (S754_finite s2 m2 e2) = true ->
  e1 + e2 <= fexp prec emax (Zdigits2 (Zpos m1 * Zpos m2 / 1) + (e1 + e2)).
Proof.
  intros V1 V2.
  destruct (valid_finite _ _ _ V1) as [C1 _].
  destruct (valid_finite _ _ _ V2) as [C2 _].
  rewrite Z.div_1_r.
  pose proof (digits_mul m1 m2) as D.
  pose proof (digits_pos (Zpos m1) ltac:(lia)) as P1.
  pose proof (digits_pos (Zpos m2) ltac:(lia)) as P2.
  rewrite fexp_eq in *. lia.
Qed.

Lemma SFmul_finite (s1 s2 : bool) (m1 : positive) (e1 : Z) (m2 : positive) (e2 : Z) :
  valid_binary (S754_finite s1 m1 e1) = true ->
  valid_binary (S754_finite s2 m2 e2) = true ->
  let a := Zpos m1 * Zpos m2 in
  let t := fexp prec emax (Zdigits2 (a / 1) + (e1 + e2)) in
  SFmul prec emax (S754_finite s1 m1 e1) (S754_finite s2 m2 e2)
  = finish (xorb s1 s2) (nearest_even (sticky (2 * a) (1 * 2 ^ (t - (e1 + e2))))) t.
Proof.
  intros V1 V2 a t. cbn [SFmul].
  pose proof (mul_exponent s1 s2 m1 e1 m2 e2 V1 V2) as Ht.
  destruct (round_closed (xorb s1 s2) (Zpos (m1 * m2)) (e1 + e2) loc_Exact a 1
              ltac:(subst a; lia) ltac:(lia)) as [_ H].
  - subst a. rewrite Z.div_1_r. reflexivity.
  - unfold code. cbn [shr_record_of_loc shr_m shr_r shr_s].
    rewrite sticky_exact. subst a. rewrite Pos2Z.inj_mul. lia.
  - rewrite Pos2Z.inj_mul. subst a. rewrite Z.div_1_r in Ht. exact Ht.
  - rewrite H. subst t a. rewrite Z.div_1_r, Pos2Z.inj_mul. reflexivity.
Qed.

Lemma SFmul_le_finite (m1 : positive) (e1 : Z) (m2 : positive) (e2 : Z)
    (mc : positive) (ec : Z) :
  valid_binary (S754_finite false m1 e1) = true ->
  valid_binary (S754_finite false m2 e2) = true ->
  valid_binary (S754_finite false mc ec) = true ->
  SFleb (S754_finite false m1 e1) (S754_finite false m2 e2) = true ->
  SFleb (SFmul prec emax (S754_finite false m1 e1) (S754_finite false mc ec))
        (SFmul prec emax (S754_finite false m2 e2) (S754_finite false mc ec)) = true.
Proof.
  intros V1 V2 Vc H.
  rewrite !SFmul_finite by assumption. cbn [xorb].
  apply round_le with (E0 := Z.min e1 e2 + ec); try lia.
  - pose proof (value_le m1 e1 m2 e2 (Z.min e1 e2) V1 V2 H ltac:(lia) ltac:(lia)) as L.
    replace (e1 + ec - (Z.min e1 e2 + ec)) with (e1 - Z.min e1 e2) by lia.
    replace (e2 + ec - (Z.min e1 e2 + ec)) with (e2 - Z.min e1 e2) by lia.
    set (A := 2 ^ (e1 - Z.min e1 e2)) in *. set (B := 2 ^ (e2 - Z.min e1 e2)) in *.
    clearbody A B. nia.
  - apply (mul_exponent false false); assumption.
  - apply (mul_exponent false false); assumption.
Qed.

(** ** division *)

Lemma sticky_div (nb q r : Z) :
  0 < nb -> 0 <= r < nb ->
  sticky (2 * (nb * q + r)) nb
  = 4 * q + (if r =? 0 then 0 else if 2 * r <? nb then 1
             else if 2 * r =? nb then 2 else 3).
Proof.
  intros Hnb Hr. unfold sticky.
  destruct (Z_lt_le_dec (2 * r) nb) as [L | L].
  - assert (Hq : (2 * (nb * q + r)) / nb = 2 * q)
      by (symmetry; apply Z.div_unique with (2 * r); lia).
    assert (Hm : (2 * (nb * q + r)) mod nb = 2 * r)
      by (symmetry; apply Z.mod_unique with (2 * q); lia).
    rewrite Hq, Hm.
    destruct (Z.eqb_spec (2 * r) 0), (Z.eqb_spec r 0); try lia.
    destruct (Z.ltb_spec (2 * r) nb); lia.
  - assert (Hq : (2 * (nb * q + r)) / nb = 2 * q + 1)
      by (symmetry; apply Z.div_unique with (2 * r - nb); lia).
    assert (Hm : (2 * (nb * q + r)) mod nb = 2 * r - nb)
      by (symmetry; apply Z.mod_unique with (2 * q + 1); lia).
    rewrite Hq, Hm.
    destruct (Z.eqb_spec r 0); [lia |].
    destruct (Z.ltb_spec (2 * r) nb); [lia |].
    destruct (Z.eqb_spec (2 * r - nb) 0), (Z.eqb_spec (2 * r) nb); lia.
Qed.

Lemma new_location_code (nb q r : Z) :
  0 < nb -> 0 <= r < nb ->
  code (shr_record_of_loc q (new_location nb r)) = sticky (2 * (nb * q + r)) nb.
Proof.
  intros Hnb Hr. rewrite sticky_div by assumption.
  unfold new_location, new_location_even, new_location_odd.
  destruct (Z.even nb) eqn:Ev.
  - destruct (Z.eqb_spec r 0) as [Zr | NZr]; [unfold code; cbn; lia |].
    destruct (Z.compare_spec (2 * r) nb), (Z.ltb_spec (2 * r) nb),
      (Z.eqb_spec (2 * r) nb); try lia; unfold code; cbn [shr_record_of_loc shr_m shr_r shr_s]; lia.
  - assert (Hodd : nb <> 2 * r).
    { intros ->. rewrite Z.even_mul in Ev. discriminate Ev. }
    destruct (Z.eqb_spec r 0) as [Zr | NZr]; [unfold code; cbn; lia |].
    destruct (Z.compare_spec (2 * r + 1) nb), (Z.ltb_spec (2 * r) nb),
      (Z.eqb_spec (2 * r) nb); try lia; unfold code; cbn [shr_record_of_loc shr_m shr_r shr_s]; lia.
Qed.


Lemma div_core (m1 : positive) (e1 : Z) (m2 : positive) (e2 : Z) :
  let e' := div_exponent m1 e1 m2 e2 in
  let a := Zpos m1 * 2 ^ (e1 - e2 - e') in
  SFdiv_core_binary prec emax (Zpos m1) e1 (Zpos m2) e2
  = (a / Zpos m2, e', new_location (Zpos m2) (a mod Zpos m2)).
Proof.
  intros e' a. unfold SFdiv_core_binary. fold (div_exponent m1 e1 m2 e2). fold e'.
  assert (Hs : 0 <= e1 - e2 - e') by (subst e'; unfold div_exponent; lia).
  assert (Hm : match e1 - e2 - e' with
               | Zpos _ => Z.shiftl (Zpos m1) (e1 - e2 - e')
               | Z0 => Zpos m1
               | Zneg _ => 0
               end = a).
  { subst a. destruct (e1 - e2 - e') as [| p | p] eqn:Es; [| | lia].
    - change (2 ^ 0) with 1. lia.
    - rewrite Z.shiftl_mul_pow2 by lia. reflexivity. }
  rewrite Hm. unfold Z.div, Z.modulo.
  destruct (Z.div_eucl a (Zpos m2)) as [q r]. reflexivity.
Qed.

Lemma div_exponent_le (m1 : positive) (e1 : Z) (m2 : positive) (e2 : Z) :
  let e' := div_exponent m1 e1 m2 e2 in
  let a := Zpos m1 * 2 ^ (e1 - e2 - e') in
  e' <= e1 - e2 /\ e' <= fexp prec emax (Zdigits2 (a / Zpos m2) + e').
Proof.
  intros e' a.
  assert (Hs : e' <= e1 - e2) by (subst e'; unfold div_exponent; lia).
  split; [exact Hs |].
  pose proof (digits_bounds (Zpos m1) ltac:(lia)) as [L1 _].
  pose proof (digits_bounds (Zpos m2) ltac:(lia)) as [_ U2].
  pose proof (digits_pos (Zpos m1) ltac:(lia)) as P1.
  pose proof (digits_pos (Zpos m2) ltac:(lia)) as P2.
  assert (He : e' <= fexp prec emax (Zdigits2 (Zpos m1) + e1 - (Zdigits2 (Zpos m2) + e2)))
    by (subst e'; unfold div_exponent; lia).
  set (d1 := Zdigits2 (Zpos m1)) in *. set (d2 := Zdigits2 (Zpos m2)) in *.
  pose proof (digits_nonneg (a / Zpos m2)) as N.
  set (s := e1 - e2 - e') in *.
  destruct (Z_lt_le_dec (d1 + s - d2 - 1) 0) as [K | K].
  - rewrite fexp_eq in *. lia.
  - assert (G : d1 + s - d2 - 1 + 1 <= Zdigits2 (a / Zpos m2)).
    { apply digits_ge; [lia |].
      apply Z.div_le_lower_bound; [lia |].
      subst a. fold s.
      pose proof (pow2_pos s ltac:(lia)) as Ps.
      pose proof (pow2_pos (d1 + s - d2 - 1) K) as Pk.
      assert (E : 2 ^ d2 * 2 ^ (d1 + s - d2 - 1) = 2 ^ (d1 - 1) * 2 ^ s).
      { rewrite <- !pow2_add by lia. f_equal. lia. }
      set (A := 2 ^ (d1 + s - d2 - 1)) in *. set (B := 2 ^ s) in *.
      set (C := 2 ^ d2) in *. set (D := 2 ^ (d1 - 1)) in *.
      clearbody A B C D.
      assert (Zpos m2 * A <= C * A) by nia.
      assert (D * B <= Zpos m1 * B) by nia.
      lia. }
    rewrite fexp_eq in *. lia.
Qed.

Lemma SFdiv_finite (s1 s2 : bool) (m1 : positive) (e1 : Z) (m2 : positive) (e2 : Z) :
  let e' := div_exponent m1 e1 m2 e2 in
  let a := Zpos m1 * 2 ^ (e1 - e2 - e') in
  let t := fexp prec emax (Zdigits2 (a / Zpos m2) + e') in
  SFdiv prec emax (S754_finite s1 m1 e1) (S754_finite s2 m2 e2)
  = finish (xorb s1 s2) (nearest_even (sticky (2 * a) (Zpos m2 * 2 ^ (t - e')))) t.
Proof.
  intros e' a t. cbn [SFdiv]. rewrite div_core. fold e'. fold a.
  destruct (div_exponent_le m1 e1 m2 e2) as [Hs Ht]. fold e' in Hs, Ht. fold a in Ht.
  assert (Ha : 0 <= a).
  { subst a. pose proof (pow2_pos (e1 - e2 - e') ltac:(lia)). nia. }
  destruct (round_closed (xorb s1 s2) (a / Zpos m2) e'
              (new_location (Zpos m2) (a mod Zpos m2)) a (Zpos m2)
              Ha ltac:(lia) eq_refl) as [_ H].
  - rewrite new_location_code by (try lia; apply Z.mod_pos_bound; lia).
    rewrite <- Z.div_mod by lia. reflexivity.
  - exact Ht.
  - exact H.
Qed.

Lemma SFdiv_le_finite (m1 : positive) (e1 : Z) (m2 : positive) (e2 : Z)
    (mc : positive) (ec : Z) :
  valid_binary (S754_finite false m1 e1) = true ->
  valid_binary (S754_finite false m2 e2) = true ->
  SFleb (S754_finite false m1 e1) (S754_finite false m2 e2) = true ->
  SFleb (SFdiv prec emax (S754_finite false m1 e1) (S754_finite false mc ec))
        (SFdiv prec emax (S754_finite false m2 e2) (S754_finite false mc ec)) = true.
Proof.
  intros V1 V2 H.
  rewrite !SFdiv_finite. cbn [xorb].
  destruct (div_exponent_le m1 e1 mc ec) as [Hs1 Ht1].
  destruct (div_exponent_le m2 e2 mc ec) as [Hs2 Ht2].
  set (E1 := div_exponent m1 e1 mc ec) in *.
  set (E2 := div_exponent m2 e2 mc ec) in *.
  clearbody E1 E2.
  pose proof (pow2_pos (e1 - ec - E1) ltac:(lia)) as P1.
  pose proof (pow2_pos (e2 - ec - E2) ltac:(lia)) as P2.
  apply round_le with (E0 := Z.min E1 E2); try lia; try nia.
  pose proof (value_le m1 e1 m2 e2 (ec + Z.min E1 E2) V1 V2 H ltac:(lia) ltac:(lia)) as L.
  replace (e1 - (ec + Z.min E1 E2)) with ((e1 - ec - E1) + (E1 - Z.min E1 E2)) in L by lia.
  replace (e2 - (ec + Z.min E1 E2)) with ((e2 - ec - E2) + (E2 - Z.min E1 E2)) in L by lia.
  rewrite !pow2_add in L by lia.
  set (A1 := 2 ^ (e1 - ec - E1)) in *. set (A2 := 2 ^ (e2 - ec - E2)) in *.
  set (B1 := 2 ^ (E1 - Z.min E1 E2)) in *. set (B2 := 2 ^ (E2 - Z.min E1 E2)) in *.
  clearbody A1 A2 B1 B2.
  replace (Zpos m1 * A1 * Zpos mc * B1) with (Zpos mc * (Zpos m1 * (A1 * B1))) by ring.
  replace (Zpos m2 * A2 * Zpos mc * B2) with (Zpos mc * (Zpos m2 * (A2 * B2))) by ring.
  apply Z.mul_le_mono_nonneg_l; [lia | exact L].
Qed.

(** ** signs and special values *)

Lemma finish_opp (s : bool) (q t : Z) :
  finish (negb s) q t = SFopp (finish s q t).
Proof.
  unfold finish, check.
  destruct (q =? 0); [reflexivity |].
  destruct (q =? 2 ^ 53); [destruct (t + 1 <=? 971) | destruct (t <=? 971)];
    reflexivity.
Qed.

Lemma SFcompare_opp (x y : spec_float) :
  SFcompare (SFopp y) (SFopp x) = SFcompare x y.
Proof.
  destruct x as [sx | sx | | sx mx ex], y as [sy | sy | | sy my ey];
    try reflexivity; try (destruct sx; reflexivity); try (destruct sy; reflexivity);
    try (destruct sx, sy; reflexivity).
  destruct sx, sy; try reflexivity; cbn [SFopp SFcompare negb];
    rewrite !Pos.compare_cont_spec; cbn [Pos.switch_Eq];
    rewrite (Pos.compare_antisym mx my), (Z.compare_antisym ex ey);
    destruct (ex ?= ey), (mx ?= my)%positive; reflexivity.
Qed.

Lemma SFleb_opp (x y : spec_float) : SFleb (SFopp y) (SFopp x) = SFleb x y.
Proof. unfold SFleb. rewrite SFcompare_opp. reflexivity. Qed.

Lemma zero_le_finish (s : bool) (q t : Z) :
  SFleb (S754_zero s) (finish false q t) = true.
Proof.
  unfold finish, check.
  destruct (q =? 0); [reflexivity |].
  destruct (q =? 2 ^ 53); [destruct (t + 1 <=? 971) | destruct (t <=? 971)];
    reflexivity.
Qed.

Lemma finish_le_infinity (s : bool) (q t : Z) :
  SFleb (finish s q t) (S754_infinity false) = true.
Proof.
  unfold finish, check.
  destruct (q =? 0); [reflexivity |].
  destruct (q =? 2 ^ 53); [destruct (t + 1 <=? 971) | destruct (t <=? 971)];
    destruct s; reflexivity.
Qed.

Lemma negative_le_finish (q1 t1 q2 t2 : Z) :
  SFleb (finish true q1 t1) (finish false q2 t2) = true.
Proof.
  unfold finish, check.
  destruct (q1 =? 0), (q2 =? 0), (q1 =? 2 ^ 53), (q2 =? 2 ^ 53),
    (t1 + 1 <=? 971), (t1 <=? 971), (t2 + 1 <=? 971), (t2 <=? 971); reflexivity.
Qed.

Section Lift.

(** An operation that keeps zeros and infinities and rounds a finite
    number: multiplying or dividing by a positive finite constant. *)
Variable f : spec_float -> spec_float.
Hypothesis f_zero : forall s, f (S754_zero s) = S754_zero s.
Hypothesis f_infinity : forall s, f (S754_infinity s) = S754_infinity s.
Hypothesis f_finite : forall m e,
  valid_binary (S754_finite false m e) = true ->
  exists q t, forall s, f (S754_finite s m e) = finish s q t.
Hypothesis f_le : forall m1 e1 m2 e2,
  valid_binary (S754_finite false m1 e1) = true ->
  valid_binary (S754_finite false m2 e2) = true ->
  SFleb (S754_finite false m1 e1) (S754_finite false m2 e2) = true ->
  SFleb (f (S754_finite false m1 e1)) (f (S754_finite false m2 e2)) = true.

Lemma lift_le (x y : spec_float) :
  valid_binary x = true -> valid_binary y = true ->
  SFleb x y = true -> SFleb (f x) (f y) = true.
Proof.
  intros Vx Vy H.
  destruct x as [sx | sx | | sx mx ex], y as [sy | sy | | sy my ey];
    try discriminate H; rewrite ?f_zero, ?f_infinity.
  - reflexivity.
  - exact H.
  - destruct (f_finite my ey Vy) as (q & t & Ef). rewrite Ef.
    destruct sy; [discriminate H | apply zero_le_finish].
  - exact H.
  - exact H.
  - destruct (f_finite my ey Vy) as (q & t & Ef). rewrite Ef.
    destruct sx; [| discriminate H].
    rewrite <- (SFleb_opp (S754_infinity true) (finish sy q t)).
    rewrite <- finish_opp. apply finish_le_infinity.
  - destruct (f_finite mx ex Vx) as (q & t & Ef). rewrite Ef.
    destruct sx; [| discriminate H].
    rewrite <- (SFleb_opp (finish true q t) (S754_zero sy)).
    rewrite <- (finish_opp true). apply zero_le_finish.
  - destruct (f_finite mx ex Vx) as (q & t & Ef). rewrite Ef.
    destruct sy; [destruct sx; discriminate H |]. apply finish_le_infinity.
  - destruct sx, sy.
    + rewrite <- SFleb_opp in H. cbn [SFopp negb] in H.
      apply f_le in H; try assumption.
      destruct (f_finite mx ex Vx) as (q1 & t1 & E1).
      destruct (f_finite my ey Vy) as (q2 & t2 & E2).
      rewrite E1, E2 in *.
      rewrite <- SFleb_opp, <- !finish_opp. exact H.
    + destruct (f_finite mx ex Vx) as (q1 & t1 & E1).
      destruct (f_finite my ey Vy) as (q2 & t2 & E2).
      rewrite E1, E2. apply negative_le_finish.
    + discriminate H.
    + apply f_le; assumption.
Qed.

End Lift.

Lemma SFmul_le (x y : spec_float) (mc : positive) (ec : Z) :
  valid_binary x = true -> valid_binary y = true ->
  valid_binary (S754_finite false mc ec) = true ->
  SFleb x y = true ->
  SFleb (SFmul prec emax x (S754_finite false mc ec))
        (SFmul prec emax y (S754_finite false mc ec)) = true.
Proof.
  intros Vx Vy Vc H.
  apply (lift_le (fun x => SFmul prec emax x (S754_finite false mc ec)));
    try assumption.
  - intros s. cbn. destruct s; reflexivity.
  - intros s. cbn. destruct s; reflexivity.
  - intros m e V. eexists. eexists. intros s.
    rewrite (SFmul_finite s false m e mc ec V Vc). rewrite xorb_false_r. reflexivity.
  - intros m1 e1 m2 e2 V1 V2 L. apply SFmul_le_finite; assumption.
Qed.

Lemma SFdiv_le (x y : spec_float) (mc : positive) (ec : Z) :
  valid_binary x = true -> valid_binary y = true ->
  SFleb x y = true ->
  SFleb (SFdiv prec emax x (S754_finite false mc ec))
        (SFdiv prec emax y (S754_finite false mc ec)) = true.
Proof.
  intros Vx Vy H.
  apply (lift_le (fun x => SFdiv prec emax x (S754_finite false mc ec)));
    try assumption.
  - intros s. cbn. destruct s; reflexivity.
  - intros s. cbn. destruct s; reflexivity.
  - intros m e V. eexists. eexists. intros s.
    rewrite (SFdiv_finite s false m e mc ec). rewrite xorb_false_r. reflexivity.
  - intros m1 e1 m2 e2 V1 V2 L. apply SFdiv_le_finite; assumption.
Qed.

(** ** the same, on primitive floats *)

Lemma positive_finite (c : float) :
  PrimFloat.ltb 0 c = true -> PrimFloat.ltb c infinity = true ->
  exists mc ec, Prim2SF c = S754_finite false mc ec.
Proof.
  rewrite !ltb_spec. change (Prim2SF 0) with (S754_zero false).
  change (Prim2SF infinity) with (S754_infinity false).
  destruct (Prim2SF c) as [s | s | | s m e]; try discriminate.
  - destruct s; discriminate.
  - destruct s; [discriminate |]. intros _ _. eauto.
Qed.

Lemma float_mul_le (x y c : float) :
  PrimFloat.leb x y = true ->
  PrimFloat.ltb 0 c = true -> PrimFloat.ltb c infinity = true ->
  PrimFloat.leb (x * c) (y * c) = true.
Proof.
  intros H H0 Hi. destruct (positive_finite c H0 Hi) as (mc & ec & Ec).
  rewrite leb_spec in *. rewrite !mul_spec, Ec. unfold SF64mul.
  apply SFmul_le; try apply Prim2SF_valid; [| exact H].
  rewrite <- Ec. apply Prim2SF_valid.
Qed.

Lemma float_div_le (x y c : float) :
  PrimFloat.leb x y = true ->
  PrimFloat.ltb 0 c = true -> PrimFloat.ltb c infinity = true ->
  PrimFloat.leb (x / c) (y / c) = true.
Proof.
  intros H H0 Hi. destruct (positive_finite c H0 Hi) as (mc & ec & Ec).
  rewrite leb_spec in *. rewrite !div_spec, Ec. unfold SF64div.
  apply SFdiv_le; try apply Prim2SF_valid. exact H.
Qed.

(** ** the product with 0.7788 *)

Lemma SFltb_leb (x y : spec_float) : SFltb x y = true -> SFleb x y = true.
Proof. unfold SFltb, SFleb. destruct (SFcompare x y) as [[] |]; easy. Qed.

Lemma finish_below (q t : Z) (m : positive) (e : Z) :
  0 <= q -> e <= 971 -> Zpos m < 2 ^ 53 ->
  (t = e /\ q <= Zpos m) \/ (t = e - 1 /\ q <= 2 ^ 53 /\ (q = 2 ^ 53 -> 2 ^ 52 <= Zpos m)) ->
  SFleb (finish false q t) (S754_finite false m e) = true /\
  ((t = e -> q < Zpos m) -> (q = 2 ^ 53 -> 2 ^ 52 < Zpos m) ->
   SFltb (finish false q t) (S754_finite false m e) = true).
Proof.
  change (2 ^ 53) with 9007199254740992. change (2 ^ 52) with 4503599627370496.
  intros Hq He Hm H. unfold finish, check.
  change (2 ^ 53) with 9007199254740992. change (2 ^ 52) with 4503599627370496.
  destruct (Z.eqb_spec q 0) as [Q0 | Q0]; [split; reflexivity |].
  assert (C : forall q' t', 0 < q' ->
            t' < e \/ (t' = e /\ q' <= Zpos m) ->
            SFleb (S754_finite false (Z.to_pos q') t') (S754_finite false m e) = true /\
            (t' < e \/ q' < Zpos m ->
             SFltb (S754_finite false (Z.to_pos q') t') (S754_finite false m e) = true)).
  { intros q' t' Hq' Ht'. unfold SFleb, SFltb, SFcompare.
    rewrite Pos.compare_cont_spec. cbn [Pos.switch_Eq].
    destruct (Z.compare_spec t' e) as [Ee | Ee | Ee]; [| split; reflexivity | lia].
    destruct (Pos.compare_spec (Z.to_pos q') m) as [Em | Em | Em].
    - split; [reflexivity |]. intros [L | L]; [lia |].
      rewrite <- Em, Z2Pos.id in L by lia. lia.
    - split; reflexivity.
    - exfalso. apply Pos2Z.pos_lt_pos in Em. rewrite Z2Pos.id in Em by lia. lia. }
  destruct (Z.eqb_spec q 9007199254740992) as [Q53 | Q53].
  - destruct (Z.leb_spec (t + 1) 971); [| lia].
    destruct (C 4503599627370496 (t + 1) ltac:(lia) ltac:(lia)) as [C1 C2].
    split; [exact C1 |]. intros _ H2. apply C2. lia.
  - destruct (Z.leb_spec t 971); [| lia].
    destruct (C q t ltac:(lia) ltac:(lia)) as [C1 C2].
    split; [exact C1 |]. intros H1 _. apply C2. lia.
Qed.

Lemma scaled_below (m : positive) (e : Z) :
  valid_binary (S754_finite false m e) = true ->
  let r := S754_finite false m e in
  let p := SFmul prec emax r (Prim2SF 0.7788) in
  SFleb p r = true /\ (3 <= Zpos m \/ -1074 < e -> SFltb p r = true).
Proof.
  intros V r p. subst r p.
  change (Prim2SF 0.7788) with (S754_finite false 7014806779592285 (-53)).
  assert (Vc : valid_binary (S754_finite false 7014806779592285 (-53)) = true)
    by reflexivity.
  rewrite (SFmul_finite false false m e _ _ V Vc). cbn [xorb].
  destruct (valid_finite _ _ _ V) as [Hc He]. rewrite fexp_eq in Hc.
  destruct (valid_digits _ _ _ V) as (Re & Um & Lm).
  pose proof (digits_mul m 7014806779592285) as D.
  change (Zdigits2 7014806779592285) with 53 in D.
  pose proof (digits_pos (Zpos m) ltac:(lia)) as P.
  pose proof (mul_exponent false false m e _ _ V Vc) as Ht.
  destruct (rounded_bounds (Zpos m * 7014806779592285) 1 (e + -53)
              ltac:(lia) ltac:(lia) Ht) as [Bq _].
  pose proof (nearest_even_bounds (Zpos m * 7014806779592285)
                (1 * 2 ^ (fexp prec emax
                     (Zdigits2 (Zpos m * 7014806779592285 / 1) + (e + -53)) - (e + -53)))
                ltac:(lia)) as N.
  set (t := fexp prec emax (Zdigits2 (Zpos m * 7014806779592285 / 1) + (e + -53))) in *.
  assert (Et : t = e \/ t = e - 1).
  { subst t. rewrite Z.div_1_r, fexp_eq. lia. }
  set (q := nearest_even (sticky (2 * (Zpos m * 7014806779592285))
                                 (1 * 2 ^ (t - (e + -53))))) in *.
  clearbody q.
  change (2 ^ 53) with 9007199254740992 in *.
  change (2 ^ 52) with 4503599627370496 in *.
  destruct Et as [Et | Et].
  - replace (t - (e + -53)) with 53 in N by lia.
    change (1 * 2 ^ 53) with 9007199254740992 in N.
    destruct (N ltac:(lia)) as (_ & N1 & _).
    destruct (finish_below q t m e ltac:(lia) He Um) as [L S].
    { left. split; [exact Et | lia]. }
    split; [exact L |]. intros Hm. apply S; [| lia].
    intros _. assert (3 <= Zpos m) by lia. lia.
  - replace (t - (e + -53)) with 52 in N by lia.
    change (1 * 2 ^ 52) with 4503599627370496 in N.
    destruct (N ltac:(lia)) as (_ & N1 & _).
    assert (Hn : -1074 < e) by (subst t; rewrite fexp_eq in Et; lia).
    specialize (Lm Hn).
    destruct (finish_below q t m e ltac:(lia) He Um) as [L S].
    { right. split; [exact Et |]. split; [lia |]. intros Q. lia. }
    split; [exact L |]. intros _. apply S; [lia |].
    intros Q. lia.
Qed.

Lemma float_scaled_below (r : float) :
  PrimFloat.leb 0 r = true -> PrimFloat.ltb r infinity = true ->
  PrimFloat.leb (r * 0.7788) r = true /\
  (PrimFloat.leb 0x3p-1074 r = true -> PrimFloat.ltb (r * 0.7788) r = true).
Proof.
  rewrite !leb_spec, !ltb_spec, mul_spec.
  change (Prim2SF 0) with (S754_zero false).
  change (Prim2SF infinity) with (S754_infinity false).
  change (Prim2SF 0x3p-1074) with (S754_finite false 3 (-1074)).
  pose proof (Prim2SF_valid r) as V.
  destruct (Prim2SF r) as [s | s | | s m e] eqn:Er; try discriminate.
  - intros _ _. split; [destruct s; reflexivity | destruct s; discriminate].
  - destruct s; discriminate.
  - destruct s; [discriminate |]. intros _ _.
    destruct (scaled_below m e V) as [L S].
    split; [exact L |]. intros H3. apply S.
    pose proof (value_le 3 (-1074) m e (-1074) eq_refl V H3 ltac:(lia)) as Hv.
    destruct (valid_digits _ _ _ V) as (Re & _ & _).
    specialize (Hv ltac:(lia)).
    destruct (Z.eq_dec e (-1074)) as [-> | Ne]; [left | right; lia].
    change (2 ^ (-1074 - -1074)) with 1 in Hv. lia.
Qed.

(** ** a larger divisor *)

Lemma SFdiv_le_divisor_finite (m : positive) (e : Z)
    (mc1 : positive) (ec1 : Z) (mc2 : positive) (ec2 : Z) :
  valid_binary (S754_finite false mc1 ec1) = true ->
  valid_binary (S754_finite false mc2 ec2) = true ->
  SFleb (S754_finite false mc1 ec1) (S754_finite false mc2 ec2) = true ->
  SFleb (SFdiv prec emax (S754_finite false m e) (S754_finite false mc2 ec2))
        (SFdiv prec emax (S754_finite false m e) (S754_finite false mc1 ec1)) = true.
Proof.
  intros V1 V2 H.
  rewrite !SFdiv_finite. cbn [xorb].
  destruct (div_exponent_le m e mc2 ec2) as [Hs1 Ht1].
  destruct (div_exponent_le m e mc1 ec1) as [Hs2 Ht2].
  set (E1 := div_exponent m e mc2 ec2) in *.
  set (E2 := div_exponent m e mc1 ec1) in *.
  clearbody E1 E2.
  pose proof (pow2_pos (e - ec2 - E1) ltac:(lia)) as P1.
  pose proof (pow2_pos (e - ec1 - E2) ltac:(lia)) as P2.
  apply round_le with (E0 := Z.min E1 E2); try lia; try nia.
  set (E0 := Z.min E1 E2). set (e0 := Z.min ec1 ec2).
  pose proof (value_le mc1 ec1 mc2 ec2 e0 V1 V2 H ltac:(lia) ltac:(lia)) as L.
  set (K := e - E0 - (ec1 + ec2 - e0)).
  assert (HK : 0 <= K) by lia.
  pose proof (pow2_pos K HK) as PK.
  replace (Zpos m * 2 ^ (e - ec2 - E1) * Zpos mc1 * 2 ^ (E1 - E0))
    with (Zpos m * (Zpos mc1 * 2 ^ (ec1 - e0)) * 2 ^ K).
  2:{ replace (Zpos m * (Zpos mc1 * 2 ^ (ec1 - e0)) * 2 ^ K)
        with (Zpos m * Zpos mc1 * (2 ^ (ec1 - e0) * 2 ^ K)) by ring.
      replace (Zpos m * 2 ^ (e - ec2 - E1) * Zpos mc1 * 2 ^ (E1 - E0))
        with (Zpos m * Zpos mc1 * (2 ^ (e - ec2 - E1) * 2 ^ (E1 - E0))) by ring.
      rewrite <- !pow2_add by lia. do 2 f_equal. lia. }
  replace (Zpos m * 2 ^ (e - ec1 - E2) * Zpos mc2 * 2 ^ (E2 - E0))
    with (Zpos m * (Zpos mc2 * 2 ^ (ec2 - e0)) * 2 ^ K).
  2:{ replace (Zpos m * (Zpos mc2 * 2 ^ (ec2 - e0)) * 2 ^ K)
        with (Zpos m * Zpos mc2 * (2 ^ (ec2 - e0) * 2 ^ K)) by ring.
      replace (Zpos m * 2 ^ (e - ec1 - E2) * Zpos mc2 * 2 ^ (E2 - E0))
        with (Zpos m * Zpos mc2 * (2 ^ (e - ec1 - E2) * 2 ^ (E2 - E0))) by ring.
      rewrite <- !pow2_add by lia. do 2 f_equal. lia. }
  apply Z.mul_le_mono_nonneg_r; [lia |].
  apply Z.mul_le_mono_nonneg_l; [lia | exact L].
Qed.

Lemma float_div_le_divisor (x c1 c2 : float) :
  PrimFloat.ltb 0 x = true ->
  PrimFloat.ltb 0 c1 = true -> PrimFloat.leb c1 c2 = true ->
  PrimFloat.ltb c2 infinity = true ->
  PrimFloat.leb (x / c2) (x / c1) = true.
Proof.
  intros Hx H1 H12 H2.
  assert (F2 : exists m2 e2, Prim2SF c2 = S754_finite false m2 e2).
  { revert H1 H12 H2. rewrite !ltb_spec, leb_spec.
    change (Prim2SF 0) with (S754_zero false).
    change (Prim2SF infinity) with (S754_infinity false).
    destruct (Prim2SF c1) as [s1 | s1 | | s1 m1 e1];
      destruct (Prim2SF c2) as [s2 | s2 | | s2 m2 e2];
      try discriminate; try (destruct s1; discriminate);
      try (destruct s2; discriminate); try (destruct s1, s2; discriminate).
    destruct s1, s2; try discriminate. eauto. }
  assert (F1 : exists m1 e1, Prim2SF c1 = S754_finite false m1 e1).
  { destruct F2 as (m2 & e2 & E2).
    revert H1 H12. rewrite !ltb_spec, leb_spec, E2.
    change (Prim2SF 0) with (S754_zero false).
    destruct (Prim2SF c1) as [s1 | s1 | | s1 m1 e1];
      try discriminate; try (destruct s1; discriminate).
    destruct s1; try discriminate. eauto. }
  destruct F1 as (m1 & e1 & E1). destruct F2 as (m2 & e2 & E2).
  pose proof (Prim2SF_valid c1) as V1. pose proof (Prim2SF_valid c2) as V2.
  revert Hx H12. rewrite ltb_spec, !leb_spec, !div_spec, E1, E2 in *.
  change (Prim2SF 0) with (S754_zero false).
  unfold SF64div.
  destruct (Prim2SF x) as [s | s | | s m e]; try discriminate.
  - destruct s; [discriminate |]. reflexivity.
  - destruct s; [discriminate |]. intros _ H.
    apply SFdiv_le_divisor_finite; assumption.
Qed.

(** ** the order of binary64 is an order of integers *)

Lemma SFcompare_rank (x y : spec_float) :
  valid_binary x = true -> valid_binary y = true ->
  x <> S754_nan -> y <> S754_nan ->
  SFcompare x y = Some (rank x ?= rank y).
Proof.
  intros Vx Vy Nx Ny.
  assert (Fx : forall s m e, x = S754_finite s m e ->
                 -1074 <= e <= 971 /\ Zpos m < 2 ^ 53).
  { intros s m e ->. destruct (valid_digits _ _ _ Vx) as (? & ? & _). split; assumption. }
  assert (Fy : forall s m e, y = S754_finite s m e ->
                 -1074 <= e <= 971 /\ Zpos m < 2 ^ 53).
  { intros s m e ->. destruct (valid_digits _ _ _ Vy) as (? & ? & _). split; assumption. }
  change (2 ^ 53) with 9007199254740992 in *.
  destruct x as [sx | sx | | sx mx ex], y as [sy | sy | | sy my ey];
    try congruence; cbn [rank SFcompare];
    change (2 ^ 53) with 9007199254740992;
    try (destruct (Fx _ _ _ eq_refl) as [Rx Ux]);
    try (destruct (Fy _ _ _ eq_refl) as [Ry Uy]);
    try (destruct sx); try (destruct sy); try reflexivity; f_equal; symmetry;
    try (apply Z.compare_lt_iff; lia); try (apply Z.compare_gt_iff; lia).
  all: rewrite Pos.compare_cont_spec; cbn [Pos.switch_Eq];
    destruct (Z.compare_spec ex ey) as [Ee | Ee | Ee];
    [ subst ey; destruct (Pos.compare_spec mx my) as [Em | Em | Em];
      cbn [CompOpp]; try subst my | | ];
    first [ apply Z.compare_eq_iff; lia
          | apply Z.compare_lt_iff; lia
          | apply Z.compare_gt_iff; lia ].
Qed.

Lemma SFleb_not_nan (x y : spec_float) :
  SFleb x y = true -> x <> S754_nan /\ y <> S754_nan.
Proof.
  unfold SFleb. destruct x as [| | |], y as [| | |]; cbn; try discriminate;
    intros _; split; discriminate.
Qed.

Lemma SFltb_not_nan (x y : spec_float) :
  SFltb x y = true -> x <> S754_nan /\ y <> S754_nan.
Proof.
  unfold SFltb. destruct x as [| | |], y as [| | |]; cbn; try discriminate;
    intros _; split; discriminate.
Qed.

Lemma leb_rank (x y : float) :
  PrimFloat.leb x y = true <->
  Prim2SF x <> S754_nan /\ Prim2SF y <> S754_nan /\ rank (Prim2SF x) <= rank (Prim2SF y).
Proof.
  rewrite leb_spec. split.
  - intros H. destruct (SFleb_not_nan _ _ H) as [Nx Ny].
    split; [exact Nx |]. split; [exact Ny |].
    unfold SFleb in H.
    rewrite (SFcompare_rank _ _ (Prim2SF_valid x) (Prim2SF_valid y) Nx Ny) in H.
    destruct (Z.compare_spec (rank (Prim2SF x)) (rank (Prim2SF y)));
      first [lia | discriminate H].
  - intros (Nx & Ny & H). unfold SFleb.
    rewrite (SFcompare_rank _ _ (Prim2SF_valid x) (Prim2SF_valid y) Nx Ny).
    destruct (Z.compare_spec (rank (Prim2SF x)) (rank (Prim2SF y)));
      first [reflexivity | lia].
Qed.

Lemma ltb_rank (x y : float) :
  PrimFloat.ltb x y = true <->
  Prim2SF x <> S754_nan /\ Prim2SF y <> S754_nan /\ rank (Prim2SF x) < rank (Prim2SF y).
Proof.
  rewrite ltb_spec. split.
  - intros H. destruct (SFltb_not_nan _ _ H) as [Nx Ny].
    split; [exact Nx |]. split; [exact Ny |].
    unfold SFltb in H.
    rewrite (SFcompare_rank _ _ (Prim2SF_valid x) (Prim2SF_valid y) Nx Ny) in H.
    destruct (Z.compare_spec (rank (Prim2SF x)) (rank (Prim2SF y)));
      first [lia | discriminate H].
  - intros (Nx & Ny & H). unfold SFltb.
    rewrite (SFcompare_rank _ _ (Prim2SF_valid x) (Prim2SF_valid y) Nx Ny).
    destruct (Z.compare_spec (rank (Prim2SF x)) (rank (Prim2SF y)));
      first [reflexivity | lia].
Qed.

Lemma float_le_trans (x y z : float) :
  PrimFloat.leb x y = true -> PrimFloat.leb y z = true -> PrimFloat.leb x z = true.
Proof. rewrite !leb_rank. intros (? & ? & ?) (? & ? & ?). repeat split; try assumption; lia. Qed.

Lemma float_lt_le_trans (x y z : float) :
  PrimFloat.ltb x y = true -> PrimFloat.leb y z = true -> PrimFloat.ltb x z = true.
Proof.
  rewrite !ltb_rank, leb_rank. intros (? & ? & ?) (? & ? & ?).
  repeat split; try assumption; lia.
Qed.

Lemma float_le_lt_trans (x y z : float) :
  PrimFloat.leb x y = true -> PrimFloat.ltb y z = true -> PrimFloat.ltb x z = true.
Proof.
  rewrite !ltb_rank, leb_rank. intros (? & ? & ?) (? & ? & ?).
  repeat split; try assumption; lia.
Qed.

(** ** multiplying by one *)

Lemma SFmul_one (x : spec_float) :
  valid_binary x = true ->
  SFmul prec emax x (S754_finite false 4503599627370496 (-52)) = x.
Proof.
  intros V. destruct x as [s | s | | s m e]; try (destruct s; reflexivity);
    [reflexivity |].
  assert (V1 : valid_binary (S754_finite false 4503599627370496 (-52)) = true)
    by reflexivity.
  rewrite (SFmul_finite s false m e _ _ V V1). rewrite xorb_false_r.
  destruct (valid_finite _ _ _ V) as [Hc He].
  destruct (valid_digits _ _ _ V) as (Re & Um & _).
  assert (Hd : Zdigits2 (Zpos m * 4503599627370496 / 1) = Zdigits2 (Zpos m) + 52).
  { rewrite Z.div_1_r.
    pose proof (digits_bounds (Zpos m) ltac:(lia)) as [L U].
    pose proof (digits_pos (Zpos m) ltac:(lia)) as P.
    change 4503599627370496 with (2 ^ 52).
    apply Z.le_antisymm.
    - apply digits_le; [lia | lia |]. rewrite pow2_add by lia.
      apply Z.mul_lt_mono_pos_r; [apply pow2_pos; lia | exact U].
    - assert (Zdigits2 (Zpos m) - 1 + 52 + 1 <= Zdigits2 (Zpos m * 2 ^ 52)); [| lia].
      apply digits_ge; [lia |]. rewrite pow2_add by lia.
      apply Z.mul_le_mono_nonneg_r; [apply Z.lt_le_incl, pow2_pos; lia | exact L]. }
  rewrite Hd.
  replace (Zdigits2 (Zpos m) + 52 + (e + -52)) with (Zdigits2 (Zpos m) + e) by lia.
  rewrite Hc.
  replace (e - (e + -52)) with 52 by lia.
  change (1 * 2 ^ 52) with (4503599627370496 * 1).
  replace (2 * (Zpos m * 4503599627370496)) with (4503599627370496 * (2 * Zpos m)) by ring.
  rewrite sticky_scale by lia.
  rewrite sticky_exact, nearest_even_exact.
  unfold finish, check.
  change (2 ^ 53) with 9007199254740992 in *.
  destruct (Z.eqb_spec (Zpos m) 0); [lia |].
  destruct (Z.eqb_spec (Zpos m) 9007199254740992); [lia |].
  destruct (Z.leb_spec e 971); [| lia]. reflexivity.
Qed.

Lemma float_mul_one (x : float) : (x * 1)%float = x.
Proof.
  apply Prim2SF_inj. rewrite mul_spec.
  change (Prim2SF 1) with (S754_finite false 4503599627370496 (-52)).
  apply SFmul_one, Prim2SF_valid.
Qed.

(** ** addition *)

Lemma digits_shift (M k : Z) :
  0 < M -> 0 <= k -> Zdigits2 (M * 2 ^ k) = Zdigits2 M + k.
Proof.
  intros HM Hk.
  pose proof (digits_bounds M HM) as [L U].
  pose proof (digits_pos M HM) as P.
  pose proof (pow2_pos k Hk) as Pk.
  apply Z.le_antisymm.
  - apply digits_le; [nia | lia |]. rewrite pow2_add by lia.
    apply Z.mul_lt_mono_pos_r; [exact Pk | exact U].
  - assert (Zdigits2 M - 1 + k + 1 <= Zdigits2 (M * 2 ^ k)); [| lia].
    apply digits_ge; [lia |]. rewrite pow2_add by lia.
    apply Z.mul_le_mono_nonneg_r; [lia | exact L].
Qed.

Lemma iter_xO (m d : positive) : Zpos (Pos.iter xO m d) = Zpos m * 2 ^ Zpos d.
Proof.
  induction d as [| d IH] using Pos.peano_ind.
  - cbn [Pos.iter]. change (2 ^ 1) with 2. lia.
  - rewrite Pos.iter_succ, Pos2Z.inj_xO, IH, Pos2Z.inj_succ, Z.pow_succ_r by lia.
    ring.
Qed.

Lemma shl_align_spec (m : positive) (e e' : Z) :
  snd (shl_align m e e') = Z.min e e' /\
  Zpos (fst (shl_align m e e')) = Zpos m * 2 ^ (e - Z.min e e').
Proof.
  unfold shl_align. destruct (e' - e) as [| d | d] eqn:Ed; cbn [fst snd].
  - replace (Z.min e e') with e by lia. rewrite Z.sub_diag. split; lia.
  - replace (Z.min e e') with e by lia. rewrite Z.sub_diag. split; lia.
  - replace (Z.min e e') with e' by lia. split; [reflexivity |].
    rewrite iter_xO. f_equal. f_equal. lia.
Qed.

Lemma binary_round_closed (s : bool) (m : positive) (e : Z) :
  let E := Z.min e (fexp prec emax (Zdigits2 (Zpos m) + e)) in
  let a := Zpos m * 2 ^ (e - E) in
  let t := fexp prec emax (Zdigits2 (a / 1) + E) in
  E <= t /\
  binary_round prec emax s m e
  = finish s (nearest_even (sticky (2 * a) (1 * 2 ^ (t - E)))) t.
Proof.
  intros E a t.
  assert (HE : 0 <= e - E) by (subst E; lia).
  pose proof (pow2_pos (e - E) HE) as PE.
  assert (Hd : Zdigits2 (a / 1) + E = Zdigits2 (Zpos m) + e).
  { subst a. rewrite Z.div_1_r, digits_shift by lia. lia. }
  assert (Ht : E <= t) by (subst t; rewrite Hd; subst E; lia).
  split; [exact Ht |].
  unfold binary_round. cbn [Zdigits2] in E.
  destruct (shl_align_spec m e (fexp prec emax (Zpos (digits2_pos m) + e))) as [S1 S2].
  destruct (shl_align m e (fexp prec emax (Zpos (digits2_pos m) + e))) as [mz ez].
  cbn [fst snd] in S1, S2. fold E in S1, S2. fold a in S2. subst ez.
  destruct (round_closed s (Zpos mz) E loc_Exact a 1 ltac:(lia) ltac:(lia)) as [_ H].
  - rewrite Z.div_1_r. exact S2.
  - unfold code. cbn [shr_record_of_loc shr_m shr_r shr_s].
    rewrite sticky_exact, S2. lia.
  - rewrite S2. unfold t in Ht. rewrite Z.div_1_r in Ht. exact Ht.
  - rewrite H. rewrite S2. subst t. rewrite Z.div_1_r. reflexivity.
Qed.

Lemma finish_negative_le_zero (q t : Z) (s : bool) :
  SFleb (finish true q t) (S754_zero s) = true.
Proof.
  rewrite <- (SFleb_opp (finish true q t) (S754_zero s)).
  rewrite <- (finish_opp true). apply zero_le_finish.
Qed.

Lemma binary_round_le (m1 : positive) (e1 : Z) (m2 : positive) (e2 E0 : Z) :
  E0 <= e1 -> E0 <= e2 ->
  Zpos m1 * 2 ^ (e1 - E0) <= Zpos m2 * 2 ^ (e2 - E0) ->
  SFleb (binary_round prec emax false m1 e1)
        (binary_round prec emax false m2 e2) = true.
Proof.
  intros H1 H2 L.
  destruct (binary_round_closed false m1 e1) as [T1 ->].
  destruct (binary_round_closed false m2 e2) as [T2 ->].
  set (F1 := Z.min e1 (fexp prec emax (Zdigits2 (Zpos m1) + e1))) in *.
  set (F2 := Z.min e2 (fexp prec emax (Zdigits2 (Zpos m2) + e2))) in *.
  assert (B1 : F1 <= e1) by (subst F1; lia).
  assert (B2 : F2 <= e2) by (subst F2; lia).
  clearbody F1 F2.
  pose proof (pow2_pos (e1 - F1) ltac:(lia)) as Q1.
  pose proof (pow2_pos (e2 - F2) ltac:(lia)) as Q2.
  apply round_le with (E0 := Z.min E0 (Z.min F1 F2)); try lia; try nia.
  set (G := Z.min E0 (Z.min F1 F2)).
  pose proof (pow2_pos (E0 - G) ltac:(lia)) as Q3.
  replace (Zpos m1 * 2 ^ (e1 - F1) * 1 * 2 ^ (F1 - G))
    with (Zpos m1 * 2 ^ (e1 - E0) * 2 ^ (E0 - G)).
  2:{ replace (Zpos m1 * 2 ^ (e1 - F1) * 1 * 2 ^ (F1 - G))
        with (Zpos m1 * (2 ^ (e1 - F1) * 2 ^ (F1 - G))) by ring.
      replace (Zpos m1 * 2 ^ (e1 - E0) * 2 ^ (E0 - G))
        with (Zpos m1 * (2 ^ (e1 - E0) * 2 ^ (E0 - G))) by ring.
      rewrite <- !pow2_add by lia. do 2 f_equal. lia. }
  replace (Zpos m2 * 2 ^ (e2 - F2) * 1 * 2 ^ (F2 - G))
    with (Zpos m2 * 2 ^ (e2 - E0) * 2 ^ (E0 - G)).
  2:{ replace (Zpos m2 * 2 ^ (e2 - F2) * 1 * 2 ^ (F2 - G))
        with (Zpos m2 * (2 ^ (e2 - F2) * 2 ^ (F2 - G))) by ring.
      replace (Zpos m2 * 2 ^ (e2 - E0) * 2 ^ (E0 - G))
        with (Zpos m2 * (2 ^ (e2 - E0) * 2 ^ (E0 - G))) by ring.
      rewrite <- !pow2_add by lia. do 2 f_equal. lia. }
  apply Z.mul_le_mono_nonneg_r; [lia | exact L].
Qed.

Lemma binary_round_opp (m : positive) (e : Z) :
  binary_round prec emax true m e = SFopp (binary_round prec emax false m e).
Proof.
  destruct (binary_round_closed true m e) as [_ ->].
  destruct (binary_round_closed false m e) as [_ ->].
  apply (finish_opp false).
Qed.

(** Normalising is monotone, on integers of either sign. *)
Lemma normalize_le (M1 e1 M2 e2 E0 : Z) :
  E0 <= e1 -> E0 <= e2 ->
  M1 * 2 ^ (e1 - E0) <= M2 * 2 ^ (e2 - E0) ->
  SFleb (binary_normalize prec emax M1 e1 false)
        (binary_normalize prec emax M2 e2 false) = true.
Proof.
  intros H1 H2 H.
  pose proof (pow2_pos (e1 - E0) ltac:(lia)) as P1.
  pose proof (pow2_pos (e2 - E0) ltac:(lia)) as P2.
  destruct M1 as [| m1 | m1], M2 as [| m2 | m2]; cbn [binary_normalize].
  - reflexivity.
  - destruct (binary_round_closed false m2 e2) as [_ ->]. apply zero_le_finish.
  - exfalso. pose proof (Pos2Z.neg_is_neg m2). nia.
  - exfalso. pose proof (Pos2Z.pos_is_pos m1). nia.
  - apply binary_round_le with (E0 := E0); assumption.
  - exfalso. pose proof (Pos2Z.neg_is_neg m2). pose proof (Pos2Z.pos_is_pos m1). nia.
  - destruct (binary_round_closed true m1 e1) as [_ ->].
    apply finish_negative_le_zero.
  - destruct (binary_round_closed true m1 e1) as [_ ->].
    destruct (binary_round_closed false m2 e2) as [_ ->].
    apply negative_le_finish.
  - rewrite !binary_round_opp, SFleb_opp.
    apply binary_round_le with (E0 := E0); try assumption.
    rewrite <- !Pos2Z.opp_pos in H. lia.
Qed.

Lemma normalize_finite (s : bool) (m : positive) (e : Z) :
  valid_binary (S754_finite s m e) = true ->
  binary_normalize prec emax (cond_Zopp s (Zpos m)) e false = S754_finite s m e.
Proof.
  intros V.
  destruct (valid_finite _ _ _ V) as [Hc He].
  destruct (valid_digits _ _ _ V) as (Re & Um & _).
  assert (B : binary_round prec emax s m e = S754_finite s m e).
  { destruct (binary_round_closed s m e) as [_ ->].
    rewrite Hc. replace (Z.min e e) with e by lia.
    rewrite Z.sub_diag. change (2 ^ 0) with 1. rewrite !Z.mul_1_r.
    rewrite Z.div_1_r, Hc, Z.sub_diag. change (1 * 2 ^ 0) with 1.
    rewrite sticky_exact, nearest_even_exact.
    unfold finish, check. change (2 ^ 53) with 9007199254740992 in *.
    destruct (Z.eqb_spec (Zpos m) 0); [lia |].
    destruct (Z.eqb_spec (Zpos m) 9007199254740992); [lia |].
    destruct (Z.leb_spec e 971); [| lia]. reflexivity. }
  destruct s; cbn [cond_Zopp Z.opp binary_normalize]; exact B.
Qed.

Lemma SFadd_finite (sx : bool) (mx : positive) (ex : Z)
    (sc : bool) (mc : positive) (ec : Z) :
  let ez := Z.min ex ec in
  SFadd prec emax (S754_finite sx mx ex) (S754_finite sc mc ec)
  = binary_normalize prec emax
      (cond_Zopp sx (Zpos mx * 2 ^ (ex - ez)) + cond_Zopp sc (Zpos mc * 2 ^ (ec - ez)))
      ez false.
Proof.
  intros ez. cbn [SFadd]. fold ez.
  destruct (shl_align_spec mx ex ez) as [_ ->].
  destruct (shl_align_spec mc ec ez) as [_ ->].
  replace (Z.min ex ez) with ez by lia.
  replace (Z.min ec ez) with ez by lia.
  reflexivity.
Qed.

Lemma cond_Zopp_mul (s : bool) (a k : Z) : cond_Zopp s a * k = cond_Zopp s (a * k).
Proof. destruct s; cbn [cond_Zopp]; ring. Qed.

(** The order of two finite floats, as an order of their signed values. *)
Lemma signed_value_le (s1 : bool) (m1 : positive) (e1 : Z)
    (s2 : bool) (m2 : positive) (e2 e0 : Z) :
  valid_binary (S754_finite s1 m1 e1) = true ->
  valid_binary (S754_finite s2 m2 e2) = true ->
  SFleb (S754_finite s1 m1 e1) (S754_finite s2 m2 e2) = true ->
  e0 <= e1 -> e0 <= e2 ->
  cond_Zopp s1 (Zpos m1 * 2 ^ (e1 - e0)) <= cond_Zopp s2 (Zpos m2 * 2 ^ (e2 - e0)).
Proof.
  intros V1 V2 H H1 H2.
  pose proof (pow2_pos (e1 - e0) ltac:(lia)) as P1.
  pose proof (pow2_pos (e2 - e0) ltac:(lia)) as P2.
  destruct s1, s2; cbn [cond_Zopp].
  - rewrite <- SFleb_opp in H. cbn [SFopp negb] in H.
    pose proof (value_le m2 e2 m1 e1 e0 V2 V1 H H2 H1). lia.
  - nia.
  - discriminate H.
  - apply value_le; assumption.
Qed.

Lemma SFleb_refl (x : spec_float) : x <> S754_nan -> SFleb x x = true.
Proof.
  intros N. unfold SFleb, SFcompare.
  destruct x as [s | s | | s m e]; [reflexivity | destruct s; reflexivity | congruence |].
  rewrite Z.compare_refl, Pos.compare_cont_refl. destruct s; reflexivity.
Qed.

Lemma normalize_not_nan (M e : Z) :
  binary_normalize prec emax M e false <> S754_nan.
Proof.
  destruct M as [| m | m]; cbn [binary_normalize]; [discriminate | |].
  - destruct (binary_round_closed false m e) as [_ ->].
    unfold finish, check.
    destruct (_ =? 0); [discriminate |].
    destruct (_ =? 2 ^ 53); [destruct (_ <=? 971) | destruct (_ <=? 971)]; discriminate.
  - destruct (binary_round_closed true m e) as [_ ->].
    unfold finish, check.
    destruct (_ =? 0); [discriminate |].
    destruct (_ =? 2 ^ 53); [destruct (_ <=? 971) | destruct (_ <=? 971)]; discriminate.
Qed.

Lemma SFleb_infinity (x : spec_float) :
  x <> S754_nan ->
  SFleb (S754_infinity true) x = true /\ SFleb x (S754_infinity false) = true.
Proof.
  intros N. destruct x as [s | s | | s m e]; try congruence;
    split; try reflexivity; destruct s; reflexivity.
Qed.

(** Adding a finite number keeps the order. *)
Lemma SFadd_le (x y : spec_float) (sc : bool) (mc : positive) (ec : Z) :
  valid_binary x = true -> valid_binary y = true ->
  valid_binary (S754_finite sc mc ec) = true ->
  SFleb x y = true ->
  SFleb (SFadd prec emax x (S754_finite sc mc ec))
        (SFadd prec emax y (S754_finite sc mc ec)) = true.
Proof.
  intros Vx Vy Vc H.
  set (c := S754_finite sc mc ec) in *.
  assert (Nc : c <> S754_nan) by discriminate.
  destruct x as [sx | sx | | sx mx ex], y as [sy | sy | | sy my ey];
    try discriminate H.
  - (* zero, zero *) apply SFleb_refl, Nc.
  - (* zero, infinity *) destruct sy; [discriminate H | reflexivity].
  - (* zero, finite *)
    destruct sy; [discriminate H |].
    change (SFadd prec emax (S754_zero sx) c) with c.
    unfold c at 1. rewrite <- (normalize_finite sc mc ec Vc).
    unfold c. rewrite SFadd_finite.
    apply normalize_le with (E0 := Z.min ey ec); try lia.
    rewrite Z.mul_add_distr_r, !cond_Zopp_mul.
    rewrite <- !Z.mul_assoc, <- !pow2_add by lia.
    replace (ey - Z.min ey ec + (Z.min ey ec - Z.min ey ec)) with (ey - Z.min ey ec) by lia.
    replace (ec - Z.min ey ec + (Z.min ey ec - Z.min ey ec)) with (ec - Z.min ey ec) by lia.
    cbn [cond_Zopp].
    pose proof (pow2_pos (ey - Z.min ey ec) ltac:(lia)). nia.
  - (* infinity, zero *) destruct sx; [| discriminate H].
    apply SFleb_infinity, Nc.
  - (* infinity, infinity *) destruct sx, sy; try reflexivity; discriminate H.
  - (* infinity, finite *) destruct sx; [| destruct sy; discriminate H].
    unfold c. rewrite SFadd_finite. apply SFleb_infinity, normalize_not_nan.
  - (* finite, zero *)
    destruct sx; [| discriminate H].
    change (SFadd prec emax (S754_zero sy) c) with c.
    unfold c at 2. rewrite <- (normalize_finite sc mc ec Vc).
    unfold c. rewrite SFadd_finite.
    apply normalize_le with (E0 := Z.min ex ec); try lia.
    rewrite Z.mul_add_distr_r, !cond_Zopp_mul.
    rewrite <- !Z.mul_assoc, <- !pow2_add by lia.
    replace (ex - Z.min ex ec + (Z.min ex ec - Z.min ex ec)) with (ex - Z.min ex ec) by lia.
    replace (ec - Z.min ex ec + (Z.min ex ec - Z.min ex ec)) with (ec - Z.min ex ec) by lia.
    cbn [cond_Zopp].
    pose proof (pow2_pos (ex - Z.min ex ec) ltac:(lia)). nia.
  - (* finite, infinity *) destruct sy; [destruct sx; discriminate H |].
    unfold c. rewrite SFadd_finite. apply SFleb_infinity, normalize_not_nan.
  - (* finite, finite *)
    unfold c. rewrite !SFadd_finite.
    set (E0 := Z.min (Z.min ex ec) (Z.min ey ec)).
    apply normalize_le with (E0 := E0); try (subst E0; lia).
    pose proof (signed_value_le sx mx ex sy my ey E0 Vx Vy H
                  ltac:(subst E0; lia) ltac:(subst E0; lia)) as L.
    rewrite !Z.mul_add_distr_r, !cond_Zopp_mul.
    rewrite <- !Z.mul_assoc, <- !pow2_add by (subst E0; lia).
    replace (ex - Z.min ex ec + (Z.min ex ec - E0)) with (ex - E0) by lia.
    replace (ec - Z.min ex ec + (Z.min ex ec - E0)) with (ec - E0) by lia.
    replace (ey - Z.min ey ec + (Z.min ey ec - E0)) with (ey - E0) by lia.
    replace (ec - Z.min ey ec + (Z.min ey ec - E0)) with (ec - E0) by lia.
    lia.
Qed.

Lemma SFadd_comm_finite (x : spec_float) (sc : bool) (mc : positive) (ec : Z) :
  SFadd prec emax (S754_finite sc mc ec) x = SFadd prec emax x (S754_finite sc mc ec).
Proof.
  destruct x as [s | s | | s m e]; try reflexivity.
  rewrite !SFadd_finite. rewrite (Z.min_comm ec e), Z.add_comm. reflexivity.
Qed.

Lemma float_add_le (x y c : float) :
  PrimFloat.leb x y = true ->
  PrimFloat.ltb 0 c = true -> PrimFloat.ltb c infinity = true ->
  PrimFloat.leb (x + c) (y + c) = true /\ PrimFloat.leb (c + x) (c + y) = true.
Proof.
  intros H H0 Hi. destruct (positive_finite c H0 Hi) as (mc & ec & Ec).
  assert (Vc : valid_binary (S754_finite false mc ec) = true)
    by (rewrite <- Ec; apply Prim2SF_valid).
  rewrite leb_spec in *. rewrite !leb_spec, !add_spec, Ec. unfold SF64add.
  rewrite !SFadd_comm_finite.
  split; apply SFadd_le; try apply Prim2SF_valid; assumption.
Qed.

Lemma float_opp_le (x y : float) :
  PrimFloat.leb x y = true -> PrimFloat.leb (- y) (- x) = true.
Proof. rewrite !leb_spec, !opp_spec, SFleb_opp. trivial. Qed.

(** ** multiplying by minus one *)

Lemma binary_round_aux_opp (s : bool) (M E : Z) (L : location) :
  binary_round_aux prec emax (negb s) M E L
  = SFopp (binary_round_aux prec emax s M E L).
Proof.
  unfold binary_round_aux.
  destruct (shr_fexp prec emax M E L) as [mrs e'].
  destruct (shr_fexp prec emax _ e' loc_Exact) as [mrs' e''].
  destruct (shr_m mrs'); [reflexivity | | reflexivity].
  destruct (e'' <=? emax - prec); reflexivity.
Qed.

Lemma float_mul_minus_one (x : float) : (-1 * x)%float = (- x)%float.
Proof.
  rewrite float_mul_comm.
  apply Prim2SF_inj. rewrite mul_spec, opp_spec.
  rewrite <- (float_mul_one x) at 2. rewrite mul_spec.
  change (Prim2SF (-1)) with (S754_finite true 4503599627370496 (-52)).
  change (Prim2SF 1) with (S754_finite false 4503599627370496 (-52)).
  unfold SF64mul.
  destruct (Prim2SF x) as [s | s | | s m e]; try (destruct s; reflexivity);
    [reflexivity |].
  cbn [SFmul]. rewrite xorb_true_r, xorb_false_r.
  apply binary_round_aux_opp.
Qed.

End Binary64Order.

Section Binary64Properties.

Local Open Scope float_scope.

(** C1, as the code has it.  With [phaseSeparation = 0] the call signals
    nothing: it completes normally, the component gets a result and not
    [null], and in that result the mutual Maxwell coefficients [P_12] and
    [P_13] are [Infinity] (or [NaN], when the height is such that the image
    distance is zero or NaN).  Nor does any other input end in an
    exception. *)
Theorem zero_separation_returns (E : Engine) (p : LineParameters (Binary64 E)) :
  ecma_log E ->
  phaseSeparation p = 0 ->
  invoke p = Normal (calculateInductanceMatrix p) /\
  results p true = Some (calculateInductanceMatrix p) /\
  (exists P12 P13 : float,
    entry (maxwellMatrix (calculateInductanceMatrix p)) 0 1 = Some P12 /\
    entry (maxwellMatrix (calculateInductanceMatrix p)) 0 2 = Some P13 /\
    (P12 = infinity \/ P12 = nan) /\
    (P13 = infinity \/ P13 = nan)) /\
  (forall q : LineParameters (Binary64 E),
    results q true = Some (calculateInductanceMatrix q)).
Proof.
  intros (Hnan & Hinf & _) HS.
  split; [reflexivity |]. split; [reflexivity |].
  split; [| intros q; reflexivity].
  unfold_calc. destruct (_ || _); cbn [maxwellMatrix entry nth_error];
  rewrite HS; cbn [Math_log Math_sqrt Binary64 add mul div lit_2 lit_4];
  change (2 * 0) with 0;
  (do 2 eexists; split; [reflexivity |]; split; [reflexivity |]; split;
   [ destruct (sqrt_over_zero (4 * height p * height p + 0 * 0)) as [-> | ->]
   | destruct (sqrt_over_zero (4 * height p * height p + 4 * 0 * 0)) as [-> | ->] ];
   [left; exact Hinf | right; exact Hnan | left; exact Hinf | right; exact Hnan]).
Qed.

Lemma zero_separation_returns_witness :
  let p := with_phaseSeparation (J := Binary64 Reference.engine) defaultParams 0 in
  ecma_log Reference.engine /\
  phaseSeparation p = 0 /\
  results p true = Some (calculateInductanceMatrix p).
Proof.
  intros p.
  split; [exact reference_ecma_log |]. split; [reflexivity |].
  exact (proj1 (proj2 (zero_separation_returns Reference.engine p
                         reference_ecma_log eq_refl))).
Defined.

(** C1, as the claim has it, fails: the default parameters with
    [phaseSeparation = 0] are answered with a result, in which [P_12] and
    the average mutual inductance are [Infinity]. *)
Lemma zero_separation_counterexample :
  let p := with_phaseSeparation (J := Binary64 Reference.engine) defaultParams 0 in
  phaseSeparation p = 0 /\
  (forall error, invoke p <> Throw error) /\
  exists r,
    results p true = Some r /\
    entry (maxwellMatrix r) 0 1 = Some infinity /\
    mutualInductanceAvg r = infinity.
Proof.
  intros p.
  split; [reflexivity |]. split; [intros error; discriminate |].
  eexists. split; [reflexivity |]. split; vm_compute; reflexivity.
Qed.

(** C4, as the claim has it, fails: one conductor of 3.18 cm has the
    equivalent radius 0.01238292 m, and the plain radius is 0.0159 m. *)
Lemma plain_radius_counterexample :
  let p := with_numberOfBundles (J := Binary64 Reference.engine) defaultParams 1 in
  numberOfBundles p = 1 /\
  req (calculateInductanceMatrix p) = 0.012382920000000002 /\
  conductorDiameter p / 200 = 0.015900000000000001 /\
  req (calculateInductanceMatrix p) <> conductorDiameter p / 200.
Proof.
  intros p.
  split; [reflexivity |]. split; [vm_compute; reflexivity |].
  split; [vm_compute; reflexivity |].
  intros H.
  apply (f_equal (fun x => PrimFloat.eqb x 0.015900000000000001)) in H.
  vm_compute in H. discriminate.
Qed.

(** The radius [(d / 100) / 2] of the code and [d / 200] are the same real
    number and the same double at the default diameter
    ([equivalent_radius_single_witness]); as doubles they can differ in the
    last place when the quotient is subnormal, far below any diameter. *)
Example radius_double_rounding :
  1.285e-321 / 100 / 2 = 1e-323 /\ 1.285e-321 / 200 = 5e-324.
Proof. split; vm_compute; reflexivity. Qed.

(** C9, as the claim has it, fails in binary64: 14.75 m and the next
    height above it, 14.750000000000002 m, give the same quotient
    [2H / r_eq] for one conductor of 3.18 cm, hence the same
    [selfInductance], whatever the engine's [Math.log]. *)
Lemma height_counterexample :
  PrimFloat.ltb 14.75 14.750000000000002 = true /\
  2 * 14.75 / (3.18 / 100 / 2 * 0.7788) = 2382.3137030684197 /\
  2 * 14.750000000000002 / (3.18 / 100 / 2 * 0.7788) = 2382.3137030684197 /\
  forall E : Engine,
    let p1 := with_height (with_numberOfBundles (J := Binary64 E) defaultParams 1) 14.75 in
    let p2 := with_height p1 14.750000000000002 in
    selfInductance (calculateInductanceMatrix p2)
    = selfInductance (calculateInductanceMatrix p1) /\
    less (selfInductance (calculateInductanceMatrix p1))
         (selfInductance (calculateInductanceMatrix p2)) = false.
Proof.
  split; [reflexivity |].
  split; [vm_compute; reflexivity |]. split; [vm_compute; reflexivity |].
  intros E p1 p2.
  assert (Heq : selfInductance (calculateInductanceMatrix p2)
                = selfInductance (calculateInductanceMatrix p1)).
  { assert (Hq : 2 * 14.750000000000002 / (3.18 / 100 / 2 * 0.7788)
                 = 2 * 14.75 / (3.18 / 100 / 2 * 0.7788))
      by (vm_compute; reflexivity).
    exact (f_equal (fun q => engine_log E q * 0.2) Hq). }
  split; [exact Heq |].
  rewrite Heq. apply float_ltb_irrefl.
Qed.


(** The test of step 1 and the two parts of step 2 that read the height, in
    binary64. *)
Lemma single_radius_product (E : Engine) (p : LineParameters (Binary64 E)) :
  numberOfBundles p = 1 ->
  req (calculateInductanceMatrix p) = conductorDiameter p / 100 / 2 * 0.7788.
Proof.
  intros HN. unfold_calc.
  rewrite (@single_conductor_of_one _ (Binary64_laws E) p HN). reflexivity.
Qed.

Lemma req_with_height_binary64 (E : Engine) (p : LineParameters (Binary64 E))
    (h : float) :
  req (calculateInductanceMatrix (with_height p h))
  = req (calculateInductanceMatrix p).
Proof.
  unfold_calc. cbn [with_height numberOfBundles bundleSpacing conductorDiameter].
  destruct (_ || _); reflexivity.
Qed.

Lemma selfInductance_log (E : Engine) (p : LineParameters (Binary64 E)) :
  selfInductance (calculateInductanceMatrix p)
  = engine_log E (2 * height p / req (calculateInductanceMatrix p)) * 0.2.
Proof. unfold_calc. destruct (_ || _); reflexivity. Qed.

(** C4, as the code has it.  With [numberOfBundles = 1] the equivalent
    radius is not the plain conductor radius [(conductorDiameter / 100) / 2]
    but its product with 0.7788, rounded once.  For a plain radius that is
    finite and not negative the product is never larger than the plain
    radius, and it is strictly smaller as soon as the plain radius is at
    least three times the smallest positive double (below that the product
    rounds back to the plain radius, [single_radius_smallest]). *)
Theorem single_radius_is_scaled (E : Engine) (p : LineParameters (Binary64 E)) :
  let r := conductorDiameter p / 100 / 2 in
  numberOfBundles p = 1 ->
  PrimFloat.leb 0 r = true ->
  PrimFloat.ltb r infinity = true ->
  req (calculateInductanceMatrix p) = r * 0.7788 /\
  PrimFloat.leb (req (calculateInductanceMatrix p)) r = true /\
  (PrimFloat.leb 0x3p-1074 r = true ->
   PrimFloat.ltb (req (calculateInductanceMatrix p)) r = true).
Proof.
  intros r HN H0 Hi.
  rewrite (single_radius_product E p HN). fold r.
  split; [reflexivity |].
  exact (float_scaled_below r H0 Hi).
Qed.

(** The bound of three smallest doubles is sharp: at the two positive
    doubles below it the product with 0.7788 is the plain radius again. *)
Example single_radius_smallest :
  0x1p-1074 * 0.7788 = 0x1p-1074 /\ 0x2p-1074 * 0.7788 = 0x2p-1074 /\
  PrimFloat.ltb (0x3p-1074 * 0.7788) 0x3p-1074 = true.
Proof. repeat split; vm_compute; reflexivity. Qed.

(** C9, as the code has it.  Of two heights [H1 <= H2], all else the same
    and the equivalent radius positive and finite, the second never gives
    the smaller argument [2H / r_eq] to [Math.log]; hence it never gives the
    smaller [selfInductance], on an engine whose [Math.log] does not reverse
    the order of these two arguments.  More cannot be said: the arguments
    can be equal ([height_counterexample]). *)
Theorem selfInductance_nondecreasing (E : Engine)
    (p : LineParameters (Binary64 E)) (H2 : float) :
  let r1 := calculateInductanceMatrix p in
  let r2 := calculateInductanceMatrix (with_height p H2) in
  let arg (H : float) := 2 * H / req r1 in
  PrimFloat.ltb 0 (req r1) = true ->
  PrimFloat.ltb (req r1) infinity = true ->
  PrimFloat.leb (height p) H2 = true ->
  PrimFloat.leb (engine_log E (arg (height p))) (engine_log E (arg H2)) = true ->
  selfInductance r1 = engine_log E (arg (height p)) * 0.2 /\
  selfInductance r2 = engine_log E (arg H2) * 0.2 /\
  PrimFloat.leb (arg (height p)) (arg H2) = true /\
  PrimFloat.leb (selfInductance r1) (selfInductance r2) = true.
Proof.
  intros r1 r2 arg Hr0 Hri HH Hlog.
  assert (E1 : selfInductance r1 = engine_log E (arg (height p)) * 0.2)
    by apply selfInductance_log.
  assert (E2 : selfInductance r2 = engine_log E (arg H2) * 0.2).
  { subst r2. rewrite selfInductance_log, req_with_height_binary64. reflexivity. }
  split; [exact E1 |]. split; [exact E2 |]. split.
  - unfold arg. apply float_div_le; [| exact Hr0 | exact Hri].
    rewrite (float_mul_comm 2 (height p)), (float_mul_comm 2 H2).
    apply float_mul_le; [exact HH | reflexivity | reflexivity].
  - rewrite E1, E2. apply float_mul_le; [exact Hlog | reflexivity | reflexivity].
Qed.

End Binary64Properties.

(* ================================================================== *)
(** * The theorems at concrete parameters *)

Section Witnesses.

Lemma equivalent_radius_single_witness :
  let p := with_numberOfBundles (J := B64) defaultParams 1%float in
  numberOfBundles p = 1%float /\
  (3.18 / 100 / 2 = 3.18 / 200)%float /\
  req (calculateInductanceMatrix p) = (3.18 / 100 / 2 * 0.7788)%float.
Proof.
  intros p. split; [reflexivity |]. split; [reflexivity |].
  exact (@equivalent_radius_single B64 (Binary64_laws _) p eq_refl).
Defined.

Lemma equivalent_radius_bundle_witness :
  let p : LineParameters B64 := defaultParams in
  PrimFloat.leb 2 (numberOfBundles p) = true /\
  PrimFloat.ltb 0 (bundleSpacing p / 100) = true /\
  req (calculateInductanceMatrix p)
  = Reference.pow (2 * (3.18 / 100 / 2) * Reference.pow (45.72 / 100) (2 - 1)) (1 / 2).
Proof.
  intros p. split; [reflexivity |]. split; [reflexivity |].
  exact (@equivalent_radius_bundle B64 (Binary64_laws _) p eq_refl eq_refl).
Defined.

Lemma untransposed_scale_witness :
  let r := calculateInductanceMatrix (J := B64) defaultParams in
  (0 < 3)%nat /\ (1 < 3)%nat /\
  exists P : float,
    entry (maxwellMatrix r) 0 1 = Some P /\
    entry (inductanceUntransposed r) 0 1 = Some (0.2 * P)%float.
Proof.
  intros r. split; [lia |]. split; [lia |].
  exact (@untransposed_scale B64 (Binary64_laws _) defaultParams 0%nat 1%nat
           ltac:(lia) ltac:(lia)).
Defined.

Lemma maxwellMatrix_symmetric_witness :
  let P := maxwellMatrix (calculateInductanceMatrix (J := B64) defaultParams) in
  (0 < 3)%nat /\ (2 < 3)%nat /\
  exists v : float, entry P 0 2 = Some v /\ entry P 2 0 = Some v.
Proof.
  intros P. split; [lia |]. split; [lia |].
  exact (maxwellMatrix_symmetric (J := B64) defaultParams 0%nat 2%nat
           ltac:(lia) ltac:(lia)).
Defined.

Lemma transposed_entries_witness :
  let r := calculateInductanceMatrix (J := B64) defaultParams in
  (0 < 3)%nat /\ (1 < 3)%nat /\
  entry (inductanceTransposed r) 0 1 = Some (mutualInductanceAvg r).
Proof.
  intros r. split; [lia |]. split; [lia |].
  exact (proj1 (@transposed_entries B64 (Binary64_laws _) defaultParams)
               0%nat 1%nat ltac:(lia) ltac:(lia)).
Defined.

Lemma bundleSpacing_ignored_witness :
  let p1 := with_numberOfBundles (J := B64) defaultParams 1%float in
  let p2 := with_bundleSpacing p1 0%float in
  numberOfBundles p1 = 1%float /\
  numberOfBundles p2 = 1%float /\
  bundleSpacing p1 = 45.72%float /\
  bundleSpacing p2 = 0%float /\
  calculateInductanceMatrix p1 = calculateInductanceMatrix p2.
Proof.
  intros p1 p2. repeat (split; [reflexivity |]).
  exact (@bundleSpacing_ignored B64 (Binary64_laws _) p1 p2
           eq_refl eq_refl eq_refl eq_refl eq_refl).
Defined.

Lemma default_valid : valid defaultParams.
Proof. unfold valid; cbn. lra. Qed.

Lemma single_radius_is_scaled_witness :
  let p := with_numberOfBundles (J := B64) defaultParams 1%float in
  numberOfBundles p = 1%float /\
  PrimFloat.leb 0 (3.18 / 100 / 2) = true /\
  PrimFloat.ltb (3.18 / 100 / 2) infinity = true /\
  PrimFloat.leb 0x3p-1074 (3.18 / 100 / 2) = true /\
  PrimFloat.ltb (req (calculateInductanceMatrix p)) (3.18 / 100 / 2) = true.
Proof.
  intros p. repeat (split; [reflexivity |]).
  exact (proj2 (proj2 (single_radius_is_scaled Reference.engine p
                         eq_refl eq_refl eq_refl)) eq_refl).
Defined.

Lemma selfInductance_nondecreasing_witness :
  let p : LineParameters B64 := defaultParams in
  let r := req (calculateInductanceMatrix p) in
  PrimFloat.ltb 0 r = true /\
  PrimFloat.ltb r infinity = true /\
  PrimFloat.leb (height p) 20 = true /\
  PrimFloat.leb (Reference.log (2 * 15 / r)) (Reference.log (2 * 20 / r)) = true /\
  PrimFloat.leb (selfInductance (calculateInductanceMatrix p))
                (selfInductance (calculateInductanceMatrix (with_height p 20%float)))
  = true.
Proof.
  intros p r.
  assert (H1 : PrimFloat.ltb 0 r = true) by (vm_compute; reflexivity).
  assert (H2 : PrimFloat.ltb r infinity = true) by (vm_compute; reflexivity).
  assert (H3 : PrimFloat.leb (height p) 20 = true) by reflexivity.
  assert (H4 : PrimFloat.leb (Reference.log (2 * 15 / r))
                             (Reference.log (2 * 20 / r)) = true)
    by (vm_compute; reflexivity).
  repeat (split; [assumption |]).
  exact (proj2 (proj2 (proj2 (selfInductance_nondecreasing Reference.engine p 20
                                H1 H2 H3 H4)))).
Defined.

End Witnesses.


(* ================================================================== *)
(** * More of the calculator, in every arithmetic *)

Section CalculatorMore.

Context {J : Number}.
Local Open Scope js_scope.

(** X1.  The eight steps show the numbers that are returned: the value of
    each step is built from the fields of the result (the equivalent radius,
    the three Maxwell coefficients, the self inductance, the two mutual
    entries of the untransposed matrix and the average mutual inductance),
    and only the label of the first step depends on the branch taken. *)
Theorem steps_show_results (p : LineParameters J) :
  let r := calculateInductanceMatrix p in
  exists P11 P12 P13 L12 L13 : num,
    entry (maxwellMatrix r) 0 0 = Some P11 /\
    entry (maxwellMatrix r) 0 1 = Some P12 /\
    entry (maxwellMatrix r) 0 2 = Some P13 /\
    entry (inductanceUntransposed r) 0 1 = Some L12 /\
    entry (inductanceUntransposed r) 0 2 = Some L13 /\
    map value (steps r)
    = [ [Fixed (req r * lit_100) 4; Text " cm = "; Fixed (req r) 6; Text " m"];
        [Fixed P11 4];
        [Fixed P12 4];
        [Fixed P13 4];
        [Fixed (selfInductance r) 4; Text " mH/km"];
        [Fixed L12 4; Text " mH/km"];
        [Fixed L13 4; Text " mH/km"];
        [Fixed (mutualInductanceAvg r) 4; Text " mH/km"] ] /\
    map label (steps r)
    = (if (numberOfBundles p === lit_1) || (bundleSpacing p / lit_100 === lit_0)
       then "Equivalent Radius (Single Conductor)"%string
       else "Equivalent Radius (Bundle)"%string)
      :: [ "Self Maxwell Coefficient (P₁₁ = P₂₂ = P₃₃)";
           "Mutual Maxwell Coefficient (P₁₂ = P₂₃)";
           "Mutual Maxwell Coefficient (P₁₃)";
           "Self Inductance (L_s)";
           "Mutual Inductance (L₁₂ = L₂₃)";
           "Mutual Inductance (L₁₃)";
           "Average Mutual Inductance (Transposed)" ]%string.
Proof.
  unfold_calc. destruct (_ || _); cbn;
    do 5 eexists; repeat (split; [reflexivity |]); reflexivity.
Qed.

(** X2.  The untransposed inductance matrix is symmetric, its three diagonal
    entries are [selfInductance], and the three diagonal entries of the
    Maxwell matrix are one and the same coefficient. *)
Theorem untransposed_symmetric (p : LineParameters J) (i j : nat) :
  let r := calculateInductanceMatrix p in
  entry (inductanceUntransposed r) i j = entry (inductanceUntransposed r) j i /\
  entry (inductanceUntransposed r) 0 0 = Some (selfInductance r) /\
  entry (inductanceUntransposed r) 1 1 = Some (selfInductance r) /\
  entry (inductanceUntransposed r) 2 2 = Some (selfInductance r) /\
  entry (maxwellMatrix r) 1 1 = entry (maxwellMatrix r) 0 0 /\
  entry (maxwellMatrix r) 2 2 = entry (maxwellMatrix r) 0 0.
Proof.
  unfold_calc. destruct (_ || _); cbn;
    (split; [| repeat split; reflexivity]);
    destruct i as [| [| [| i]]]; destruct j as [| [| [| j]]]; cbn;
      try reflexivity;
      try (destruct i; reflexivity); try (destruct j; reflexivity);
      destruct i, j; reflexivity.
Qed.

(** X3.  The phase separation is read for the mutual coefficients only:
    changing it leaves the equivalent radius, the self coefficient and the
    self inductance as they were. *)
Theorem phaseSeparation_frame (p : LineParameters J) (s : num) :
  let r := calculateInductanceMatrix p in
  let r' := calculateInductanceMatrix (with_phaseSeparation p s) in
  req r' = req r /\
  entry (maxwellMatrix r') 0 0 = entry (maxwellMatrix r) 0 0 /\
  selfInductance r' = selfInductance r.
Proof.
  unfold_calc.
  cbn [with_phaseSeparation numberOfBundles bundleSpacing conductorDiameter height].
  destruct (_ || _); cbn; repeat split; reflexivity.
Qed.

(** X4.  The conductor is read for the self coefficient only: two lines of
    the same height and phase separation have the same mutual Maxwell
    coefficients and the same average mutual inductance, whatever their
    conductor diameter, bundle spacing and number of sub-conductors. *)
Theorem conductor_frame (p1 p2 : LineParameters J) :
  height p1 = height p2 ->
  phaseSeparation p1 = phaseSeparation p2 ->
  let r1 := calculateInductanceMatrix p1 in
  let r2 := calculateInductanceMatrix p2 in
  entry (maxwellMatrix r1) 0 1 = entry (maxwellMatrix r2) 0 1 /\
  entry (maxwellMatrix r1) 0 2 = entry (maxwellMatrix r2) 0 2 /\
  mutualInductanceAvg r1 = mutualInductanceAvg r2.
Proof.
  intros HH HS. unfold_calc. rewrite HH, HS.
  destruct (_ || _); destruct (_ || _); cbn; repeat split; reflexivity.
Qed.

End CalculatorMore.

Lemma conductor_frame_witness :
  let p1 := defaultParams (J := B64) in
  let p2 := with_conductorDiameter (with_numberOfBundles p1 2%float) 5%float in
  height p1 = height p2 /\
  phaseSeparation p1 = phaseSeparation p2 /\
  mutualInductanceAvg (calculateInductanceMatrix p1)
  = mutualInductanceAvg (calculateInductanceMatrix p2).
Proof.
  intros p1 p2.
  split; [reflexivity |]. split; [reflexivity |].
  exact (proj2 (proj2 (conductor_frame (J := B64) p1 p2 eq_refl eq_refl))).
Defined.

(* ================================================================== *)
(** * [formatMatrix] *)

Section FormatMatrix.

Context {J : Number}.

Lemma map_completion_normal {A B : Type} (f : A -> completion B) (g : A -> B)
    (l : list A) :
  (forall x, In x l -> f x = Normal (g x)) ->
  map_completion f l = Normal (map g l).
Proof.
  induction l as [| x l IH]; intros Hf; cbn.
  - reflexivity.
  - rewrite (Hf x (or_introl eq_refl)). cbn.
    rewrite IH by (intros y Hy; apply Hf; right; exact Hy).
    reflexivity.
Qed.

Lemma cell_map {A B : Type} (g : A -> B) (m : list (list A)) (i j : nat) :
  cell (map (map g) m) i j = option_map g (cell m i j).
Proof.
  unfold cell. rewrite nth_error_map.
  destruct (nth_error m i) as [row |]; cbn; [| reflexivity].
  apply nth_error_map.
Qed.

Lemma formatMatrix_map (m : matrix) (d : Z) :
  (0 <= d <= 100)%Z ->
  formatMatrix m (Some d)
  = Normal (map (map (fun val => [Fixed val (Z.to_nat d)])) m).
Proof.
  intros Hd. unfold formatMatrix.
  apply map_completion_normal. intros row _.
  apply map_completion_normal. intros val _.
  unfold call_toFixed.
  replace ((0 <=? d)%Z && (d <=? 100)%Z) with true; [reflexivity |].
  symmetry. apply andb_true_intro. split; apply Z.leb_le; lia.
Qed.

(** X5.  With a precision in 0..100, [formatMatrix] completes normally and
    returns a matrix of the same shape, the entry at each place being
    [toFixed(precision)] of the entry of the argument at that place; with no
    precision given it formats to 4 decimals. *)
Theorem formatMatrix_entries (m : matrix) (d : Z) :
  (0 <= d <= 100)%Z ->
  (exists M,
     formatMatrix m (Some d) = Normal M /\
     forall i j,
       cell M i j = option_map (fun val => [Fixed val (Z.to_nat d)]) (cell m i j)) /\
  formatMatrix m None = formatMatrix m (Some 4%Z).
Proof.
  intros Hd. split; [| reflexivity].
  eexists. split; [apply formatMatrix_map; exact Hd |].
  intros i j. apply cell_map.
Qed.

Lemma row_out_of_range (row : list num) (d : Z) :
  ~ (0 <= d <= 100)%Z ->
  map_completion (fun val => call_toFixed val d) row
  = match row with
    | [] => Normal []
    | _ :: _ => Throw "RangeError"
    end.
Proof.
  intros Hd. destruct row as [| val row]; cbn; [reflexivity |].
  unfold call_toFixed.
  replace ((0 <=? d)%Z && (d <=? 100)%Z) with false; [reflexivity |].
  symmetry. apply andb_false_iff.
  destruct (Z.leb_spec 0 d); [right | left; reflexivity].
  apply Z.leb_gt. lia.
Qed.

(** X6.  With a precision outside 0..100, [formatMatrix] throws the
    [RangeError] of [toFixed] exactly when the matrix has an entry; a matrix
    without entries (no rows, or empty rows only) is returned as it is. *)
Theorem formatMatrix_out_of_range (m : matrix) (d : Z) :
  ~ (0 <= d <= 100)%Z ->
  (formatMatrix m (Some d) = Throw "RangeError"
   <-> exists row, In row m /\ row <> []) /\
  ((forall row, In row m -> row = []) ->
   formatMatrix m (Some d) = Normal (map (fun _ => []) m)).
Proof.
  intros Hd. unfold formatMatrix.
  induction m as [| row m [IHthrow IHnormal]]; cbn.
  - split; [split |].
    + discriminate.
    + intros (row & [] & _).
    + reflexivity.
  - rewrite (row_out_of_range row d Hd).
    destruct row as [| val row]; cbn.
    + split; [split |].
      * intros Hthrow.
        destruct (map_completion _ m) eqn:Em; cbn in Hthrow; [discriminate |].
        destruct (proj1 IHthrow) as (row' & Hin & Hne).
        { rewrite <- Hthrow. reflexivity. }
        exists row'. split; [right; exact Hin | exact Hne].
      * intros (row' & [<- | Hin] & Hne); [contradiction Hne; reflexivity |].
        rewrite (proj2 IHthrow (ex_intro _ row' (conj Hin Hne))). reflexivity.
      * intros Hall.
        rewrite IHnormal by (intros r Hr; apply Hall; right; exact Hr).
        reflexivity.
    + split; [split |].
      * intros _. exists (val :: row). split; [left; reflexivity | discriminate].
      * reflexivity.
      * intros Hall. discriminate (Hall (val :: row) (or_introl eq_refl)).
Qed.

(** X7.  What the component displays: formatting any of the three matrices
    of a result with the default precision never throws, and the three
    formatted matrices are symmetric. *)
Theorem displayed_matrices (p : LineParameters J) :
  let r := calculateInductanceMatrix p in
  exists P L T,
    formatMatrix (maxwellMatrix r) None = Normal P /\
    formatMatrix (inductanceUntransposed r) None = Normal L /\
    formatMatrix (inductanceTransposed r) None = Normal T /\
    forall i j,
      cell P i j = cell P j i /\
      cell L i j = cell L j i /\
      cell T i j = cell T j i.
Proof.
  intros r.
  assert (H4 : (0 <= 4 <= 100)%Z) by lia.
  do 3 eexists.
  split; [exact (formatMatrix_map _ 4 H4) |].
  split; [exact (formatMatrix_map _ 4 H4) |].
  split; [exact (formatMatrix_map _ 4 H4) |].
  intros i j. rewrite !cell_map. subst r.
  unfold_calc. destruct (_ || _); cbn;
    destruct i as [| [| [| i]]]; destruct j as [| [| [| j]]]; cbn;
      try (repeat split; reflexivity);
      try (destruct i; repeat split; reflexivity);
      try (destruct j; repeat split; reflexivity);
      destruct i, j; repeat split; reflexivity.
Qed.

End FormatMatrix.

Lemma formatMatrix_entries_witness :
  (0 <= 2 <= 100)%Z /\
  formatMatrix (J := B64) [ [1%float; 2%float]; [3%float] ] None
  = formatMatrix (J := B64) [ [1%float; 2%float]; [3%float] ] (Some 4%Z).
Proof.
  split; [lia |].
  exact (proj2 (formatMatrix_entries (J := B64)
                  [ [1%float; 2%float]; [3%float] ] 2 ltac:(lia))).
Defined.

Lemma formatMatrix_out_of_range_witness :
  ~ (0 <= 101 <= 100)%Z /\
  formatMatrix (J := B64) [ []; [] ] (Some 101%Z) = Normal [ []; [] ] /\
  formatMatrix (J := B64) [ []; [1%float] ] (Some 101%Z) = Throw "RangeError".
Proof.
  assert (H : ~ (0 <= 101 <= 100)%Z) by lia.
  split; [exact H |]. split.
  - apply (proj2 (formatMatrix_out_of_range (J := B64) [ []; [] ] 101 H)).
    intros row [<- | [<- | []]]; reflexivity.
  - reflexivity.
Defined.

(* ================================================================== *)
(** * The component's state *)

Section ComponentProperties.

Context {J : Number}.

Lemma key_eq_dec (k k' : key) : {k = k'} + {k <> k'}.
Proof. decide equality. Defined.

(** X8.  [{ ...prev, [key]: value }] sets the field named and no other:
    reading the key gives the value, every other key reads as before,
    writing back what was read changes nothing, and of two writes to one key
    the second stands. *)
Theorem spread_field (prev : LineParameters J) (k k' : key) (v w : num) :
  k <> k' ->
  field (spread prev k v) k = v /\
  field (spread prev k v) k' = field prev k' /\
  spread prev k (field prev k) = prev /\
  spread (spread prev k v) k w = spread prev k w /\
  spread (spread prev k v) k' w = spread (spread prev k' w) k v.
Proof.
  intros Hk. destruct prev as [H S d B N].
  destruct k, k'; try (contradiction Hk; reflexivity);
    cbn; repeat split; reflexivity.
Qed.

Lemma run_app (s : State J) (actions : list (action J)) (a : action J) :
  run s (actions ++ [a]) = act (run s actions) a.
Proof. unfold run. rewrite fold_left_app. reflexivity. Qed.

(** X9.  A result is on screen exactly when the last thing done was
    Calculate, and it is then the result for the parameters held at that
    moment: after an edit or a reset nothing is shown, so no result is ever
    shown for parameters other than the current ones.  A reset restores the
    default parameters whatever came before. *)
Theorem shown_after (s : State J) (actions : list (action J)) (a : action J) :
  shown (run s (actions ++ [a]))
  = match a with
    | Calculate => Some (calculateInductanceMatrix (params (run s actions)))
    | _ => None
    end /\
  params (run s (actions ++ [Reset])) = defaultParams /\
  shown (@initialState J) = None.
Proof.
  rewrite !run_app. split; [| split; reflexivity].
  destruct a; reflexivity.
Qed.

End ComponentProperties.

Lemma spread_field_witness :
  key_height <> key_phaseSeparation /\
  field (spread (J := B64) defaultParams key_height 20%float) key_phaseSeparation
  = 11%float.
Proof.
  assert (H : key_height <> key_phaseSeparation) by discriminate.
  split; [exact H |].
  exact (proj1 (proj2 (spread_field (J := B64) defaultParams
                         key_height key_phaseSeparation 20%float 0%float H))).
Defined.

(* ================================================================== *)
(** * More of the calculator, in binary64 *)

Section Binary64More.

Local Open Scope float_scope.

Lemma Prim2SF_nan (x : float) : Prim2SF x = S754_nan <-> is_nan x = true.
Proof.
  unfold Prim2SF. destruct (is_nan x); [split; reflexivity |].
  split; [| discriminate].
  destruct (is_zero x); [discriminate |].
  destruct (is_infinity x); [discriminate |].
  destruct (Z.frexp x) as [r e].
  destruct (shr_fexp prec emax _ _ _) as [shr e'].
  destruct (shr_m shr); discriminate.
Qed.

Lemma is_nan_false (x : float) : Prim2SF x <> S754_nan -> is_nan x = false.
Proof.
  intros H. destruct (is_nan x) eqn:E; [| reflexivity].
  contradiction H. apply Prim2SF_nan. exact E.
Qed.

Lemma float_is_nan (x : float) : is_nan x = true -> x = nan.
Proof.
  intros H. apply Prim2SF_inj. apply Prim2SF_nan in H. rewrite H. reflexivity.
Qed.

(** An operation with a [NaN] operand gives [NaN]. *)
Lemma mul_nan_l (x : float) : nan * x = nan.
Proof.
  apply Prim2SF_inj. rewrite mul_spec.
  change (Prim2SF nan) with S754_nan. reflexivity.
Qed.

Lemma div_nan_l (x : float) : nan / x = nan.
Proof.
  apply Prim2SF_inj. rewrite div_spec.
  change (Prim2SF nan) with S754_nan. reflexivity.
Qed.

Lemma add_nan_l (x : float) : nan + x = nan.
Proof.
  apply Prim2SF_inj. rewrite add_spec.
  change (Prim2SF nan) with S754_nan. reflexivity.
Qed.

(** [0 / y] is a zero, or [NaN] when [y] is a zero or [NaN]. *)
Lemma zero_over (y : float) : 0 / y = 0 \/ 0 / y = -0 \/ 0 / y = nan.
Proof.
  assert (H : Prim2SF (0 / y) = S754_zero false \/
              Prim2SF (0 / y) = S754_zero true \/
              Prim2SF (0 / y) = S754_nan).
  { rewrite div_spec. change (Prim2SF 0) with (S754_zero false).
    unfold SF64div, SFdiv.
    destruct (Prim2SF y) as [s | s | | s m e]; try destruct s; cbn; auto. }
  destruct H as [H | [H | H]]; [left | right; left | right; right];
    apply Prim2SF_inj; rewrite H; reflexivity.
Qed.

(** X14.  A height of 0 is answered, not refused: the self coefficient is
    [Math.log] of a zero, so [selfInductance] comes back as [-Infinity] (or
    as [NaN], when the equivalent radius is itself zero or [NaN]). *)
Theorem zero_height_returns (E : Engine) (p : LineParameters (Binary64 E)) :
  ecma_log E ->
  height p = 0 ->
  selfInductance (calculateInductanceMatrix p) = neg_infinity \/
  selfInductance (calculateInductanceMatrix p) = nan.
Proof.
  intros (Hnan & _ & Hz & Hmz & _) HH.
  unfold_calc. destruct (_ || _); cbn [selfInductance];
    rewrite HH; cbn [Math_log Binary64 mul div lit_2 COEFFICIENT lit_0_2];
    change (2 * 0) with 0;
    match goal with
    | |- context [0 / ?y] =>
        destruct (zero_over y) as [-> | [-> | ->]]
    end;
    rewrite ?Hz, ?Hmz, ?Hnan; auto.
Qed.

(** X15.  A [NaN] height is not turned into a number: every entry of the
    Maxwell matrix, the self inductance and the average mutual inductance
    are [NaN]. *)
Theorem nan_height_propagates (E : Engine) (p : LineParameters (Binary64 E)) :
  ecma_log E ->
  height p = nan ->
  let r := calculateInductanceMatrix p in
  maxwellMatrix r = [ [nan; nan; nan]; [nan; nan; nan]; [nan; nan; nan] ] /\
  selfInductance r = nan /\
  mutualInductanceAvg r = nan.
Proof.
  intros (Hnan & _) HH.
  unfold_calc. destruct (_ || _);
    cbn [maxwellMatrix selfInductance mutualInductanceAvg];
    rewrite HH;
    cbn [Math_log Math_sqrt Binary64 add mul div lit_2 lit_3 lit_4
         COEFFICIENT lit_0_2];
    change (2 * nan) with nan; change (4 * nan * nan) with nan;
    rewrite !add_nan_l; change (PrimFloat.sqrt nan) with nan;
    rewrite !div_nan_l, !Hnan;
    repeat split; reflexivity.
Qed.

(** X13.  With one conductor per bundle, a larger conductor diameter never
    gives the smaller equivalent radius; with a positive height and
    equivalent radii that are positive and finite it never gives the larger
    argument [2H / r_eq] to [Math.log], hence never the larger
    [selfInductance], on an engine whose [Math.log] does not reverse the
    order of these two arguments. *)
Theorem selfInductance_nonincreasing (E : Engine)
    (p : LineParameters (Binary64 E)) (d2 : float) :
  let r1 := calculateInductanceMatrix p in
  let r2 := calculateInductanceMatrix (with_conductorDiameter p d2) in
  let arg (r : CalculationResults (Binary64 E)) := 2 * height p / req r in
  numberOfBundles p = 1 ->
  PrimFloat.leb (conductorDiameter p) d2 = true ->
  PrimFloat.ltb 0 (2 * height p) = true ->
  PrimFloat.ltb 0 (req r1) = true ->
  PrimFloat.ltb (req r2) infinity = true ->
  PrimFloat.leb (engine_log E (arg r2)) (engine_log E (arg r1)) = true ->
  PrimFloat.leb (req r1) (req r2) = true /\
  PrimFloat.leb (arg r2) (arg r1) = true /\
  PrimFloat.leb (selfInductance r2) (selfInductance r1) = true.
Proof.
  intros r1 r2 arg HN Hd HH Hr1 Hr2 Hlog.
  assert (Hreq : PrimFloat.leb (req r1) (req r2) = true).
  { subst r1 r2. rewrite !single_radius_product by exact HN.
    cbn [with_conductorDiameter conductorDiameter].
    apply float_mul_le; [| reflexivity | reflexivity].
    apply float_div_le; [| reflexivity | reflexivity].
    apply float_div_le; [exact Hd | reflexivity | reflexivity]. }
  split; [exact Hreq |]. split.
  - unfold arg. apply float_div_le_divisor; assumption.
  - subst r1 r2. rewrite !selfInductance_log.
    cbn [with_conductorDiameter height].
    apply float_mul_le; [exact Hlog | reflexivity | reflexivity].
Qed.

End Binary64More.

Lemma zero_height_returns_witness :
  let p := with_height (J := B64) defaultParams 0%float in
  ecma_log Reference.engine /\
  height p = 0%float /\
  selfInductance (calculateInductanceMatrix p) = neg_infinity.
Proof.
  intros p.
  split; [exact reference_ecma_log |]. split; [reflexivity |].
  destruct (zero_height_returns Reference.engine p reference_ecma_log eq_refl)
    as [H | H]; [exact H |].
  vm_compute in H. discriminate H.
Defined.

Lemma nan_height_propagates_witness :
  let p := with_height (J := B64) defaultParams nan in
  ecma_log Reference.engine /\
  height p = nan /\
  selfInductance (calculateInductanceMatrix p) = nan.
Proof.
  intros p.
  split; [exact reference_ecma_log |]. split; [reflexivity |].
  exact (proj1 (proj2 (nan_height_propagates Reference.engine p
                         reference_ecma_log eq_refl))).
Defined.

Lemma selfInductance_nonincreasing_witness :
  let p := with_numberOfBundles (J := B64) defaultParams 1%float in
  let r1 := req (calculateInductanceMatrix p) in
  let r2 := req (calculateInductanceMatrix (with_conductorDiameter p 5%float)) in
  numberOfBundles p = 1%float /\
  PrimFloat.leb (conductorDiameter p) 5 = true /\
  PrimFloat.ltb 0 (2 * height p) = true /\
  PrimFloat.ltb 0 r1 = true /\
  PrimFloat.ltb r2 infinity = true /\
  PrimFloat.leb (Reference.log (2 * 15 / r2)) (Reference.log (2 * 15 / r1)) = true /\
  PrimFloat.leb
    (selfInductance (calculateInductanceMatrix (with_conductorDiameter p 5%float)))
    (selfInductance (calculateInductanceMatrix p)) = true.
Proof.
  intros p r1 r2.
  assert (H4 : PrimFloat.leb (Reference.log (2 * 15 / r2))
                             (Reference.log (2 * 15 / r1)) = true)
    by (vm_compute; reflexivity).
  repeat (split; [first [reflexivity | assumption] |]).
  exact (proj2 (proj2 (selfInductance_nonincreasing Reference.engine p 5
                         eq_refl eq_refl eq_refl eq_refl eq_refl H4))).
Defined.

(* ================================================================== *)
(** * The form *)

Section FormProperties.

Local Open Scope float_scope.

(** Shifting a record right keeps a significand that is not negative so. *)
Lemma shr_1_nonneg (mrs : shr_record) :
  (0 <= shr_m mrs)%Z -> (0 <= shr_m (shr_1 mrs))%Z.
Proof.
  destruct mrs as [m r s]. cbn [shr_m]. intros Hm. unfold shr_1.
  destruct m as [| q | q]; [cbn; lia | | lia].
  destruct q; cbn; lia.
Qed.

Lemma iter_shr_1_nonneg (n : positive) : forall mrs : shr_record,
  (0 <= shr_m mrs)%Z -> (0 <= shr_m (iter_pos shr_1 n mrs))%Z.
Proof.
  induction n as [n IH | n IH |]; intros mrs Hm; cbn [iter_pos].
  - apply IH, IH, shr_1_nonneg, Hm.
  - apply IH, IH, Hm.
  - apply shr_1_nonneg, Hm.
Qed.

Lemma shr_fexp_nonneg (m e : Z) (l : location) :
  (0 <= m)%Z -> (0 <= shr_m (fst (shr_fexp prec emax m e l)))%Z.
Proof.
  intros Hm. unfold shr_fexp, shr.
  assert (H0 : (0 <= shr_m (shr_record_of_loc m l))%Z).
  { destruct l as [| []]; exact Hm. }
  destruct (fexp prec emax (Zdigits2 m + e) - e)%Z; cbn [fst];
    [exact H0 | apply iter_shr_1_nonneg; exact H0 | exact H0].
Qed.

Lemma round_nearest_even_nonneg (m : Z) (l : location) :
  (0 <= m)%Z -> (0 <= round_nearest_even m l)%Z.
Proof.
  intros Hm. unfold round_nearest_even.
  destruct l as [| []]; try destruct (Z.even m); lia.
Qed.

(** Rounding a significand that is not negative never yields [NaN]. *)
Lemma binary_round_aux_not_nan (s : bool) (m e : Z) (l : location) :
  (0 <= m)%Z -> binary_round_aux prec emax s m e l <> S754_nan.
Proof.
  intros Hm. unfold binary_round_aux.
  pose proof (shr_fexp_nonneg m e l Hm) as H1.
  destruct (shr_fexp prec emax m e l) as [mrs e']. cbn [fst] in H1.
  pose proof (shr_fexp_nonneg _ e' loc_Exact
                (round_nearest_even_nonneg _ (loc_of_shr_record mrs) H1)) as H2.
  destruct (shr_fexp prec emax _ e' loc_Exact) as [mrs' e'']. cbn [fst] in H2.
  destruct (shr_m mrs') as [| q | q]; [discriminate | | lia].
  destruct (Z.leb e'' (emax - prec)); discriminate.
Qed.

Lemma of_uint63_not_nan (i : PrimInt63.int) : is_nan (of_uint63 i) = false.
Proof.
  apply is_nan_false. rewrite of_uint63_spec.
  unfold binary_normalize.
  destruct (Uint63Axioms.to_Z i) as [| q | q]; [discriminate | |];
    unfold binary_round;
    destruct (shl_align q 0 _) as [mz ez];
    apply binary_round_aux_not_nan; lia.
Qed.

Lemma opp_not_nan (x : float) : is_nan x = false -> is_nan (- x) = false.
Proof.
  intros Hx. apply is_nan_false. rewrite opp_spec.
  intros H. destruct (Prim2SF x) eqn:Ex; try discriminate H.
  apply Prim2SF_nan in Ex. congruence.
Qed.

Lemma float_of_Z_not_nan (z : Z) : is_nan (Reference.float_of_Z z) = false.
Proof.
  destruct z as [| q | q]; cbn [Reference.float_of_Z].
  - reflexivity.
  - apply of_uint63_not_nan.
  - apply opp_not_nan, of_uint63_not_nan.
Qed.

(** [Math.round] of a number is a number. *)
Lemma Math_round_not_nan (x : float) :
  is_nan x = false -> is_nan (Form.Math_round x) = false.
Proof.
  intros Hx. unfold Form.Math_round.
  destruct (Prim2SF x) as [s | s | | s m e]; try exact Hx.
  destruct e as [| q | q]; try exact Hx.
  cbv zeta.
  destruct ((_ + _) / _)%Z as [| n | n].
  - destruct s; reflexivity.
  - apply float_of_Z_not_nan.
  - apply float_of_Z_not_nan.
Qed.

Lemma InputField_onChange_not_nan (parsed : float) :
  is_nan (Form.InputField_onChange parsed) = false.
Proof.
  unfold Form.InputField_onChange, Form.ToBoolean.
  destruct (is_nan parsed) eqn:En; cbn; [reflexivity |].
  destruct (PrimFloat.eqb parsed 0); cbn; [reflexivity | exact En].
Qed.

Lemma ltb_leb (x y : float) : PrimFloat.ltb x y = true -> PrimFloat.leb x y = true.
Proof.
  rewrite ltb_spec, leb_spec. unfold SFltb, SFleb.
  destruct (SFcompare (Prim2SF x) (Prim2SF y)) as [[| |] |]; congruence.
Qed.

(** [Math.max(1, y)] of a number [y]: [y] if it is above 1, else 1. *)
Lemma Math_max_1 (y : float) :
  is_nan y = false ->
  Form.Math_max 1 y = if PrimFloat.ltb 1 y then y else 1.
Proof.
  intros Hy. unfold Form.Math_max. rewrite Hy.
  change (is_nan 1 || false) with false. cbv beta iota zeta.
  change (PrimFloat.ltb neg_infinity 1) with true.
  cbv beta iota. rewrite orb_true_l. cbv iota.
  change (get_sign 1) with false.
  rewrite andb_false_r, orb_false_r. reflexivity.
Qed.

Lemma handed_number (v : float) :
  is_nan v = false ->
  is_nan (Form.Math_max 1 (Form.Math_round v)) = false /\
  PrimFloat.leb 1 (Form.Math_max 1 (Form.Math_round v)) = true.
Proof.
  intros Hv.
  pose proof (Math_round_not_nan v Hv) as Hr.
  rewrite (Math_max_1 _ Hr).
  destruct (PrimFloat.ltb 1 _) eqn:Elt.
  - split; [exact Hr | apply ltb_leb; exact Elt].
  - split; reflexivity.
Qed.

(** X16.  Whatever is typed into the field for the number of sub-conductors
    (unparsable text included), the number handed to [updateParam] is a
    number and is at least 1. *)
Theorem numberOfBundles_at_least_1 (parsed : float) :
  let N := Form.handed_on key_numberOfBundles (Form.InputField_onChange parsed) in
  is_nan N = false /\ PrimFloat.leb 1 N = true.
Proof.
  cbn [Form.handed_on].
  apply handed_number, InputField_onChange_not_nan.
Qed.

End FormProperties.

Section FormSessions.

Local Open Scope float_scope.

Context {E : Engine}.

(** What every state of a session satisfies. *)
Local Abbreviation Inv s :=
  ((forall k, is_nan (field (params s) k) = false) /\
   PrimFloat.leb 1 (numberOfBundles (params s)) = true).

Lemma handed_on_not_nan (k : key) (parsed : float) :
  is_nan (Form.handed_on k (Form.InputField_onChange parsed)) = false.
Proof.
  destruct k; try apply InputField_onChange_not_nan.
  apply handed_number, InputField_onChange_not_nan.
Qed.

Lemma spread_not_nan (p : LineParameters (Binary64 E)) (k : key) (v : float) :
  (forall k', is_nan (field p k') = false) ->
  is_nan v = false ->
  forall k', is_nan (field (spread p k v) k') = false.
Proof.
  intros Hp Hv k'.
  pose proof (Hp key_height). pose proof (Hp key_phaseSeparation).
  pose proof (Hp key_conductorDiameter). pose proof (Hp key_bundleSpacing).
  pose proof (Hp key_numberOfBundles).
  destruct k, k'; cbn in *; assumption.
Qed.

Lemma on_event_invariant (s : State (Binary64 E)) (ev : Form.event) :
  Inv s -> Inv (Form.on_event s ev).
Proof.
  intros [Hnan HN]. destruct ev as [k parsed | |]; cbn [Form.on_event].
  - destruct (Form.rendered s k); [| split; assumption].
    split.
    + cbn [params updateParam].
      apply spread_not_nan; [exact Hnan | apply handed_on_not_nan].
    + cbn [params updateParam].
      destruct k; cbn [spread with_height with_phaseSeparation
                       with_conductorDiameter with_bundleSpacing
                       with_numberOfBundles numberOfBundles]; try exact HN.
      apply handed_number, InputField_onChange_not_nan.
  - split; assumption.
  - split; [intros k; destruct k; reflexivity | reflexivity].
Qed.

Lemma events_invariant (events : list Form.event) : forall s : State (Binary64 E),
  Inv s -> Inv (fold_left Form.on_event events s).
Proof.
  induction events as [| ev events IH]; intros s Hs; cbn [fold_left].
  - exact Hs.
  - apply IH, on_event_invariant, Hs.
Qed.

(** X17.  In every state the form can reach, whatever was typed and clicked,
    no parameter is [NaN] and the number of sub-conductors is at least 1.
    (Nothing keeps the other four parameters positive: the [min] of a field
    is not enforced.) *)
Theorem session_invariant (events : list Form.event) :
  let s := Form.session (E := E) events in
  (forall k, is_nan (field (params s) k) = false) /\
  PrimFloat.leb 1 (numberOfBundles (params s)) = true.
Proof.
  apply events_invariant.
  split; [intros k; destruct k; reflexivity | reflexivity].
Qed.

Lemma zero_separation_P12 (p : LineParameters (Binary64 E)) :
  ecma_log E ->
  phaseSeparation p = 0 ->
  exists P12 : float,
    entry (maxwellMatrix (calculateInductanceMatrix p)) 0 1 = Some P12 /\
    (P12 = infinity \/ P12 = nan).
Proof.
  intros (Hnan & Hinf & _) HS.
  unfold_calc. destruct (_ || _); cbn [maxwellMatrix entry nth_error];
    rewrite HS; cbn [Math_log Math_sqrt Binary64 add mul div lit_4];
    (eexists; split; [reflexivity |]);
    destruct (sqrt_over_zero (4 * height p * height p + 0 * 0)) as [-> | ->];
    [left; exact Hinf | right; exact Hnan | left; exact Hinf | right; exact Hnan].
Qed.

(** X18.  Emptying the phase-separation field and clicking Calculate puts a
    result on screen, computed with a phase separation of 0: text that
    [parseFloat] cannot read (or reads as zero) is taken as 0, nothing stands
    in the way of the call, and the result shown has [P_12 = Infinity] (or
    [NaN]). *)
Theorem emptied_separation_is_calculated
    (s : State (Binary64 E)) (parsed : float) :
  ecma_log E ->
  Form.ToBoolean parsed = false ->
  let s' := Form.on_event (Form.on_event s (Form.Typed key_phaseSeparation parsed))
                          Form.Click_Calculate in
  phaseSeparation (params s') = 0 /\
  exists r P12,
    shown s' = Some r /\
    entry (maxwellMatrix r) 0 1 = Some P12 /\
    (P12 = infinity \/ P12 = nan).
Proof.
  intros HE Hp s'.
  assert (HS : phaseSeparation (params s') = 0).
  { subst s'. cbn. unfold Form.InputField_onChange. rewrite Hp. reflexivity. }
  split; [exact HS |].
  destruct (zero_separation_P12 (params s') HE HS) as (P12 & E12 & H12).
  exists (calculateInductanceMatrix (params s')), P12.
  split; [reflexivity |]. split; assumption.
Qed.

(** X19.  With a bundle spacing of 0 the number of sub-conductors is not
    read: two parameter records with bundle spacing 0 that agree on height,
    phase separation and conductor diameter give the same results. *)
Theorem numberOfBundles_ignored (p1 p2 : LineParameters (Binary64 E)) :
  bundleSpacing p1 = 0 ->
  bundleSpacing p2 = 0 ->
  height p1 = height p2 ->
  phaseSeparation p1 = phaseSeparation p2 ->
  conductorDiameter p1 = conductorDiameter p2 ->
  calculateInductanceMatrix p1 = calculateInductanceMatrix p2.
Proof.
  intros B1 B2 HH HS Hd. unfold_calc.
  rewrite B1, B2, HH, HS, Hd.
  cbn [div strict_eq lit_0 lit_100 Binary64].
  change (PrimFloat.eqb (0 / 100) 0) with true.
  rewrite !orb_true_r. reflexivity.
Qed.

End FormSessions.

Lemma emptied_separation_is_calculated_witness :
  let s' := Form.on_event
              (Form.on_event (initialState (J := B64))
                             (Form.Typed key_phaseSeparation nan))
              Form.Click_Calculate in
  ecma_log Reference.engine /\
  Form.ToBoolean nan = false /\
  phaseSeparation (params s') = 0%float /\
  exists r P12,
    shown s' = Some r /\
    entry (maxwellMatrix r) 0 1 = Some P12 /\
    (P12 = infinity \/ P12 = nan).
Proof.
  intros s'.
  split; [exact reference_ecma_log |]. split; [reflexivity |].
  exact (emptied_separation_is_calculated (E := Reference.engine)
           initialState nan reference_ecma_log eq_refl).
Defined.

Lemma numberOfBundles_ignored_witness :
  let p1 := with_bundleSpacing (J := B64) defaultParams 0%float in
  let p2 := with_numberOfBundles p1 4%float in
  bundleSpacing p1 = 0%float /\
  bundleSpacing p2 = 0%float /\
  height p1 = height p2 /\
  phaseSeparation p1 = phaseSeparation p2 /\
  conductorDiameter p1 = conductorDiameter p2 /\
  calculateInductanceMatrix p1 = calculateInductanceMatrix p2.
Proof.
  intros p1 p2.
  repeat (split; [reflexivity |]).
  exact (numberOfBundles_ignored (E := Reference.engine) p1 p2
           eq_refl eq_refl eq_refl eq_refl eq_refl).
Defined.

(* ================================================================== *)
(** * The diagram *)

Section Diagram.

Local Open Scope float_scope.

Import LineDiagram.

Lemma leb_not_nan (x y : float) :
  PrimFloat.leb x y = true -> is_nan x = false /\ is_nan y = false.
Proof.
  intros H. apply leb_rank in H. destruct H as (Nx & Ny & _).
  split; apply is_nan_false; assumption.
Qed.

Lemma leb_not_ltb (x y : float) :
  PrimFloat.leb x y = true -> PrimFloat.ltb y x = false.
Proof.
  intros H. destruct (PrimFloat.ltb y x) eqn:L; [| reflexivity].
  apply leb_rank in H. apply ltb_rank in L.
  destruct H as (_ & _ & H), L as (_ & _ & L). lia.
Qed.

Lemma Math_min_1 (q : float) :
  PrimFloat.leb 1 q = true -> Math_min 1 q = 1.
Proof.
  intros H. unfold Math_min.
  destruct (leb_not_nan _ _ H) as [_ Nq]. rewrite Nq.
  change (is_nan 1) with false. cbn [orb]. cbv zeta.
  change (PrimFloat.ltb 1 infinity) with true. cbn [orb].
  rewrite (leb_not_ltb _ _ H).
  change (PrimFloat.eqb 1 0) with false.
  rewrite andb_false_r, andb_false_l. reflexivity.
Qed.

(** Up to 70 m the denominator [2 * separation + 40] is at most 180. *)
Lemma scale_one (sep : float) :
  PrimFloat.leb 0 sep = true -> PrimFloat.leb sep 70 = true -> scale sep = 1.
Proof.
  intros H0 H70. unfold scale.
  assert (A : forall a b, PrimFloat.leb a b = true ->
                PrimFloat.leb (2 * a + 40) (2 * b + 40) = true).
  { intros a b L. apply float_add_le; [| reflexivity | reflexivity].
    rewrite (float_mul_comm 2 a), (float_mul_comm 2 b).
    apply float_mul_le; [exact L | reflexivity | reflexivity]. }
  pose proof (A _ _ H0) as L40. pose proof (A _ _ H70) as L180.
  change (2 * 0 + 40) with 40 in L40. change (2 * 70 + 40) with 180 in L180.
  apply Math_min_1. change 1 with (180 / 180).
  apply float_div_le_divisor; [reflexivity | | exact L180 | reflexivity].
  apply (float_lt_le_trans 0 40); [reflexivity | exact L40].
Qed.

(** X20.  For a phase separation from 0 to 70 m the scale factor of the
    diagram is exactly 1, and the separation is drawn four times enlarged
    (one rounded product). *)
Theorem diagram_scale (sep : float) :
  PrimFloat.leb 0 sep = true -> PrimFloat.leb sep 70 = true ->
  scale sep = 1 /\ scaledSep sep = sep * 4.
Proof.
  intros H0 H70. pose proof (scale_one sep H0 H70) as E.
  split; [exact E |]. unfold scaledSep. rewrite E, float_mul_one. reflexivity.
Qed.

Lemma outer_conductors (sep : float) :
  PrimFloat.leb 0 sep = true -> PrimFloat.leb sep 70 = true ->
  x sep (-1) = 140 + - (sep * 4) /\ x sep 1 = 140 + sep * 4.
Proof.
  intros H0 H70. unfold x, scaledSep, centerX.
  rewrite (scale_one sep H0 H70), float_mul_one, float_mul_minus_one.
  rewrite (float_mul_comm 1 (sep * 4)), float_mul_one. split; reflexivity.
Qed.



Lemma above_35 (sep : float) :
  PrimFloat.ltb 35 sep = true -> PrimFloat.leb 0x1.1800000000001p+5 sep = true.
Proof.
  intros H. apply ltb_rank in H. destruct H as (_ & N & H).
  apply leb_rank. split; [discriminate |]. split; [exact N |].
  change (Prim2SF 35) with (S754_finite false 4925812092436480 (-47)) in H.
  change (Prim2SF 0x1.1800000000001p+5)
    with (S754_finite false 4925812092436481 (-47)).
  cbn [rank] in *. lia.
Qed.

(** X22.  The scale factor does not keep a wider line in the picture: for a
    phase separation above 35 m (and up to 70 m, where the factor is still
    1) the left conductor is drawn left of the view box, at a negative [x],
    and the right conductor at its right edge or beyond: at 280 for the one
    double next above 35, where [140 + 4 * separation] rounds down, and beyond 280
    from 35.000000000000014 m on. *)
Theorem diagram_out_of_view (sep : float) :
  PrimFloat.ltb 35 sep = true -> PrimFloat.leb sep 70 = true ->
  PrimFloat.ltb (x sep (-1)) 0 = true /\
  PrimFloat.leb 280 (x sep 1) = true /\
  (PrimFloat.leb 0x1.1800000000002p+5 sep = true ->
   PrimFloat.ltb 280 (x sep 1) = true).
Proof.
  intros H35 H70. pose proof (above_35 sep H35) as Hs.
  assert (H0 : PrimFloat.leb 0 sep = true)
    by (apply (float_le_trans 0 0x1.1800000000001p+5 sep); [reflexivity | exact Hs]).
  destruct (outer_conductors sep H0 H70) as [-> ->].
  assert (M : forall a b, PrimFloat.leb a b = true ->
                PrimFloat.leb (140 + a * 4) (140 + b * 4) = true /\
                PrimFloat.leb (140 + - (b * 4)) (140 + - (a * 4)) = true).
  { intros a b L.
    assert (L4 : PrimFloat.leb (a * 4) (b * 4) = true)
      by (apply float_mul_le; [exact L | reflexivity | reflexivity]).
    split; apply float_add_le; try reflexivity; [exact L4 |].
    apply float_opp_le, L4. }
  destruct (M _ _ Hs) as [R L].
  split; [| split].
  - apply (float_le_lt_trans _ _ _ L). reflexivity.
  - exact R.
  - intros H2. destruct (M _ _ H2) as [R2 _].
    apply (float_lt_le_trans 280 (140 + 0x1.1800000000002p+5 * 4));
      [reflexivity | exact R2].
Qed.

End Diagram.

Lemma diagram_scale_witness :
  PrimFloat.leb 0 11 = true /\ PrimFloat.leb 11 70 = true /\
  LineDiagram.scaledSep 11 = 44%float.
Proof.
  split; [reflexivity |]. split; [reflexivity |].
  exact (eq_trans (proj2 (diagram_scale 11 eq_refl eq_refl)) eq_refl).
Defined.


Lemma diagram_out_of_view_witness :
  PrimFloat.ltb 35 40 = true /\ PrimFloat.leb 40 70 = true /\
  PrimFloat.ltb (LineDiagram.x 40 (-1)) 0 = true.
Proof.
  split; [reflexivity |]. split; [reflexivity |].
  exact (proj1 (diagram_out_of_view 40 eq_refl eq_refl)).
Defined.
